(** * Raster analysis tools of the geospatial servers: model and properties

    The three raster servers ([spectral_indices.py], [raster_metadata.py],
    [spatial_analysis.py]) are thin drivers around NumPy, SciPy and rasterio.
    The model keeps their shape:

    - cells of a band read with [astype("float32")] are IEEE binary32 values,
      given by the reference semantics of [SpecFloat] (NaN is the missing
      marker, infinities and signed zeros are present);
    - NumPy and SciPy routines the drivers call are modelled once, by their
      documented meaning, in [Np] and [Ndimage]; what the drivers only pass
      through (percentiles, the Gaussian kernel, the reprojection of a
      bounding box) is an interface, see [NumPyExt], [SciPy] and [Rasterio];
    - a tool is a computation in a small monad that records the effects a
      caller can observe (opening a file, reading a band, writing to the
      error stream) and either returns a JSON-like value or raises. *)

From Stdlib Require Import ZArith List Bool Lia Lra String QArith Qcanon.
From Stdlib Require Import Floats.SpecFloat.
From stdpp Require Import base list strings sorting pretty gmap numbers.

Local Open Scope Z_scope.

(** ** IEEE 754 values *)

(** Tests that do not depend on the format. *)
Definition isnan (x : spec_float) : bool :=
  match x with S754_nan => true | _ => false end.

Definition is_finite (x : spec_float) : bool :=
  match x with S754_zero _ | S754_finite _ _ _ => true | _ => false end.

(** Python's [x != y] on floats: true as soon as one side is NaN. *)
Definition SFneb (x y : spec_float) : bool := negb (SFeqb x y).

(** binary32, the element type after [astype("float32")]. *)
Module F32.
Definition prec : Z := 24.
Definition emax : Z := 128.
Definition add := SFadd prec emax.
Definition sub := SFsub prec emax.
Definition mul := SFmul prec emax.
Definition div := SFdiv prec emax.
Definition sqrt := SFsqrt prec emax.
Definition valid := valid_binary prec emax.
Definition zero : spec_float := S754_zero false.
Definition one : spec_float := S754_finite false 8388608 (-23).
Definition minus_one : spec_float := S754_finite true 8388608 (-23).
Definition nan : spec_float := S754_nan.
(** Conversion of a double (a Python float, or the result of a callback
    evaluated in double precision) to binary32, round to nearest even. *)
Definition of_f64 (x : spec_float) : spec_float :=
  match x with
  | S754_finite s m e => binary_round prec emax s m e
  | _ => x
  end.
End F32.

(** binary64, the Python float. *)
Module F64.
Definition prec : Z := 53.
Definition emax : Z := 1024.
Definition add := SFadd prec emax.
Definition sub := SFsub prec emax.
Definition mul := SFmul prec emax.
Definition div := SFdiv prec emax.
Definition sqrt := SFsqrt prec emax.
Definition valid := valid_binary prec emax.
Definition one : spec_float := S754_finite false 4503599627370496 (-52).
(** The double [m * 2^e]. *)
Definition lit (m e : Z) : spec_float := binary_normalize prec emax m e false.
(** Widening of a binary32 value; exact. *)
Definition of_f32 (x : spec_float) : spec_float :=
  match x with
  | S754_finite s m e => binary_round prec emax s m e
  | _ => x
  end.
End F64.

(** ** NumPy *)

Module Np.

(** *** Element-wise operations and boolean masks over a flat buffer

    An array is its row-major buffer; all arrays combined element-wise
    below come from bands of one dataset and have one shape. *)

Definition full_like {A B} (a : list A) (v : B) : list B := map (fun _ => v) a.

Definition np_isnan (a : list spec_float) : list bool := map isnan a.
Definition invert (m : list bool) : list bool := map negb m.
Definition np_all (m : list bool) : bool := forallb id m.
Definition np_any (m : list bool) : bool := existsb id m.
Definition count_true (m : list bool) : nat := length (filter (fun b => b = true) m).

(** [a[mask]]: the cells selected by a boolean mask, in order. *)
Fixpoint mask_select {A} (mask : list bool) (a : list A) : list A :=
  match mask, a with
  | b :: mask', x :: a' =>
      if b then x :: mask_select mask' a' else mask_select mask' a'
  | _, _ => []
  end.

(** [dst[mask] = src]: the selected cells of [dst] receive the values of
    [src] in order.  NumPy raises when [src] has not one value per selected
    cell; the drivers always build [src] from the same mask. *)
Fixpoint mask_assign {A} (dst : list A) (mask : list bool) (src : list A) : list A :=
  match dst, mask with
  | d :: dst', b :: mask' =>
      if b then
        match src with
        | s :: src' => s :: mask_assign dst' mask' src'
        | [] => d :: dst'
        end
      else d :: mask_assign dst' mask' src
  | _, _ => dst
  end.

(** [dst[mask] = v] with a scalar [v]. *)
Definition mask_fill {A} (dst : list A) (mask : list bool) (v : A) : list A :=
  zip_with (fun d (b : bool) => if b then v else d) dst mask.

(** *** Reductions, for a format [prec], [emax]

    Sums are accumulated from left to right. *)
Section Reductions.
Variables prec emax : Z.

Definition of_nat (n : nat) : spec_float :=
  binary_normalize prec emax (Z.of_nat n) 0 false.

Definition sum (xs : list spec_float) : spec_float :=
  fold_left (SFadd prec emax) xs (S754_zero false).

(** [np.mean]; NaN on an empty array (0/0). *)
Definition mean (xs : list spec_float) : spec_float :=
  SFdiv prec emax (sum xs) (of_nat (length xs)).

(** [np.std]: square root of the mean of [abs(x - mean)**2]. *)
Definition std (xs : list spec_float) : spec_float :=
  let m := mean xs in
  SFsqrt prec emax
    (mean (map (fun x => let d := SFabs (SFsub prec emax x m) in SFmul prec emax d d) xs)).

(** [np.min] and [np.max] propagate NaN; on the empty array NumPy raises
    (no driver reaches that case), the model answers NaN as the
    NaN-aware variants do with their warning. *)
Definition pick_min (acc x : spec_float) : spec_float :=
  if isnan acc then acc else if isnan x then x
  else if SFltb x acc then x else acc.
Definition pick_max (acc x : spec_float) : spec_float :=
  if isnan acc then acc else if isnan x then x
  else if SFltb acc x then x else acc.

Definition amin (xs : list spec_float) : spec_float :=
  match xs with [] => S754_nan | x :: t => fold_left pick_min t x end.
Definition amax (xs : list spec_float) : spec_float :=
  match xs with [] => S754_nan | x :: t => fold_left pick_max t x end.

(** The NaN-aware reducers work on the non-NaN cells; NaN when there is
    none. *)
Definition valid_cells (xs : list spec_float) : list spec_float :=
  filter (fun x => isnan x = false) xs.
Definition nanmean xs := mean (valid_cells xs).
Definition nanstd xs := std (valid_cells xs).
Definition nanmin xs := amin (valid_cells xs).
Definition nanmax xs := amax (valid_cells xs).
End Reductions.

End Np.

(** ** Python values, exceptions and observable effects *)

Module Py.

Inductive exn :=
| FileNotFoundError (msg : string)
| ValueError (msg : string)
| RasterioIOError (msg : string)
| AttributeError (msg : string).

(** What a caller can observe besides the result. *)
Inductive event :=
| Opened (path : string)          (* rio.open(p) *)
| BandRead (band : Z)             (* src.read(band, ...) *)
| Stderr (line : string).         (* print(..., file=sys.stderr) *)

(** A computation: the effects performed, then an exception or a value. *)
Definition io (A : Type) : Type := list event * (exn + A).

Definition ret {A} (a : A) : io A := ([], inr a).
Definition raise {A} (e : exn) : io A := ([], inl e).
Definition emit (ev : event) : io unit := ([ev], inr tt).
Definition bind {A B} (m : io A) (f : A -> io B) : io B :=
  match m with
  | (t, inl e) => (t, inl e)
  | (t, inr a) => let '(t', r) := f a in (t ++ t', r)
  end.
(** [try: m except Exception as e: h e] *)
Definition try_except {A} (m : io A) (h : exn -> io A) : io A :=
  match m with
  | (t, inl e) => let '(t', r) := h e in (t ++ t', r)
  | (t, inr a) => (t, inr a)
  end.

Definition trace {A} (m : io A) : list event := fst m.
Definition outcome {A} (m : io A) : exn + A := snd m.

Definition is_read (ev : event) : bool :=
  match ev with BandRead _ => true | _ => false end.

(** JSON-like results.  [VFloat] is an IEEE value; [VNum] is a number known
    exactly (a cell of a masked band, or a quantity derived from such
    cells). *)
#[warnings="-register-all"]
Inductive value :=
| VNone
| VBool (b : bool)
| VInt (n : Z)
| VFloat (x : spec_float)
| VNum (q : Qc)
| VStr (s : string)
| VList (l : list value)
| VDict (d : list (string * value)).

(** Dictionaries keep insertion order; assignment to a present key
    replaces its value in place. *)
Definition dict := list (string * value).

Fixpoint dict_get (k : string) (d : dict) : option value :=
  match d with
  | [] => None
  | (k', v) :: d' => if String.eqb k k' then Some v else dict_get k d'
  end.

Fixpoint dict_set (k : string) (v : value) (d : dict) : dict :=
  match d with
  | [] => [(k, v)]
  | (k', v') :: d' =>
      if String.eqb k k' then (k, v) :: d' else (k', v') :: dict_set k v d'
  end.

Definition dict_update (d upd : dict) : dict :=
  fold_left (fun acc kv => dict_set (fst kv) (snd kv) acc) upd d.

(** [v[k]] on a value that is a dictionary. *)
Definition field (k : string) (v : value) : option value :=
  match v with VDict d => dict_get k d | _ => None end.

(** [l[:stop]] *)
Definition slice_to {A} (stop : Z) (l : list A) : list A :=
  if 0 <=? stop then take (Z.to_nat stop) l
  else take (length l - Z.to_nat (- stop)) l.

End Py.

Import Py.

#[export] Instance io_ret : MRet io := @ret.
#[export] Instance io_bind : MBind io := fun A B f m => bind m f.

(** ** The raster source (rasterio) *)

Record Dataset := {
  count : Z;                               (* src.count *)
  height : nat;                            (* src.height *)
  width : nat;                             (* src.width *)
  crs : option string;                     (* src.crs, None when falsy *)
  bounds : list spec_float;                (* src.bounds: minx, miny, maxx, maxy *)
  nodatavals : list (option spec_float);   (* src.nodatavals, Python floats *)
  band_f32 : Z -> list spec_float;         (* src.read(b).astype("float32"), row-major *)
  band_masked : Z -> list (Qc * bool)      (* src.read(b, masked=True): cell and mask flag *)
}.

(** The world outside the tools. *)
Class Rasterio := {
  resolve : string -> string;              (* Path(path).expanduser().resolve() *)
  path_exists : string -> bool;            (* p.exists() *)
  open_dataset : string -> exn + Dataset;  (* rio.open(p) *)
  (** [transform_bounds(src.crs, CRS.from_epsg(4326), *src.bounds)]: the
      reprojected box, or the exception it raises. *)
  transform_bounds : string -> list spec_float -> exn + list spec_float
}.

(** Rendering of numbers and exceptions in Python strings. *)
Class PyStr := {
  str_f64 : spec_float -> string;          (* str(x), x a float *)
  str_num : Qc -> string;                  (* str(float(v)), v a cell *)
  str_exn : exn -> string                  (* str(e) *)
}.

(** NumPy routines the tools only pass through. *)
Class NumPyExt := {
  percentile : list spec_float -> Z -> spec_float;   (* np.percentile *)
  ma_mean : list Qc -> Qc;                           (* np.ma.mean, as float *)
  ma_std : list Qc -> Qc;                            (* np.ma.std, as float *)
  (** [np.ma.percentile], which may fail to resolve in the installed NumPy. *)
  ma_percentile : list Qc -> Z -> exn + Qc
}.

(** SciPy's Gaussian filter on an array of shape [height x width]. *)
Class SciPy := {
  gaussian_filter : nat -> nat -> list spec_float -> spec_float -> list spec_float
}.

Section Source.
Context `{Rasterio} `{PyStr}.

Definition validate_raster_path (path : string) : io string :=
  let p := resolve path in
  if path_exists p then mret p
  else raise (FileNotFoundError ("Path not found: " +:+ p)).

(** [with rio.open(p) as src] *)
Definition rio_open (p : string) : io Dataset :=
  _ ← emit (Opened p);
  match open_dataset p with
  | inl e => raise e
  | inr src => mret src
  end.

Definition read (src : Dataset) (band : Z) : io (list spec_float) :=
  _ ← emit (BandRead band); mret (band_f32 src band).

Definition read_masked (src : Dataset) (band : Z) : io (list (Qc * bool)) :=
  _ ← emit (BandRead band); mret (band_masked src band).

(** [src.nodatavals[band-1]] *)
Definition nodataval (src : Dataset) (band : Z) : option spec_float :=
  default None (nodatavals src !! Z.to_nat (band - 1)).

Definition valid_band (src : Dataset) (band : Z) : bool :=
  (1 <=? band) && (band <=? count src).

(** The three servers carry the same helper. *)
Definition get_wgs84_bounds (src : Dataset) : io (list spec_float) :=
  match crs src with
  | Some c =>
      try_except
        (match transform_bounds c (bounds src) with
         | inl e => raise e
         | inr b => mret b
         end)
        (fun e =>
           _ ← emit (Stderr ("Warning: Could not transform bounds to WGS84: " +:+ str_exn e));
           mret (bounds src))
  | None => mret (bounds src)
  end.

Definition float_list (l : list spec_float) : value := VList (map VFloat l).
End Source.


(** ** spectral_indices.py *)

Module SpectralIndices.

(** [band[band == nodata_val] = np.nan], done when the band declares a
    sentinel.  The sentinel is a Python float and is compared in binary32. *)
Definition mask_nodata (nodata : option spec_float) (band : list spec_float)
  : list spec_float :=
  match nodata with
  | Some v => Np.mask_fill band (map (fun x => SFeqb x (F32.of_f64 v)) band) F32.nan
  | None => band
  end.

(** Element-wise arithmetic on float32 arrays; a Python float operand is
    taken to binary32 first. *)
Definition arr_add := zip_with F32.add.
Definition arr_sub := zip_with F32.sub.
Definition arr_mul := zip_with F32.mul.
Definition arr_div := zip_with F32.div.
Definition scal_mul (c : spec_float) (a : list spec_float) := map (F32.mul (F32.of_f64 c)) a.
Definition add_scal (a : list spec_float) (c : spec_float) := map (fun x => F32.add x (F32.of_f64 c)) a.
Definition mul_scal (a : list spec_float) (c : spec_float) := map (fun x => F32.mul x (F32.of_f64 c)) a.
(** [denominator != 0] *)
Definition nonzero (a : list spec_float) : list bool := map (fun x => SFneb x F32.zero) a.

(** The index arrays, as each tool computes them from its normalized
    bands: the denominator of the formula, an all-NaN result, the mask of
    the non-zero denominators, and the quotient written under that mask. *)
Definition ndvi_denominator (red nir : list spec_float) := arr_add nir red.

Definition ndvi_array (red nir : list spec_float) : list spec_float :=
  let denominator := ndvi_denominator red nir in
  let ndvi := Np.full_like denominator F32.nan in
  let valid_pixels := nonzero denominator in
  Np.mask_assign ndvi valid_pixels
    (arr_div (arr_sub (Np.mask_select valid_pixels nir) (Np.mask_select valid_pixels red))
             (Np.mask_select valid_pixels denominator)).

Definition evi_denominator (red nir blue : list spec_float) (C1 C2 L : spec_float) :=
  add_scal (arr_sub (arr_add nir (scal_mul C1 red)) (scal_mul C2 blue)) L.

Definition evi_array (red nir blue : list spec_float) (G C1 C2 L : spec_float)
  : list spec_float :=
  let denominator := evi_denominator red nir blue C1 C2 L in
  let evi := Np.full_like denominator F32.nan in
  let valid_pixels := nonzero denominator in
  Np.mask_assign evi valid_pixels
    (arr_div (scal_mul G (arr_sub (Np.mask_select valid_pixels nir) (Np.mask_select valid_pixels red)))
             (Np.mask_select valid_pixels denominator)).

Definition savi_denominator (red nir : list spec_float) (L : spec_float) :=
  add_scal (arr_add nir red) L.

Definition savi_array (red nir : list spec_float) (L : spec_float) : list spec_float :=
  let denominator := savi_denominator red nir L in
  let savi := Np.full_like denominator F32.nan in
  let valid_pixels := nonzero denominator in
  Np.mask_assign savi valid_pixels
    (mul_scal
       (arr_div (arr_sub (Np.mask_select valid_pixels nir) (Np.mask_select valid_pixels red))
                (Np.mask_select valid_pixels denominator))
       (F64.add F64.one L)).

Definition ndwi_denominator (green nir : list spec_float) := arr_add green nir.

Definition ndwi_array (green nir : list spec_float) : list spec_float :=
  let denominator := ndwi_denominator green nir in
  let ndwi := Np.full_like denominator F32.nan in
  let valid_pixels := nonzero denominator in
  Np.mask_assign ndwi valid_pixels
    (arr_div (arr_sub (Np.mask_select valid_pixels green) (Np.mask_select valid_pixels nir))
             (Np.mask_select valid_pixels denominator)).

Definition mndwi_denominator (green swir : list spec_float) := arr_add green swir.

Definition mndwi_array (green swir : list spec_float) : list spec_float :=
  let denominator := mndwi_denominator green swir in
  let mndwi := Np.full_like denominator F32.nan in
  let valid_pixels := nonzero denominator in
  Np.mask_assign mndwi valid_pixels
    (arr_div (arr_sub (Np.mask_select valid_pixels green) (Np.mask_select valid_pixels swir))
             (Np.mask_select valid_pixels denominator)).

(** The three arrays of [calculate_multiple_indices]; EVI with the constants
    6.0, 7.5, 1.0 and 2.5 written in the code. *)
Definition multi_ndvi_denom (red nir : list spec_float) := arr_add nir red.

Definition multi_ndvi_array (red nir : list spec_float) : list spec_float :=
  let ndvi_denom := multi_ndvi_denom red nir in
  let ndvi := Np.full_like ndvi_denom F32.nan in
  let valid_ndvi := nonzero ndvi_denom in
  Np.mask_assign ndvi valid_ndvi
    (arr_div (arr_sub (Np.mask_select valid_ndvi nir) (Np.mask_select valid_ndvi red))
             (Np.mask_select valid_ndvi ndvi_denom)).

Definition multi_ndwi_denom (green nir : list spec_float) := arr_add green nir.

Definition multi_ndwi_array (green nir : list spec_float) : list spec_float :=
  let ndwi_denom := multi_ndwi_denom green nir in
  let ndwi := Np.full_like ndwi_denom F32.nan in
  let valid_ndwi := nonzero ndwi_denom in
  Np.mask_assign ndwi valid_ndwi
    (arr_div (arr_sub (Np.mask_select valid_ndwi green) (Np.mask_select valid_ndwi nir))
             (Np.mask_select valid_ndwi ndwi_denom)).

Definition multi_evi_denom (red nir blue : list spec_float) :=
  add_scal (arr_sub (arr_add nir (scal_mul (F64.lit 6 0) red)) (scal_mul (F64.lit 15 (-1)) blue))
           (F64.lit 1 0).

Definition multi_evi_array (red nir blue : list spec_float) : list spec_float :=
  let evi_denom := multi_evi_denom red nir blue in
  let evi := Np.full_like evi_denom F32.nan in
  let valid_evi := nonzero evi_denom in
  Np.mask_assign evi valid_evi
    (arr_div (scal_mul (F64.lit 5 (-1)) (arr_sub (Np.mask_select valid_evi nir) (Np.mask_select valid_evi red)))
             (Np.mask_select valid_evi evi_denom)).

(** *** The index operations as one table

    The logical band roles a request assigns, after normalization, and for
    every index array of the server: the array, its denominator and the
    bands its formula reads. *)
Record Bands := {
  b_red : list spec_float;
  b_nir : list spec_float;
  b_green : list spec_float;
  b_blue : list spec_float;
  b_swir : list spec_float
}.

Inductive index_op :=
| NDVI
| EVI (G C1 C2 L : spec_float)
| SAVI (L : spec_float)
| NDWI
| MNDWI
| MultiNDVI
| MultiNDWI
| MultiEVI.

Definition index_array (op : index_op) (b : Bands) : list spec_float :=
  match op with
  | NDVI => ndvi_array (b_red b) (b_nir b)
  | EVI G C1 C2 L => evi_array (b_red b) (b_nir b) (b_blue b) G C1 C2 L
  | SAVI L => savi_array (b_red b) (b_nir b) L
  | NDWI => ndwi_array (b_green b) (b_nir b)
  | MNDWI => mndwi_array (b_green b) (b_swir b)
  | MultiNDVI => multi_ndvi_array (b_red b) (b_nir b)
  | MultiNDWI => multi_ndwi_array (b_green b) (b_nir b)
  | MultiEVI => multi_evi_array (b_red b) (b_nir b) (b_blue b)
  end.

Definition index_denominator (op : index_op) (b : Bands) : list spec_float :=
  match op with
  | NDVI => ndvi_denominator (b_red b) (b_nir b)
  | EVI G C1 C2 L => evi_denominator (b_red b) (b_nir b) (b_blue b) C1 C2 L
  | SAVI L => savi_denominator (b_red b) (b_nir b) L
  | NDWI => ndwi_denominator (b_green b) (b_nir b)
  | MNDWI => mndwi_denominator (b_green b) (b_swir b)
  | MultiNDVI => multi_ndvi_denom (b_red b) (b_nir b)
  | MultiNDWI => multi_ndwi_denom (b_green b) (b_nir b)
  | MultiEVI => multi_evi_denom (b_red b) (b_nir b) (b_blue b)
  end.

Definition required_bands (op : index_op) (b : Bands) : list (list spec_float) :=
  match op with
  | NDVI | SAVI _ | MultiNDVI => [b_red b; b_nir b]
  | EVI _ _ _ _ | MultiEVI => [b_red b; b_nir b; b_blue b]
  | NDWI | MultiNDWI => [b_green b; b_nir b]
  | MNDWI => [b_green b; b_swir b]
  end.

Section Tools.
Context `{Rasterio} `{PyStr} `{NumPyExt}.

Definition calculate_index_stats (index_array : list spec_float) (index_name : string) : dict :=
  if Np.np_all (Np.np_isnan index_array) then
    [(index_name +:+ "_stats",
      VDict [("min", VNone); ("max", VNone); ("mean", VNone); ("std", VNone);
             ("valid_pixels", VInt 0);
             ("total_pixels", VInt (Z.of_nat (length index_array)))])]
  else
    let valid_mask := Np.invert (Np.np_isnan index_array) in
    let valid_data := Np.mask_select valid_mask index_array in
    [(index_name +:+ "_stats",
      VDict [("min", VFloat (F64.of_f32 (Np.amin valid_data)));
             ("max", VFloat (F64.of_f32 (Np.amax valid_data)));
             ("mean", VFloat (F64.of_f32 (Np.mean F32.prec F32.emax valid_data)));
             ("std", VFloat (F64.of_f32 (Np.std F32.prec F32.emax valid_data)));
             ("valid_pixels", VInt (Z.of_nat (Np.count_true valid_mask)));
             ("total_pixels", VInt (Z.of_nat (length index_array)));
             ("percentiles",
              VDict [("25", VFloat (percentile valid_data 25));
                     ("50", VFloat (percentile valid_data 50));
                     ("75", VFloat (percentile valid_data 75))])])].

Definition invalid_bands (src : Dataset) : exn :=
  ValueError ("Invalid band indices. Image has " +:+ pretty (count src) +:+ " bands.").

Definition calculate_ndvi (path : string) (red_band nir_band : Z) : io value :=
  p ← validate_raster_path path;
  src ← rio_open p;
  if negb (valid_band src red_band && valid_band src nir_band) then raise (invalid_bands src)
  else
    red ← read src red_band;
    nir ← read src nir_band;
    let red := mask_nodata (nodataval src red_band) red in
    let nir := mask_nodata (nodataval src nir_band) nir in
    let ndvi := ndvi_array red nir in
    let result := calculate_index_stats ndvi "ndvi" in
    b ← get_wgs84_bounds src;
    mret (VDict (dict_update result
      [("file_path", VStr p); ("red_band", VInt red_band); ("nir_band", VInt nir_band);
       ("bounds_wgs84", float_list b);
       ("index_description",
        VStr "NDVI ranges from -1 to 1. Higher values indicate healthier vegetation.")])).

Definition calculate_evi (path : string) (red_band nir_band blue_band : Z)
    (G C1 C2 L : spec_float) : io value :=
  p ← validate_raster_path path;
  src ← rio_open p;
  if negb (forallb (valid_band src) [red_band; nir_band; blue_band]) then raise (invalid_bands src)
  else
    red ← read src red_band;
    nir ← read src nir_band;
    blue ← read src blue_band;
    let red := mask_nodata (nodataval src red_band) red in
    let nir := mask_nodata (nodataval src nir_band) nir in
    let blue := mask_nodata (nodataval src blue_band) blue in
    let evi := evi_array red nir blue G C1 C2 L in
    let result := calculate_index_stats evi "evi" in
    b ← get_wgs84_bounds src;
    mret (VDict (dict_update result
      [("file_path", VStr p); ("red_band", VInt red_band); ("nir_band", VInt nir_band);
       ("blue_band", VInt blue_band);
       ("parameters", VDict [("G", VFloat G); ("C1", VFloat C1); ("C2", VFloat C2); ("L", VFloat L)]);
       ("bounds_wgs84", float_list b);
       ("index_description",
        VStr "EVI ranges from -1 to 1. Improved vegetation index that reduces atmospheric effects.")])).

Definition calculate_savi (path : string) (red_band nir_band : Z) (L : spec_float) : io value :=
  p ← validate_raster_path path;
  src ← rio_open p;
  if negb (valid_band src red_band && valid_band src nir_band) then raise (invalid_bands src)
  else
    red ← read src red_band;
    nir ← read src nir_band;
    let red := mask_nodata (nodataval src red_band) red in
    let nir := mask_nodata (nodataval src nir_band) nir in
    let savi := savi_array red nir L in
    let result := calculate_index_stats savi "savi" in
    b ← get_wgs84_bounds src;
    mret (VDict (dict_update result
      [("file_path", VStr p); ("red_band", VInt red_band); ("nir_band", VInt nir_band);
       ("L_parameter", VFloat L);
       ("bounds_wgs84", float_list b);
       ("index_description",
        VStr ("SAVI with L=" +:+ str_f64 L +:+
              ". Reduces soil brightness influence on vegetation measurements."))])).

Definition calculate_ndwi (path : string) (green_band nir_band : Z) : io value :=
  p ← validate_raster_path path;
  src ← rio_open p;
  if negb (valid_band src green_band && valid_band src nir_band) then raise (invalid_bands src)
  else
    green ← read src green_band;
    nir ← read src nir_band;
    let green := mask_nodata (nodataval src green_band) green in
    let nir := mask_nodata (nodataval src nir_band) nir in
    let ndwi := ndwi_array green nir in
    let result := calculate_index_stats ndwi "ndwi" in
    b ← get_wgs84_bounds src;
    mret (VDict (dict_update result
      [("file_path", VStr p); ("green_band", VInt green_band); ("nir_band", VInt nir_band);
       ("bounds_wgs84", float_list b);
       ("index_description",
        VStr "NDWI ranges from -1 to 1. Higher values indicate water presence.")])).

Definition calculate_mndwi (path : string) (green_band swir_band : Z) : io value :=
  p ← validate_raster_path path;
  src ← rio_open p;
  if negb (valid_band src green_band && valid_band src swir_band) then raise (invalid_bands src)
  else
    green ← read src green_band;
    swir ← read src swir_band;
    let green := mask_nodata (nodataval src green_band) green in
    let swir := mask_nodata (nodataval src swir_band) swir in
    let mndwi := mndwi_array green swir in
    let result := calculate_index_stats mndwi "mndwi" in
    b ← get_wgs84_bounds src;
    mret (VDict (dict_update result
      [("file_path", VStr p); ("green_band", VInt green_band); ("swir_band", VInt swir_band);
       ("bounds_wgs84", float_list b);
       ("index_description",
        VStr "MNDWI uses SWIR band for better water detection in urban areas.")])).

(** [calculate_index_stats(a, name)[name + "_stats"]] *)
Definition stats_of (a : list spec_float) (name : string) : value :=
  default VNone (dict_get (name +:+ "_stats") (calculate_index_stats a name)).

Definition calculate_multiple_indices (path : string)
    (red_band nir_band green_band blue_band : Z) : io value :=
  p ← validate_raster_path path;
  src ← rio_open p;
  if negb (forallb (valid_band src) [red_band; nir_band; green_band; blue_band])
  then raise (invalid_bands src)
  else
    red ← read src red_band;
    nir ← read src nir_band;
    green ← read src green_band;
    blue ← read src blue_band;
    let red := mask_nodata (nodataval src red_band) red in
    let nir := mask_nodata (nodataval src nir_band) nir in
    let green := mask_nodata (nodataval src green_band) green in
    let blue := mask_nodata (nodataval src blue_band) blue in
    b ← get_wgs84_bounds src;
    let ndvi := multi_ndvi_array red nir in
    let ndwi := multi_ndwi_array green nir in
    let evi := multi_evi_array red nir blue in
    mret (VDict
      [("file_path", VStr p);
       ("band_configuration",
        VDict [("red_band", VInt red_band); ("nir_band", VInt nir_band);
               ("green_band", VInt green_band); ("blue_band", VInt blue_band)]);
       ("bounds_wgs84", float_list b);
       ("indices",
        VDict [("ndvi", stats_of ndvi "ndvi"); ("ndwi", stats_of ndwi "ndwi");
               ("evi", stats_of evi "evi")])]).

End Tools.
End SpectralIndices.


(** ** NumPy on masked bands (exact cells) *)

Module Ma.

(** A masked array: every cell with its mask flag ([true]: masked out). *)
Definition masked := list (Qc * bool).

(** [data.compressed()] *)
Definition compressed (data : masked) : list Qc :=
  fst <$> filter (fun c => snd c = false) data.

(** [data.count()] *)
Definition count (data : masked) : nat := length (compressed data).

Definition qmin (x y : Qc) : Qc := if decide (x ≤ y)%Qc then x else y.
Definition qmax (x y : Qc) : Qc := if decide (x ≤ y)%Qc then y else x.

(** [np.ma.min], [np.ma.max] over the cells that are not masked (callers
    pass a band with one such cell at least). *)
Definition ma_min (data : masked) : Qc :=
  match compressed data with [] => 0%Qc | x :: t => foldl qmin x t end.
Definition ma_max (data : masked) : Qc :=
  match compressed data with [] => 0%Qc | x :: t => foldl qmax x t end.

(** *** [np.unique(a, return_counts=True)]: the sorted distinct values, each
    with its number of occurrences. *)
Fixpoint runs (sorted : list Qc) : list (Qc * nat) :=
  match sorted with
  | [] => []
  | x :: t =>
      match runs t with
      | (y, c) :: r => if decide (x = y) then (x, S c) :: r else (x, 1%nat) :: (y, c) :: r
      | [] => [(x, 1%nat)]
      end
  end.

Definition unique_counts (a : list Qc) : list (Qc * nat) :=
  runs (merge_sort Qcle a).

(** [np.unique(a)] *)
Definition unique (a : list Qc) : list Qc := fst <$> unique_counts a.

(** [np.argsort(counts)]: positions in increasing order of count. *)
Definition count_le (a b : nat * nat) : Prop := (fst a <= fst b)%nat.
#[export] Instance count_le_dec : RelDecision count_le :=
  fun a b => decide (fst a <= fst b)%nat.

Definition argsort (counts : list nat) : list nat :=
  snd <$> merge_sort count_le (zip counts (seq 0 (length counts))).

(** [a[indices]] with an index array. *)
Definition take_indices {A} (a : list A) (indices : list nat) : list A :=
  omap (fun i => a !! i) indices.

(** *** [np.histogram(a, bins=n)] for an integer [n]

    The outer edges are the extreme values (widened by one half on each side
    when they coincide, and 0, 1 for no value at all); the edges are [n + 1]
    evenly spaced numbers; every bin is half-open except the last. *)
Definition of_Z (n : Z) : Qc := Q2Qc (inject_Z n).
Definition half : Qc := Q2Qc (1 # 2).

Definition outer_edges (a : list Qc) : Qc * Qc :=
  match a with
  | [] => (0, 1)%Qc
  | x :: t =>
      let first := foldl qmin x t in
      let last := foldl qmax x t in
      if decide (first = last) then (first - half, last + half)%Qc else (first, last)
  end.

(** [np.linspace(first, last, n + 1)[i]] *)
Definition edge (first last : Qc) (n : Z) (i : Z) : Qc :=
  (first + of_Z i * ((last - first) / of_Z n))%Qc.

Definition in_bin (first last : Qc) (n : Z) (i : Z) (x : Qc) : bool :=
  if decide (i = n - 1)
  then bool_decide (edge first last n i ≤ x)%Qc && bool_decide (x ≤ edge first last n n)%Qc
  else bool_decide (edge first last n i ≤ x)%Qc && bool_decide (x < edge first last n (i + 1))%Qc.

Definition histogram (a : list Qc) (bins : Z) : exn + (list nat * list Qc) :=
  if bins <? 1 then inl (ValueError "`bins` must be positive, when an integer")
  else
    let '(first, last) := outer_edges a in
    inr ((fun i => length (filter (fun x => in_bin first last bins i x = true) a)) <$> seqZ 0 bins,
         edge first last bins <$> seqZ 0 (bins + 1)).

End Ma.

(** ** raster_metadata.py *)

Module RasterMetadata.
Section Tools.
Context `{Rasterio} `{PyStr} `{NumPyExt}.

Definition invalid_band (src : Dataset) : exn :=
  ValueError ("Invalid band number. Raster has " +:+ pretty (count src) +:+ " bands.").

(** The statistics of one band, as the body of the loop computes them. *)
Definition band_stats (data : Ma.masked) : exn + value :=
  if decide (Ma.count data = 0%nat) then
    inr (VDict [("min", VNone); ("max", VNone); ("mean", VNone); ("std", VNone);
                ("count", VInt 0)])
  else
    let v := Ma.compressed data in
    match ma_percentile v 25, ma_percentile v 50, ma_percentile v 75 with
    | inr p25, inr p50, inr p75 =>
        inr (VDict [("min", VNum (Ma.ma_min data)); ("max", VNum (Ma.ma_max data));
                    ("mean", VNum (ma_mean v)); ("std", VNum (ma_std v));
                    ("count", VInt (Z.of_nat (Ma.count data)));
                    ("percentiles",
                     VDict [("25", VNum p25); ("50", VNum p50); ("75", VNum p75)])])
    | inl e, _, _ | _, inl e, _ | _, _, inl e => inl e
    end.

Fixpoint stats_loop (src : Dataset) (bands_to_process : list Z) (statistics : dict) : io dict :=
  match bands_to_process with
  | [] => mret statistics
  | band_idx :: rest =>
      data ← read_masked src band_idx;
      match band_stats data with
      | inl e => raise e
      | inr stats => stats_loop src rest (dict_set ("band_" +:+ pretty band_idx) stats statistics)
      end
  end.

Definition band_statistics (path : string) (band_number : option Z) : io value :=
  p ← validate_raster_path path;
  src ← rio_open p;
  bands_to_process ←
    match band_number with
    | Some n => if negb (valid_band src n) then raise (invalid_band src) else mret [n]
    | None => mret (seqZ 1 (count src))
    end;
  statistics ← stats_loop src bands_to_process [];
  b ← get_wgs84_bounds src;
  mret (VDict [("file_path", VStr p); ("statistics", VDict statistics);
               ("bounds_wgs84", float_list b)]).

Definition no_valid_data (band_number : Z) : value :=
  VDict [("error", VStr "No valid data in band"); ("band_number", VInt band_number)].

Definition histogram_data (path : string) (band_number bins : Z) : io value :=
  p ← validate_raster_path path;
  src ← rio_open p;
  if negb (valid_band src band_number) then raise (invalid_band src)
  else
    data ← read_masked src band_number;
    if decide (Ma.count data = 0%nat) then mret (no_valid_data band_number)
    else
      match Ma.histogram (Ma.compressed data) bins with
      | inl e => raise e
      | inr (hist, bin_edges) =>
          mret (VDict
            [("file_path", VStr p); ("band_number", VInt band_number); ("bins", VInt bins);
             ("histogram", VList ((fun c : nat => VInt (Z.of_nat c)) <$> hist));
             ("bin_edges", VList (VNum <$> bin_edges));
             ("total_pixels", VInt (Z.of_nat (Ma.count data)));
             ("data_range",
              VDict [("min", VNum (Ma.ma_min data)); ("max", VNum (Ma.ma_max data))])])
      end.

(** The loop filling [value_counts]. *)
Definition fill_value_counts (unique_vals : list Qc) (counts : list nat) : dict :=
  foldl (fun value_counts vc => dict_set (str_num (fst vc)) (VInt (Z.of_nat (snd vc))) value_counts)
        [] (zip unique_vals counts).

Definition unique_values (path : string) (band_number max_unique : Z) : io value :=
  p ← validate_raster_path path;
  src ← rio_open p;
  if negb (valid_band src band_number) then raise (invalid_band src)
  else
    data ← read_masked src band_number;
    if decide (Ma.count data = 0%nat) then mret (no_valid_data band_number)
    else
      let uc := Ma.unique_counts (Ma.compressed data) in
      let unique_vals := fst <$> uc in
      let counts := snd <$> uc in
      let '(unique_vals, counts, truncated) :=
        if Z.of_nat (length unique_vals) >? max_unique then
          let sorted_indices := slice_to max_unique (reverse (Ma.argsort counts)) in
          (Ma.take_indices unique_vals sorted_indices,
           Ma.take_indices counts sorted_indices, true)
        else (unique_vals, counts, false) in
      let value_counts := fill_value_counts unique_vals counts in
      mret (VDict
        [("file_path", VStr p); ("band_number", VInt band_number);
         ("total_unique_values", VInt (Z.of_nat (length (Ma.unique (Ma.compressed data)))));
         ("returned_values", VInt (Z.of_nat (length value_counts)));
         ("truncated", VBool truncated);
         ("value_counts", VDict value_counts)]).

End Tools.
End RasterMetadata.


(** ** SciPy's [ndimage.generic_filter] *)

Module Ndimage.

(** [mode='reflect']: the array is mirrored about its border, the border
    cell repeated (d c b a | a b c d | d c b a); [reflect n i] is the index
    inside [0, n) read at position [i]. *)
Definition reflect (n : Z) (i : Z) : Z :=
  let p := i mod (2 * n) in
  if p <? n then p else 2 * n - 1 - p.

(** Offsets covered by a footprint of size [k] centred on the cell. *)
Definition offsets (k : Z) : list Z := seqZ (- (k / 2)) k.

(** The cell at row [r], column [c] of a row-major buffer of width [w]. *)
Definition cell (w : nat) (buf : list spec_float) (r c : Z) : spec_float :=
  default S754_nan (buf !! Z.to_nat (r * Z.of_nat w + c)).

(** The [k x k] neighbourhood of the cell at ([r], [c]). *)
Definition window (h w : nat) (buf : list spec_float) (k : Z) (r c : Z) : list spec_float :=
  dr ← offsets k; dc ← offsets k;
  [cell w buf (reflect (Z.of_nat h) (r + dr)) (reflect (Z.of_nat w) (c + dc))].

(** [generic_filter(data, function, footprint=np.ones((k, k)), mode='reflect')]
    on a float32 array of shape [h x w]: the callback receives the
    neighbourhood as doubles; its result is stored as float32. *)
Definition generic_filter (h w : nat) (buf : list spec_float)
    (function : list spec_float -> spec_float) (k : Z) : list spec_float :=
  r ← seqZ 0 (Z.of_nat h); c ← seqZ 0 (Z.of_nat w);
  [F32.of_f64 (function (F64.of_f32 <$> window h w buf k r c))].

End Ndimage.

(** ** spatial_analysis.py *)

Module SpatialAnalysis.

(** Convert nodata values to NaN for processing. *)
Definition handle_nodata (data : list spec_float) (nodata_val : option spec_float)
  : list spec_float :=
  match nodata_val with
  | Some v =>
      if negb (isnan v)
      then Np.mask_fill data (map (fun x => SFeqb x (F32.of_f64 v)) data) F32.nan
      else data
  | None => data
  end.

(** The four focal reducers, evaluated in double precision on a window. *)
Inductive reducer := Rmean | Rmax | Rmin | Rstd.

Definition reducer_name (f : reducer) : string :=
  match f with
  | Rmean => "focal_mean" | Rmax => "focal_max" | Rmin => "focal_min" | Rstd => "focal_std"
  end.

Definition reducer_fun (f : reducer) : list spec_float -> spec_float :=
  match f with
  | Rmean => Np.nanmean F64.prec F64.emax
  | Rmax => Np.nanmax
  | Rmin => Np.nanmin
  | Rstd => Np.nanstd F64.prec F64.emax
  end.

(** [generic_filter(data, np.nan<f>, footprint=np.ones((k, k)), mode='reflect')] *)
Definition focal_array (f : reducer) (h w : nat) (data : list spec_float) (window_size : Z)
  : list spec_float :=
  Ndimage.generic_filter h w data (reducer_fun f) window_size.

Definition optional_stat (present : bool) (x : spec_float) : value :=
  if present then VFloat (F64.of_f32 x) else VNone.

Definition calculate_filter_stats (original_data filtered_data : list spec_float)
    (filter_name : string) : dict :=
  let valid_original := Np.invert (Np.np_isnan original_data) in
  let valid_filtered := Np.invert (Np.np_isnan filtered_data) in
  [(filter_name +:+ "_stats",
    VDict [("original_valid_pixels", VInt (Z.of_nat (Np.count_true valid_original)));
           ("filtered_valid_pixels", VInt (Z.of_nat (Np.count_true valid_filtered)));
           ("min", optional_stat (Np.np_any valid_filtered) (Np.nanmin filtered_data));
           ("max", optional_stat (Np.np_any valid_filtered) (Np.nanmax filtered_data));
           ("mean", optional_stat (Np.np_any valid_filtered)
                      (Np.nanmean F32.prec F32.emax filtered_data));
           ("std", optional_stat (Np.np_any valid_filtered)
                     (Np.nanstd F32.prec F32.emax filtered_data))])].

(** The smoothed array of [gaussian_smooth], from the normalized band. *)
Definition gaussian_array `{SciPy} (h w : nat) (original_data : list spec_float)
    (sigma : spec_float) : list spec_float :=
  let valid_mask := Np.invert (Np.np_isnan original_data) in
  let filtered_data := Np.full_like original_data F32.nan in
  if Np.np_any valid_mask then
    let temp_data :=
      Np.mask_fill original_data (Np.np_isnan original_data)
        (Np.nanmean F32.prec F32.emax original_data) in
    let filtered_temp := gaussian_filter h w temp_data sigma in
    Np.mask_assign filtered_data valid_mask (Np.mask_select valid_mask filtered_temp)
  else filtered_data.

Section Tools.
Context `{Rasterio} `{PyStr} `{SciPy}.

Definition invalid_band (src : Dataset) : exn :=
  ValueError ("Invalid band number. Image has " +:+ pretty (count src) +:+ " bands.").

(** [focal_mean], [focal_max], [focal_min] and [focal_std] are one text up
    to the reducer and its name. *)
Definition focal_tool (f : reducer) (path : string) (band_number window_size : Z) : io value :=
  p ← validate_raster_path path;
  if (window_size <=? 0) || (window_size mod 2 =? 0)
  then raise (ValueError "Window size must be a positive odd integer.")
  else
    src ← rio_open p;
    if negb (valid_band src band_number) then raise (invalid_band src)
    else
      data ← read src band_number;
      let nodata_val := nodataval src band_number in
      let data := handle_nodata data nodata_val in
      let filtered_data := focal_array f (height src) (width src) data window_size in
      let result := calculate_filter_stats data filtered_data (reducer_name f) in
      b ← get_wgs84_bounds src;
      mret (VDict (dict_update result
        [("file_path", VStr p); ("band_number", VInt band_number);
         ("window_size", VInt window_size); ("filter_type", VStr (reducer_name f));
         ("bounds_wgs84", float_list b)])).

Definition focal_mean := focal_tool Rmean.
Definition focal_max := focal_tool Rmax.
Definition focal_min := focal_tool Rmin.
Definition focal_std := focal_tool Rstd.

Definition gaussian_smooth (path : string) (band_number : Z) (sigma : spec_float) : io value :=
  p ← validate_raster_path path;
  if SFleb sigma (S754_zero false) then raise (ValueError "Sigma must be positive.")
  else
    src ← rio_open p;
    if negb (valid_band src band_number) then raise (invalid_band src)
    else
      data ← read src band_number;
      let nodata_val := nodataval src band_number in
      let original_data := handle_nodata data nodata_val in
      let filtered_data := gaussian_array (height src) (width src) original_data sigma in
      let result := calculate_filter_stats original_data filtered_data "gaussian_smooth" in
      b ← get_wgs84_bounds src;
      mret (VDict (dict_update result
        [("file_path", VStr p); ("band_number", VInt band_number);
         ("sigma", VFloat sigma); ("filter_type", VStr "gaussian_smooth");
         ("bounds_wgs84", float_list b)])).

End Tools.
End SpatialAnalysis.


(** ** What the properties speak about *)

(** A computation is rejected before any data access when it raises and no
    band has been read. *)
Definition rejected_before_read {A} (m : io A) : Prop :=
  (exists e, outcome m = inl e) /\ Forall (fun ev => is_read ev = false) (trace m).

(** A result carries a warning field. *)
Definition has_warning_field (v : value) : Prop := is_Some (field "warning" v).

(** Cells that are numbers: neither NaN nor an infinity. *)
Definition finite_or_nan (x : spec_float) : bool := isnan x || is_finite x.

(** Both infinities occur in an array. *)
Definition mixed_infinities (a : list spec_float) : Prop :=
  S754_infinity false ∈ a /\ S754_infinity true ∈ a.

(** What the tools rely on from SciPy's Gaussian filter: the output has the
    shape of the input, and a weighted sum with positive weights yields NaN
    only from a NaN or from infinities of both signs. *)
Class SciPyContract `{SciPy} : Prop := {
  gaussian_filter_length :
    forall h w a sigma, length (gaussian_filter h w a sigma) = length a;
  gaussian_filter_no_nan :
    forall h w a sigma,
      Forall (fun x => isnan x = false) a -> ~ mixed_infinities a ->
      Forall (fun x => isnan x = false) (gaussian_filter h w a sigma)
}.

(** ** A concrete scene

    The 2 x 2 band [[1, 2], [3, nodata]] with sentinel -9999, in a projected
    system whose reprojection fails. *)
Module Demo.

Definition f32 (z : Z) : spec_float := F32.of_f64 (F64.lit z 0).

Definition scene : Dataset := {|
  count := 1;
  height := 2;
  width := 2;
  crs := Some "EPSG:32633";
  bounds := [F64.lit 500000 0; F64.lit 4649776 0; F64.lit 500002 0; F64.lit 4649778 0];
  nodatavals := [Some (F64.lit (-9999) 0)];
  band_f32 := fun _ => [f32 1; f32 2; f32 3; f32 (-9999)];
  band_masked := fun _ =>
    [(Ma.of_Z 1, false); (Ma.of_Z 2, false); (Ma.of_Z 3, false); (Ma.of_Z (-9999), true)]
|}.

(** The same scene with every cell equal to the sentinel. *)
Definition empty_scene : Dataset := {|
  count := 1;
  height := 2;
  width := 2;
  crs := None;
  bounds := bounds scene;
  nodatavals := nodatavals scene;
  band_f32 := fun _ => [f32 (-9999); f32 (-9999); f32 (-9999); f32 (-9999)];
  band_masked := fun _ =>
    [(Ma.of_Z (-9999), true); (Ma.of_Z (-9999), true);
     (Ma.of_Z (-9999), true); (Ma.of_Z (-9999), true)]
|}.

#[export] Instance world : Rasterio := {|
  resolve := fun p => p;
  path_exists := fun p => String.eqb p "/data/scene.tif" || String.eqb p "/data/empty.tif";
  open_dataset := fun p => if String.eqb p "/data/empty.tif" then inr empty_scene else inr scene;
  transform_bounds := fun _ _ => inl (ValueError "Invalid projection")
|}.

(** Stand-ins for the rendering of numbers; [str_num] is one-to-one. *)
#[export] Instance strings : PyStr := {|
  str_f64 := fun x =>
    match x with
    | S754_finite s m e => (if s then "-" else "") +:+ pretty (Zpos m) +:+ "p" +:+ pretty e
    | S754_zero s => if s then "-0.0" else "0.0"
    | S754_infinity s => if s then "-inf" else "inf"
    | S754_nan => "nan"
    end;
  str_num := fun q => pretty (Npos (encode q));
  str_exn := fun e =>
    match e with
    | FileNotFoundError m | ValueError m | RasterioIOError m | AttributeError m => m
    end
|}.

(** Stand-ins for the reducers the tools pass through. *)
#[export] Instance numpy : NumPyExt := {|
  percentile := fun xs _ => Np.amin xs;
  ma_mean := fun v => (foldr Qcplus 0%Qc v / Ma.of_Z (Z.of_nat (length v)))%Qc;
  ma_std := fun _ => 0%Qc;
  ma_percentile := fun v _ => inr (foldr Ma.qmin 0%Qc v)
|}.

(** The Gaussian kernel of radius 0, which SciPy uses for a small sigma:
    the filter returns its input. *)
#[export] Instance scipy : SciPy := {|
  gaussian_filter := fun _ _ a _ => a
|}.

End Demo.


(** ** Auxiliary notions for the proofs *)

(** Each index array is the masked quotient of a whole-array numerator. *)
Definition ratio (den num : list spec_float) : list spec_float :=
  Np.mask_assign (Np.full_like den F32.nan) (SpectralIndices.nonzero den)
    (Np.mask_select (SpectralIndices.nonzero den) num).

Definition index_numerator (op : SpectralIndices.index_op) (b : SpectralIndices.Bands)
  : list spec_float :=
  let den := SpectralIndices.index_denominator op b in
  let nir := SpectralIndices.b_nir b in
  let red := SpectralIndices.b_red b in
  let green := SpectralIndices.b_green b in
  let swir := SpectralIndices.b_swir b in
  match op with
  | SpectralIndices.NDVI | SpectralIndices.MultiNDVI =>
      SpectralIndices.arr_div (SpectralIndices.arr_sub nir red) den
  | SpectralIndices.EVI G _ _ _ =>
      SpectralIndices.arr_div (SpectralIndices.scal_mul G (SpectralIndices.arr_sub nir red)) den
  | SpectralIndices.SAVI L =>
      SpectralIndices.mul_scal
        (SpectralIndices.arr_div (SpectralIndices.arr_sub nir red) den) (F64.add F64.one L)
  | SpectralIndices.NDWI | SpectralIndices.MultiNDWI =>
      SpectralIndices.arr_div (SpectralIndices.arr_sub green nir) den
  | SpectralIndices.MNDWI =>
      SpectralIndices.arr_div (SpectralIndices.arr_sub green swir) den
  | SpectralIndices.MultiEVI =>
      SpectralIndices.arr_div
        (SpectralIndices.scal_mul (F64.lit 5 (-1)) (SpectralIndices.arr_sub nir red)) den
  end.

(** Number of histogram bins among [0 .. k) that hold [x]. *)
Definition hits (first last : Qc) (n : Z) (k : Z) (x : Qc) : nat :=
  sum_list ((fun i => if Ma.in_bin first last n i x then 1%nat else 0%nat) <$> seqZ 0 k).

(** Rounding in [SpecFloat]: a shift has lost some bit. *)
Definition inexact (mrs : shr_record) : bool := shr_r mrs || shr_s mrs.

(** What [binary_round_aux] builds from the final mantissa and exponent. *)
Definition finalize (prec emax : Z) (sx : bool) (m e : Z) : spec_float :=
  match m with
  | 0 => S754_zero sx
  | Zpos p => if e <=? emax - prec then S754_finite sx p e else S754_infinity sx
  | Zneg _ => S754_nan
  end.

(** The exponent [shr_fexp] moves a mantissa to. *)
Definition round_exp (prec emax : Z) (m e : Z) : Z :=
  Z.max e (fexp prec emax (Zdigits2 m + e)).

(** A value that is not NaN and has its sign bit clear. *)
Definition sign_plus (x : spec_float) : bool :=
  match x with
  | S754_zero false | S754_infinity false | S754_finite false _ _ => true
  | _ => false
  end.

(** The plain reducer behind each NaN-aware focal reducer. *)
Definition reducer_plain (f : SpatialAnalysis.reducer) : list spec_float -> spec_float :=
  match f with
  | SpatialAnalysis.Rmean => Np.mean F64.prec F64.emax
  | SpatialAnalysis.Rmax => Np.amax
  | SpatialAnalysis.Rmin => Np.amin
  | SpatialAnalysis.Rstd => Np.std F64.prec F64.emax
  end.

(** Magnitude bounds against [mf * 2 ^ ef], written on the mantissa and
    exponent so that no real number is needed: [at_most mf ef x] says that
    [|x| <= mf * 2 ^ ef] and that the exponent of [x] does not exceed [ef];
    [at_least mf ef x] says that [|x| >= mf * 2 ^ ef] with an exponent that is
    not below [ef] (an infinity is above everything). *)
Definition at_most (mf ef : Z) (x : spec_float) : Prop :=
  match x with
  | S754_zero _ => True
  | S754_finite _ m e => e <= ef /\ Zpos m <= mf * 2 ^ (ef - e)
  | _ => False
  end.

Definition at_least (mf ef : Z) (x : spec_float) : Prop :=
  match x with
  | S754_infinity _ => True
  | S754_finite _ m e => ef <= e /\ mf <= Zpos m * 2 ^ (e - ef)
  | _ => False
  end.


(** ** raster_metadata.py: the two descriptive tools *)

Module MetadataInfo.

(** Attributes of an open dataset and of its file that only these tools
    read.  rasterio keeps one dtype per band, and the affine transform has
    nine coefficients. *)
Class RasterioInfo := {
  driver : Dataset -> string;                  (* src.driver *)
  dtype : Dataset -> Z -> string;              (* str(src.dtypes[i]), 0 <= i < src.count *)
  transform_coeff : Dataset -> nat -> spec_float;   (* src.transform[i], i < 9 *)
  tags : Dataset -> option Z -> dict;          (* src.tags(), src.tags(i) *)
  file_size_mb : string -> spec_float          (* round(p.stat().st_size / 1024 / 1024, 2) *)
}.

Section Tools.
Context `{Rasterio} `{PyStr} `{RasterioInfo}.

Definition opt_float (x : option spec_float) : value :=
  match x with Some v => VFloat v | None => VNone end.

(** [[str(dtype) for dtype in src.dtypes]] *)
Definition dtypes (src : Dataset) : list string := dtype src <$> seqZ 0 (count src).

(** [list(src.transform)] *)
Definition transform (src : Dataset) : list spec_float := transform_coeff src <$> seq 0 9.

(** The body of the loop over the bands. *)
Definition band_info (src : Dataset) (i : Z) : value :=
  VDict [("band_number", VInt i);
         ("dtype", VStr (dtype src (i - 1)));
         ("nodata", opt_float (nodataval src i));
         ("tags", VDict (tags src (Some i)))].

Definition extract_metadata (path : string) : io value :=
  p ← validate_raster_path path;
  src ← rio_open p;
  b ← get_wgs84_bounds src;
  let metadata :=
    [("file_path", VStr p);
     ("driver", VStr (driver src));
     ("width", VInt (Z.of_nat (width src)));
     ("height", VInt (Z.of_nat (height src)));
     ("count", VInt (count src));
     ("dtypes", VList (VStr <$> dtypes src));
     ("crs", match crs src with Some c => VStr c | None => VNone end);
     ("bounds_original_crs", float_list (bounds src));
     ("bounds_wgs84", float_list b);
     ("transform", float_list (transform src));
     ("nodata_values", VList (opt_float <$> nodatavals src));
     ("tags", VDict (tags src None));
     ("file_size_mb", VFloat (file_size_mb p))] in
  let bands := foldl (fun bands i => bands ++ [band_info src i]) [] (seqZ 1 (count src)) in
  mret (VDict (dict_set "bands" (VList bands) metadata)).

(** [any(nodata is not None for nodata in src.nodatavals)] *)
Definition has_nodata (src : Dataset) : bool :=
  existsb (fun nodata => match nodata with Some _ => true | None => false end) (nodatavals src).

(** The pixel count is a Python integer; in [pixel_area * total_pixels] it
    is converted to a double, rounded to nearest even. *)
Definition raster_overview (path : string) : io value :=
  p ← validate_raster_path path;
  src ← rio_open p;
  let pixel_area := SFabs (F64.mul (transform_coeff src 0) (transform_coeff src 4)) in
  let total_pixels := (width src * height src)%nat in
  mret (VDict
    [("file_path", VStr p);
     ("dimensions", VDict [("width", VInt (Z.of_nat (width src)));
                           ("height", VInt (Z.of_nat (height src)))]);
     ("bands", VInt (count src));
     ("data_type", if 0 <? count src then VStr (dtype src 0) else VNone);
     ("coordinate_system", VStr (match crs src with Some c => c | None => "No CRS" end));
     ("pixel_size", VDict [("x", VFloat (SFabs (transform_coeff src 0)));
                           ("y", VFloat (SFabs (transform_coeff src 4)))]);
     ("pixel_area", VFloat pixel_area);
     ("total_pixels", VInt (Z.of_nat total_pixels));
     ("coverage_area",
      VFloat (F64.mul pixel_area (Np.of_nat F64.prec F64.emax total_pixels)));
     ("has_nodata", VBool (has_nodata src))]).

End Tools.
End MetadataInfo.


(** ** spatial_analysis.py: the median filter and the edge detector *)

Module SpatialFilters.
Import SpatialAnalysis.

(** Library routines these two tools hand their arrays to. *)
Class Filters := {
  (** [scipy.ndimage.median_filter(a, size=size)] on an array of shape
      [height x width] *)
  median_filter : nat -> nat -> list spec_float -> Z -> list spec_float;
  nanmedian : list spec_float -> spec_float;        (* np.nanmedian, float32 *)
  np_sum : list spec_float -> spec_float;           (* np.sum of nine doubles *)
  (** [np.gradient(a)] on a two-dimensional array: the row-wise and the
      column-wise gradient, or the exception raised when an axis is too
      short. *)
  np_gradient : nat -> nat -> list spec_float -> exn + (list spec_float * list spec_float)
}.

Section Arrays.
Context `{Filters}.

(** The filtered array of [median_filter_analysis], from the normalized band. *)
Definition median_array (h w : nat) (original_data : list spec_float) (size : Z)
  : list spec_float :=
  let valid_mask := Np.invert (Np.np_isnan original_data) in
  let filtered_data := Np.full_like original_data F32.nan in
  if Np.np_any valid_mask then
    let temp_data :=
      Np.mask_fill original_data (Np.np_isnan original_data) (nanmedian original_data) in
    let filtered_temp := median_filter h w temp_data size in
    Np.mask_assign filtered_data valid_mask (Np.mask_select valid_mask filtered_temp)
  else filtered_data.

Definition sobel_x : list Z := [-1; 0; 1; -2; 0; 2; -1; 0; 1].
Definition sobel_y : list Z := [-1; -2; -1; 0; 0; 0; 1; 2; 1].

(** [lambda x: np.sum(x.reshape(3, 3) * kernel)] *)
Definition sobel_response (kernel : list Z) (x : list spec_float) : spec_float :=
  np_sum (zip_with F64.mul x ((fun z => F64.lit z 0) <$> kernel)).

(** [np.sqrt(gx**2 + gy**2)] on float32 arrays. *)
Definition magnitude (gx gy : list spec_float) : list spec_float :=
  zip_with (fun x y => F32.sqrt (F32.add (F32.mul x x) (F32.mul y y))) gx gy.

(** The gradient magnitude of the filled array, for a method that passed
    the check. *)
Definition edge_magnitude (method : string) (h w : nat) (temp_data : list spec_float)
  : exn + list spec_float :=
  if String.eqb method "sobel" then
    let edge_x := Ndimage.generic_filter h w temp_data (sobel_response sobel_x) 3 in
    let edge_y := Ndimage.generic_filter h w temp_data (sobel_response sobel_y) 3 in
    inr (magnitude edge_x edge_y)
  else
    match np_gradient h w temp_data with
    | inl e => inl e
    | inr (grad_y, grad_x) => inr (magnitude grad_x grad_y)
    end.

(** The edge array of [edge_detection], from the normalized band. *)
Definition edge_array (method : string) (h w : nat) (original_data : list spec_float)
  : exn + list spec_float :=
  let valid_mask := Np.invert (Np.np_isnan original_data) in
  let edge_data := Np.full_like original_data F32.nan in
  if Np.np_any valid_mask then
    let temp_data :=
      Np.mask_fill original_data (Np.np_isnan original_data)
        (Np.nanmean F32.prec F32.emax original_data) in
    match edge_magnitude method h w temp_data with
    | inl e => inl e
    | inr edge_magnitude =>
        inr (Np.mask_assign edge_data valid_mask (Np.mask_select valid_mask edge_magnitude))
    end
  else inr edge_data.

End Arrays.

Section Tools.
Context `{Rasterio} `{PyStr} `{Filters}.

Definition median_filter_analysis (path : string) (band_number size : Z) : io value :=
  p ← validate_raster_path path;
  if size <=? 0 then raise (ValueError "Filter size must be positive.")
  else
    src ← rio_open p;
    if negb (valid_band src band_number) then raise (invalid_band src)
    else
      data ← read src band_number;
      let nodata_val := nodataval src band_number in
      let original_data := handle_nodata data nodata_val in
      let filtered_data := median_array (height src) (width src) original_data size in
      let result := calculate_filter_stats original_data filtered_data "median_filter" in
      b ← get_wgs84_bounds src;
      mret (VDict (dict_update result
        [("file_path", VStr p); ("band_number", VInt band_number);
         ("filter_size", VInt size); ("filter_type", VStr "median_filter");
         ("bounds_wgs84", float_list b)])).

Definition edge_detection (path : string) (band_number : Z) (method : string) : io value :=
  p ← validate_raster_path path;
  if negb (String.eqb method "sobel" || String.eqb method "gradient")
  then raise (ValueError "Method must be 'sobel' or 'gradient'.")
  else
    src ← rio_open p;
    if negb (valid_band src band_number) then raise (invalid_band src)
    else
      data ← read src band_number;
      let nodata_val := nodataval src band_number in
      let original_data := handle_nodata data nodata_val in
      match edge_array method (height src) (width src) original_data with
      | inl e => raise e
      | inr edge_data =>
          let result := calculate_filter_stats original_data edge_data ("edge_" +:+ method) in
          b ← get_wgs84_bounds src;
          mret (VDict (dict_update result
            [("file_path", VStr p); ("band_number", VInt band_number);
             ("edge_method", VStr method); ("filter_type", VStr ("edge_" +:+ method));
             ("bounds_wgs84", float_list b)]))
      end.

End Tools.
End SpatialFilters.


(** Stand-ins for the attributes and routines of the two modules above, on
    the scene of [Demo]. *)
Module DemoTools.
Import Demo.

#[export] Instance info : MetadataInfo.RasterioInfo := {|
  MetadataInfo.driver := fun _ => "GTiff";
  MetadataInfo.dtype := fun _ _ => "float32";
  MetadataInfo.transform_coeff := fun _ i =>
    match i with
    | 0%nat => F64.lit 1 0
    | 2%nat => F64.lit 500000 0
    | 4%nat => F64.lit (-1) 0
    | 5%nat => F64.lit 4649778 0
    | 8%nat => F64.lit 1 0
    | _ => F64.lit 0 0
    end;
  MetadataInfo.tags := fun _ _ => [];
  MetadataInfo.file_size_mb := fun _ => F64.lit 0 0
|}.

(** A median filter of size one and a gradient of first differences that
    refuses an axis with a single cell. *)
#[export] Instance filters : SpatialFilters.Filters := {|
  SpatialFilters.median_filter := fun _ _ a _ => a;
  SpatialFilters.nanmedian := Np.nanmin;
  SpatialFilters.np_sum := Np.sum F64.prec F64.emax;
  SpatialFilters.np_gradient := fun h w a =>
    if ((h <? 2) || (w <? 2))%nat
    then inl (ValueError "Shape of array too small to calculate a numerical gradient, at least (edge_order + 1) elements are required.")
    else inr (a, a)
|}.

(** A world whose reprojection succeeds, returning the box unchanged. *)
Definition geographic : Rasterio := {|
  resolve := fun p => p;
  path_exists := fun p => String.eqb p "/data/scene.tif";
  open_dataset := fun _ => inr scene;
  transform_bounds := fun _ b => inr b
|}.

End DemoTools.


(** * Properties *)

Import Py.
Local Open Scope Z_scope.

(** ** Boolean masks *)

Section Masks.
Context {A : Type}.
Implicit Types (m : list bool) (a b dst xs : list A).

Lemma mask_select_nil_r m : Np.mask_select m (@nil A) = [].
Proof. by destruct m. Qed.

Lemma mask_assign_select_lookup dst m xs (i : nat) :
  length m = length dst -> length xs = length dst ->
  Np.mask_assign dst m (Np.mask_select m xs) !! i =
  match m !! i with
  | Some true => xs !! i
  | _ => dst !! i
  end.
Proof.
  revert m xs i. induction dst as [|d dst IH]; intros [|b m] [|x xs] i Hm Hx;
    simplify_eq/=; try done.
  destruct b; destruct i as [|i]; simpl; try done; by apply IH.
Qed.

Lemma mask_select_elem m xs (x : A) :
  x ∈ Np.mask_select m xs -> exists i : nat, m !! i = Some true /\ xs !! i = Some x.
Proof.
  revert xs. induction m as [|b m IH]; intros [|y xs] Hx; simpl in Hx;
    try by apply elem_of_nil in Hx.
  destruct b.
  - apply elem_of_cons in Hx as [->|Hx]; [by exists 0%nat|].
    destruct (IH _ Hx) as (i & ? & ?). by exists (S i).
  - destruct (IH _ Hx) as (i & ? & ?). by exists (S i).
Qed.
End Masks.

Lemma mask_select_zip_with {A B C} (f : A -> B -> C) m (a : list A) (b : list B) :
  Np.mask_select m (zip_with f a b) =
  zip_with f (Np.mask_select m a) (Np.mask_select m b).
Proof.
  revert a b. induction m as [|c m IH]; intros [|x a] [|y b]; simpl; try done.
  - by destruct c, (Np.mask_select m a).
  - destruct c; simpl; by rewrite IH.
Qed.

Lemma mask_select_map {A B} (f : A -> B) m (a : list A) :
  Np.mask_select m (map f a) = map f (Np.mask_select m a).
Proof.
  revert a. induction m as [|c m IH]; intros [|x a]; simpl; try done.
  destruct c; simpl; by rewrite IH.
Qed.

(** ** NaN is absorbing for the four operations *)

Section NanAbsorbs.
Variables prec emax : Z.

Lemma SFadd_nan_l y : SFadd prec emax S754_nan y = S754_nan.
Proof. done. Qed.
Lemma SFadd_nan_r x : SFadd prec emax x S754_nan = S754_nan.
Proof. by destruct x. Qed.
Lemma SFsub_nan_l y : SFsub prec emax S754_nan y = S754_nan.
Proof. done. Qed.
Lemma SFsub_nan_r x : SFsub prec emax x S754_nan = S754_nan.
Proof. by destruct x. Qed.
Lemma SFmul_nan_l y : SFmul prec emax S754_nan y = S754_nan.
Proof. done. Qed.
Lemma SFmul_nan_r x : SFmul prec emax x S754_nan = S754_nan.
Proof. by destruct x. Qed.
Lemma SFdiv_nan_l y : SFdiv prec emax S754_nan y = S754_nan.
Proof. done. Qed.
Lemma SFdiv_nan_r x : SFdiv prec emax x S754_nan = S754_nan.
Proof. by destruct x. Qed.
End NanAbsorbs.

Lemma isnan_true x : isnan x = true -> x = S754_nan.
Proof. by destruct x. Qed.

Lemma SFneb_nan_l y : SFneb S754_nan y = true.
Proof. done. Qed.

Ltac nan_absorb :=
  rewrite ?SFadd_nan_l, ?SFadd_nan_r, ?SFsub_nan_l, ?SFsub_nan_r,
    ?SFmul_nan_l, ?SFmul_nan_r, ?SFdiv_nan_l, ?SFdiv_nan_r, ?SFneb_nan_l.

(** ** The masked quotient shared by the index arrays *)

Module SpectralFacts.
Import SpectralIndices.

(** What the pattern [out = full_like(den, nan); out[den != 0] = num[den != 0]]
    leaves at one cell. *)
Lemma masked_quotient_lookup (den num : list spec_float) (i : nat) :
  length num = length den ->
  Np.mask_assign (Np.full_like den F32.nan) (nonzero den)
    (Np.mask_select (nonzero den) num) !! i =
  match den !! i with
  | Some d => if SFneb d F32.zero then num !! i else Some F32.nan
  | None => None
  end.
Proof.
  intros Hlen. rewrite mask_assign_select_lookup.
  - unfold nonzero, Np.full_like. rewrite !list_lookup_fmap.
    destruct (den !! i) as [d|]; simpl; [|done]. by destruct (SFneb d F32.zero).
  - unfold nonzero, Np.full_like. by rewrite !length_map.
  - unfold Np.full_like. by rewrite length_map.
Qed.

(** The selected divisors are exactly the non-zero denominators. *)
Lemma selected_divisors_nonzero (den : list spec_float) :
  Forall (fun d => SFeqb d F32.zero = false) (Np.mask_select (nonzero den) den).
Proof.
  apply list.Forall_forall. intros d Hd.
  apply mask_select_elem in Hd as (i & Hm & Hi).
  unfold nonzero in Hm. rewrite list_lookup_fmap, Hi in Hm. simpl in Hm.
  unfold SFneb in Hm. by destruct (SFeqb d F32.zero); simplify_eq/=.
Qed.

Lemma index_array_ratio op b :
  index_array op b = ratio (index_denominator op b) (index_numerator op b).
Proof.
  destruct op; simpl;
    unfold ndvi_array, evi_array, savi_array, ndwi_array, mndwi_array,
      multi_ndvi_array, multi_ndwi_array, multi_evi_array, ratio,
      arr_div, arr_sub, scal_mul, mul_scal; simpl;
    by rewrite ?mask_select_zip_with, ?mask_select_map, ?mask_select_zip_with.
Qed.

Lemma index_numerator_length op b :
  length (index_numerator op b) = length (index_denominator op b).
Proof.
  destruct op; simpl;
    unfold ndvi_denominator, evi_denominator, savi_denominator, ndwi_denominator,
      mndwi_denominator, multi_ndvi_denom, multi_ndwi_denom, multi_evi_denom,
      arr_div, arr_sub, arr_add, scal_mul, mul_scal, add_scal;
    rewrite ?length_map, ?length_zip_with, ?length_map, ?length_zip_with, ?length_map; lia.
Qed.

Lemma index_array_lookup op b (i : nat) :
  index_array op b !! i =
  match index_denominator op b !! i with
  | Some d => if SFneb d F32.zero then index_numerator op b !! i else Some F32.nan
  | None => None
  end.
Proof.
  rewrite index_array_ratio. apply masked_quotient_lookup, index_numerator_length.
Qed.

End SpectralFacts.


Module SpectralClaims.
Import Py SpectralIndices SpectralFacts.

Ltac cell_lookups :=
  unfold index_numerator, index_denominator, ndvi_denominator, evi_denominator,
    savi_denominator, ndwi_denominator, mndwi_denominator, multi_ndvi_denom,
    multi_ndwi_denom, multi_evi_denom, arr_div, arr_sub, arr_add, scal_mul,
    mul_scal, add_scal;
  simpl;
  repeat (rewrite ?lookup_zip_with, ?list_lookup_fmap;
          repeat match goal with H : _ !! _ = Some _ |- _ => rewrite H end;
          simpl).

(** C1.  For each index array (NDVI, EVI, SAVI, NDWI, MNDWI and the three
    arrays of the combined operation): at a cell present in every band the
    formula reads, if one of these normalized bands holds the missing marker
    (NaN) there, the index array holds the missing marker there. *)
Theorem missing_input_gives_missing_index (op : index_op) (b : Bands) (i : nat) :
  Forall (fun band => is_Some (band !! i)) (required_bands op b) ->
  Exists (fun band => band !! i = Some F32.nan) (required_bands op b) ->
  index_array op b !! i = Some F32.nan.
Proof.
  intros Hall Hex. rewrite index_array_lookup.
  destruct op; simpl in Hall, Hex;
    repeat match goal with
           | H : Forall _ (_ :: _) |- _ => apply list.Forall_cons in H as [[? ?] H]
           end;
    cell_lookups;
    repeat match goal with
           | H : Exists _ (_ :: _) |- _ => apply List.Exists_cons in H as [H|H]
           | H : Exists _ [] |- _ => by apply List.Exists_nil in H
           end;
    simplify_eq; unfold F32.nan, F32.add, F32.sub, F32.mul, F32.div;
    nan_absorb; simpl; by nan_absorb.
Qed.

Lemma missing_input_gives_missing_index_witness :
  index_array NDVI
    {| b_red := [F32.nan; F32.one]; b_nir := [F32.one; F32.one];
       b_green := []; b_blue := []; b_swir := [] |} !! 0%nat = Some F32.nan.
Proof.
  apply missing_input_gives_missing_index; simpl.
  - repeat constructor; by eexists.
  - by left.
Defined.

(** C3.  For each index array: at a cell whose denominator is zero the
    array holds the missing marker, and every divisor handed to the division
    is non-zero (the division runs only over the cells selected by
    [denominator != 0]); NDVI with RED = 0 and NIR = 0 is missing. *)
Theorem zero_denominator_gives_missing (op : index_op) (b : Bands) (i : nat) d :
  index_denominator op b !! i = Some d ->
  SFeqb d F32.zero = true ->
  index_array op b !! i = Some F32.nan
  /\ Forall (fun d' => SFeqb d' F32.zero = false)
       (Np.mask_select (nonzero (index_denominator op b)) (index_denominator op b))
  /\ ndvi_array [F32.zero] [F32.zero] = [F32.nan].
Proof.
  intros Hd Hz. split; [|split].
  - rewrite index_array_lookup, Hd. unfold SFneb. by rewrite Hz.
  - apply selected_divisors_nonzero.
  - reflexivity.
Qed.

Lemma zero_denominator_gives_missing_witness :
  let b := {| b_red := [F32.zero]; b_nir := [F32.zero];
              b_green := []; b_blue := []; b_swir := [] |} in
  index_array NDVI b !! 0%nat = Some F32.nan
  /\ Forall (fun d' => SFeqb d' F32.zero = false)
       (Np.mask_select (nonzero (index_denominator NDVI b)) (index_denominator NDVI b))
  /\ ndvi_array [F32.zero] [F32.zero] = [F32.nan].
Proof.
  intros b. apply (zero_denominator_gives_missing NDVI b 0 F32.zero); reflexivity.
Defined.

End SpectralClaims.


Import Py.
Local Open Scope Z_scope.

(** ** Running a tool *)

Ltac io_unfold :=
  unfold mbind, io_bind, mret, io_ret, bind, ret, raise, emit, try_except,
    trace, outcome, validate_raster_path, rio_open, read, read_masked in *.

Section Effects.
Context `{Rasterio} `{PyStr}.

Lemma get_wgs84_bounds_fallback src c e :
  crs src = Some c -> transform_bounds c (bounds src) = inl e ->
  get_wgs84_bounds src =
  ([Stderr ("Warning: Could not transform bounds to WGS84: " +:+ str_exn e)],
   inr (bounds src)).
Proof. intros Hc He. unfold get_wgs84_bounds. rewrite Hc, He. reflexivity. Qed.

Lemma get_wgs84_bounds_returns src : exists t b, get_wgs84_bounds src = (t, inr b).
Proof.
  unfold get_wgs84_bounds. destruct (crs src) as [c|]; [|by eexists _, _].
  destruct (transform_bounds c (bounds src)); by eexists _, _.
Qed.

End Effects.

Lemma dict_get_set_eq k v d : dict_get k (dict_set k v d) = Some v.
Proof.
  induction d as [|[k' v'] d IH]; simpl.
  - by rewrite String.eqb_refl.
  - destruct (String.eqb k k') eqn:E; simpl; rewrite ?E, ?String.eqb_refl; done.
Qed.

(** ** np.unique on a band with a valid cell *)

Lemma runs_nil l : Ma.runs l = [] -> l = [].
Proof.
  destruct l as [|x t]; [done|]. simpl.
  destruct (Ma.runs t) as [|[y c] r]; [done|]. by destruct (decide (x = y)).
Qed.

Lemma unique_counts_nonempty a : a <> [] -> Ma.unique_counts a <> [].
Proof.
  intros Ha Hu. apply runs_nil in Hu.
  pose proof (merge_sort_Permutation Qcle a) as Hp. rewrite Hu in Hp.
  by apply Permutation_nil_l in Hp.
Qed.

Lemma np_all_isnan a :
  Forall (fun x => isnan x = true) a -> Np.np_all (Np.np_isnan a) = true.
Proof.
  induction 1 as [|x a Hx _ IH]; [done|]. unfold Np.np_all, Np.np_isnan in *.
  simpl. by rewrite Hx, IH.
Qed.

Module EffectClaims.
Import RasterMetadata SpatialAnalysis SpectralIndices Demo.

(** C5, as stated, fails: with [bins = 0] the histogram tool raises only
    after the band has been read, and with [max_unique = 0] the
    unique-values tool returns a result. *)
Lemma nonpositive_parameter_not_rejected_before_read :
  ~ rejected_before_read (histogram_data "/data/scene.tif" 1 0)
  /\ ~ rejected_before_read (unique_values "/data/scene.tif" 1 0).
Proof.
  split; intros [[e He] Ht].
  - vm_compute in Ht. apply list.Forall_cons in Ht as [_ Ht].
    apply list.Forall_cons in Ht as [Ht _]. discriminate.
  - vm_compute in He. discriminate.
Qed.

(** C5, amended.  On an existing raster with a valid band number, neither
    tool checks its parameter before the band is read.  With [bins <= 0] the
    histogram tool reads the band, then returns the "No valid data in band"
    record when the band has no valid cell and otherwise raises NumPy's
    [ValueError]: it never returns a histogram.  With [max_unique <= 0] the
    unique-values tool reads the band and, when the band has a valid cell,
    returns a result flagged as truncated. *)
Theorem nonpositive_parameter_handled_after_read `{Rasterio} `{PyStr} `{NumPyExt}
    (path : string) (band k : Z) (src : Dataset) :
  path_exists (resolve path) = true ->
  open_dataset (resolve path) = inr src ->
  valid_band src band = true ->
  k <= 0 ->
  trace (histogram_data path band k) = [Opened (resolve path); BandRead band]
  /\ outcome (histogram_data path band k) =
       (if decide (Ma.count (band_masked src band) = 0%nat)
        then inr (no_valid_data band)
        else inl (ValueError "`bins` must be positive, when an integer"))
  /\ trace (unique_values path band k) = [Opened (resolve path); BandRead band]
  /\ (Ma.count (band_masked src band) <> 0%nat ->
      exists v, outcome (unique_values path band k) = inr v
                /\ field "truncated" v = Some (VBool true)).
Proof.
  intros Hp Ho Hb Hk.
  unfold histogram_data, unique_values. io_unfold.
  rewrite Hp; simpl. rewrite Ho; simpl. rewrite Hb; simpl.
  destruct (decide (Ma.count (band_masked src band) = 0%nat)) as [Hc|Hc]; simpl.
  - repeat split; try done.
  - unfold Ma.histogram.
    replace (k <? 1) with true by (symmetry; apply Z.ltb_lt; lia). simpl.
    assert (Hlen : (Z.of_nat (length (Ma.unique_counts (Ma.compressed (band_masked src band)))) >? k) = true).
    { apply Z.gtb_lt.
      assert (Ma.unique_counts (Ma.compressed (band_masked src band)) <> []) as Hne.
      { apply unique_counts_nonempty. intros E. apply Hc. unfold Ma.count. by rewrite E. }
      destruct (Ma.unique_counts _); [done|]. simpl. lia. }
    rewrite !length_fmap, Hlen. simpl.
    repeat split; try done. intros _. eexists. split; [reflexivity|]. reflexivity.
Qed.

Lemma nonpositive_parameter_handled_after_read_witness :
  trace (histogram_data "/data/scene.tif" 1 0) = [Opened "/data/scene.tif"; BandRead 1]
  /\ outcome (histogram_data "/data/scene.tif" 1 0) =
       (if decide (Ma.count (band_masked Demo.scene 1) = 0%nat)
        then inr (no_valid_data 1)
        else inl (ValueError "`bins` must be positive, when an integer"))
  /\ trace (unique_values "/data/scene.tif" 1 0) = [Opened "/data/scene.tif"; BandRead 1]
  /\ (Ma.count (band_masked Demo.scene 1) <> 0%nat ->
      exists v, outcome (unique_values "/data/scene.tif" 1 0) = inr v
                /\ field "truncated" v = Some (VBool true)).
Proof.
  refine (nonpositive_parameter_handled_after_read "/data/scene.tif" 1 0 Demo.scene _ _ _ _);
    first [reflexivity | lia].
Defined.

(** C6, as stated, fails: when the reprojection of the scene fails, the
    result of the focal tool has no warning field. *)
Lemma reprojection_failure_leaves_no_warning_field :
  transform_bounds "EPSG:32633" (bounds Demo.scene) = inl (ValueError "Invalid projection")
  /\ exists v, outcome (focal_mean "/data/scene.tif" 1 3) = inr v /\ ~ has_warning_field v.
Proof.
  split; [reflexivity|]. eexists. split; [vm_compute; reflexivity|].
  intros [w Hw]. vm_compute in Hw. discriminate.
Qed.

(** C6, amended.  For every request whose bounding-box reprojection fails
    (shown on the focal tools, on a readable raster with a valid band and
    window): no exception escapes, [bounds_wgs84] holds the bounds in the
    original coordinate system, the failure is reported by one warning line
    on the error stream, and the result carries no warning field. *)
Theorem reprojection_failure_falls_back `{Rasterio} `{PyStr}
    (f : reducer) (path : string) (band k : Z) (src : Dataset) (c : string) (e : exn) :
  path_exists (resolve path) = true ->
  open_dataset (resolve path) = inr src ->
  valid_band src band = true ->
  0 < k -> k mod 2 = 1 ->
  crs src = Some c ->
  transform_bounds c (bounds src) = inl e ->
  outcome (get_wgs84_bounds src) = inr (bounds src)
  /\ exists v,
       outcome (focal_tool f path band k) = inr v
       /\ trace (focal_tool f path band k) =
            [Opened (resolve path); BandRead band;
             Stderr ("Warning: Could not transform bounds to WGS84: " +:+ str_exn e)]
       /\ field "bounds_wgs84" v = Some (float_list (bounds src))
       /\ field "warning" v = None.
Proof.
  intros Hp Ho Hb Hk Hodd Hc He.
  rewrite (get_wgs84_bounds_fallback src c e Hc He). split; [done|].
  unfold focal_tool. io_unfold.
  rewrite Hp; simpl.
  replace (k <=? 0) with false by (symmetry; apply Z.leb_gt; lia).
  replace (k mod 2 =? 0) with false by (symmetry; apply Z.eqb_neq; lia).
  simpl. rewrite Ho; simpl. rewrite Hb; simpl.
  rewrite (get_wgs84_bounds_fallback src c e Hc He); simpl.
  eexists. split; [reflexivity|]. split; [reflexivity|].
  destruct f; split; reflexivity.
Qed.

Lemma reprojection_failure_falls_back_witness :
  outcome (get_wgs84_bounds Demo.scene) = inr (bounds Demo.scene)
  /\ exists v,
       outcome (focal_tool Rmean "/data/scene.tif" 1 3) = inr v
       /\ trace (focal_tool Rmean "/data/scene.tif" 1 3) =
            [Opened "/data/scene.tif"; BandRead 1;
             Stderr ("Warning: Could not transform bounds to WGS84: " +:+
                     str_exn (ValueError "Invalid projection"))]
       /\ field "bounds_wgs84" v = Some (float_list (bounds Demo.scene))
       /\ field "warning" v = None.
Proof.
  refine (reprojection_failure_falls_back Rmean "/data/scene.tif" 1 3 Demo.scene
            "EPSG:32633" (ValueError "Invalid projection") _ _ _ _ _ _ _);
    first [reflexivity | lia].
Defined.

(** C8.  A band whose cells are all masked gives, in [band_statistics], a
    summary with null min, max, mean and std and a count of 0, and no
    exception; an index array whose cells are all NaN gives, in
    [calculate_index_stats], null min, max, mean and std and 0 valid
    pixels. *)
Theorem all_missing_gives_null_summary `{Rasterio} `{PyStr} `{NumPyExt}
    (path : string) (band : Z) (src : Dataset) (a : list spec_float) (name : string) :
  path_exists (resolve path) = true ->
  open_dataset (resolve path) = inr src ->
  valid_band src band = true ->
  Ma.count (band_masked src band) = 0%nat ->
  Forall (fun x => isnan x = true) a ->
  (exists v stats,
     outcome (band_statistics path (Some band)) = inr v
     /\ field "statistics" v = Some stats
     /\ field ("band_" +:+ pretty band) stats =
          Some (VDict [("min", VNone); ("max", VNone); ("mean", VNone); ("std", VNone);
                       ("count", VInt 0)]))
  /\ calculate_index_stats a name =
       [(name +:+ "_stats",
         VDict [("min", VNone); ("max", VNone); ("mean", VNone); ("std", VNone);
                ("valid_pixels", VInt 0);
                ("total_pixels", VInt (Z.of_nat (length a)))])].
Proof.
  intros Hp Ho Hb Hc Ha. split.
  - destruct (get_wgs84_bounds_returns src) as (t & b & Hbounds).
    unfold band_statistics, stats_loop, band_stats. io_unfold.
    rewrite Hp; simpl. rewrite Ho; simpl. rewrite Hb; simpl.
    destruct (decide (Ma.count (band_masked src band) = 0%nat)); [|done]. simpl.
    rewrite Hbounds; simpl.
    eexists _, _. split; [reflexivity|]. split; [reflexivity|].
    simpl. by rewrite String.eqb_refl.
  - unfold calculate_index_stats. by rewrite (np_all_isnan a Ha).
Qed.

Lemma all_missing_gives_null_summary_witness :
  (exists v stats,
     outcome (band_statistics "/data/empty.tif" (Some 1)) = inr v
     /\ field "statistics" v = Some stats
     /\ field ("band_" +:+ pretty 1) stats =
          Some (VDict [("min", VNone); ("max", VNone); ("mean", VNone); ("std", VNone);
                       ("count", VInt 0)]))
  /\ calculate_index_stats [F32.nan; F32.nan] "ndvi" =
       [("ndvi" +:+ "_stats",
         VDict [("min", VNone); ("max", VNone); ("mean", VNone); ("std", VNone);
                ("valid_pixels", VInt 0);
                ("total_pixels", VInt (Z.of_nat (length [F32.nan; F32.nan])))])].
Proof.
  refine (all_missing_gives_null_summary "/data/empty.tif" 1 Demo.empty_scene
            [F32.nan; F32.nan] "ndvi" _ _ _ _ _);
    first [reflexivity | repeat constructor].
Defined.

End EffectClaims.


Import Py.
Local Open Scope Z_scope.

(** ** np.unique: sorted runs *)

Section Runs.
Implicit Types (l : list Qc) (x y : Qc).

Lemma runs_head x t : exists c r, Ma.runs (x :: t) = (x, c) :: r.
Proof.
  simpl. destruct (Ma.runs t) as [|[y c] r]; [by eexists _, _|].
  destruct (decide (x = y)); by eexists _, _.
Qed.

Lemma runs_keys_elem l x : x ∈ (Ma.runs l).*1 <-> x ∈ l.
Proof.
  induction l as [|y t IH]; [done|]. simpl.
  destruct (Ma.runs t) as [|[z c] r] eqn:E.
  - apply runs_nil in E as ->. done.
  - destruct (decide (y = z)) as [->|Hne]; simpl in *;
      rewrite !elem_of_cons in *; tauto.
Qed.

Lemma runs_keys_NoDup l : StronglySorted Qcle l -> NoDup (Ma.runs l).*1.
Proof.
  induction 1 as [|x t Ht IH Hx]; [constructor|]. simpl.
  pose proof (runs_keys_elem t x) as Hel.
  destruct (Ma.runs t) as [|[y c] r] eqn:E; [repeat constructor; set_solver|].
  destruct (decide (x = y)) as [->|Hne]; [done|].
  simpl in *. constructor; [|done].
  rewrite Hel. intros Hin.
  destruct t as [|z t']; [by apply elem_of_nil in Hin|].
  destruct (runs_head z t') as (c' & r' & E'). rewrite E in E'. simplify_eq.
  apply Hne. apply (anti_symm Qcle).
  - apply (proj1 (list.Forall_forall _ _) Hx). left.
  - apply elem_of_cons in Hin as [->|Hin]; [done|].
    apply StronglySorted_inv in Ht as [_ Ht].
    by apply (proj1 (list.Forall_forall _ _) Ht).
Qed.

(** The number of values [np.unique] returns is the number of distinct
    values. *)
Lemma unique_counts_length (a : list Qc) :
  length (Ma.unique_counts a) = size (list_to_set a : gset Qc).
Proof.
  unfold Ma.unique_counts.
  pose proof (StronglySorted_merge_sort Qcle a) as Hs.
  pose proof (merge_sort_Permutation Qcle a) as Hp.
  rewrite <- (length_fmap fst), <- (size_list_to_set (C:=gset Qc)) by by apply runs_keys_NoDup.
  f_equal. apply set_eq. intros x.
  rewrite !elem_of_list_to_set, runs_keys_elem. by rewrite Hp.
Qed.
End Runs.

(** ** Filling a dictionary with fresh keys *)

Lemma dict_set_fresh k v d :
  k ∉ d.*1 -> length (dict_set k v d) = S (length d) /\ (dict_set k v d).*1 = d.*1 ++ [k].
Proof.
  induction d as [|[k' v'] d IH]; intros Hk; simpl; [done|].
  apply not_elem_of_cons in Hk as [Hne Hk].
  destruct (String.eqb_spec k k') as [->|_]; [done|].
  destruct (IH Hk) as [IH1 IH2]. split.
  - simpl. by rewrite IH1.
  - rewrite !fmap_cons, IH2. done.
Qed.

Lemma fill_value_counts_length `{PyStr} (uc : list (Qc * nat)) :
  Inj (=) (=) str_num -> NoDup uc.*1 ->
  length (RasterMetadata.fill_value_counts uc.*1 uc.*2) = length uc.
Proof.
  intros Hinj Hnd. unfold RasterMetadata.fill_value_counts. rewrite zip_fst_snd.
  enough (forall acc : dict,
    (forall x, x ∈ uc.*1 -> str_num x ∉ acc.*1) ->
    length (foldl (fun value_counts vc =>
                     dict_set (str_num vc.1) (VInt (Z.of_nat vc.2)) value_counts) acc uc)
    = (length acc + length uc)%nat) as Hgen.
  { rewrite Hgen; [done|]. intros x _. simpl. apply not_elem_of_nil. }
  induction uc as [|[x c] uc IH]; intros acc Hacc; simpl; [lia|].
  apply list.NoDup_cons in Hnd as [Hx Hnd].
  destruct (dict_set_fresh (str_num x) (VInt (Z.of_nat c)) acc) as [Hlen Hkeys].
  { apply Hacc. left. }
  rewrite IH; [lia|done|].
  intros y Hy. rewrite Hkeys, not_elem_of_app. split.
  - apply Hacc. by right.
  - rewrite list_elem_of_singleton. intros E. apply Hinj in E as ->. done.
Qed.

(** ** np.histogram: every value falls into exactly one bin *)

Section Histogram.
Local Open Scope Qc_scope.
Implicit Types (x y first last : Qc).

Lemma qmin_le_l x y : Ma.qmin x y ≤ x.
Proof. unfold Ma.qmin. destruct (decide (x ≤ y)); [done|]. by apply Qclt_le_weak, Qclt_nge. Qed.
Lemma qmin_le_r x y : Ma.qmin x y ≤ y.
Proof. unfold Ma.qmin. by destruct (decide (x ≤ y)). Qed.
Lemma qmax_ge_l x y : x ≤ Ma.qmax x y.
Proof. unfold Ma.qmax. by destruct (decide (x ≤ y)). Qed.
Lemma qmax_ge_r x y : y ≤ Ma.qmax x y.
Proof. unfold Ma.qmax. destruct (decide (x ≤ y)); [done|]. by apply Qclt_le_weak, Qclt_nge. Qed.

Lemma foldl_qmin_le x t : foldl Ma.qmin x t ≤ x /\ Forall (fun y => foldl Ma.qmin x t ≤ y) t.
Proof.
  revert x. induction t as [|z t IH]; intros x; simpl; [done|].
  destruct (IH (Ma.qmin x z)) as [H1 H2]. split; [|constructor; [|done]].
  - etrans; [done|]. apply qmin_le_l.
  - etrans; [done|]. apply qmin_le_r.
Qed.

Lemma foldl_qmax_ge x t : x ≤ foldl Ma.qmax x t /\ Forall (fun y => y ≤ foldl Ma.qmax x t) t.
Proof.
  revert x. induction t as [|z t IH]; intros x; simpl; [done|].
  destruct (IH (Ma.qmax x z)) as [H1 H2]. split; [|constructor; [|done]].
  - etrans; [|done]. apply qmax_ge_l.
  - etrans; [|done]. apply qmax_ge_r.
Qed.

(** The outer edges enclose every value, and the first is below the last. *)
Lemma outer_edges_enclose a first last :
  a <> [] -> Ma.outer_edges a = (first, last) ->
  first < last /\ Forall (fun x => first ≤ x ≤ last) a.
Proof.
  intros Ha. destruct a as [|x t]; [done|]. unfold Ma.outer_edges.
  destruct (foldl_qmin_le x t) as [Hm1 Hm2], (foldl_qmax_ge x t) as [HM1 HM2].
  set (lo := foldl Ma.qmin x t) in *. set (hi := foldl Ma.qmax x t) in *.
  assert (Hall : Forall (fun y => lo ≤ y ≤ hi) (x :: t)).
  { constructor; [done|]. apply list.Forall_forall. intros y Hy. split.
    - by apply (proj1 (list.Forall_forall _ _) Hm2).
    - by apply (proj1 (list.Forall_forall _ _) HM2). }
  assert (Hhalf : 0 < Ma.half) by done.
  destruct (decide (lo = hi)) as [E|Hne]; intros [= <- <-].
  - split.
    + rewrite E. apply Qclt_minus_iff.
      replace (hi + Ma.half + - (hi - Ma.half)) with (Ma.half + Ma.half) by ring. done.
    + apply list.Forall_forall. intros y Hy.
      destruct (proj1 (list.Forall_forall _ _) Hall y Hy) as [H1 H2]. split.
      * etrans; [|exact H1]. apply Qcle_minus_iff.
        replace (lo + - (lo - Ma.half)) with Ma.half by ring. done.
      * etrans; [exact H2|]. apply Qcle_minus_iff.
        replace (hi + Ma.half + - hi) with Ma.half by ring. done.
  - split; [|done].
    assert (lo ≤ hi) as Hle by (etrans; done).
    destruct (Qcle_lt_or_eq _ _ Hle) as [?|?]; [done|by destruct Hne].
Qed.

Lemma of_Z_succ (i : Z) : Ma.of_Z (i + 1) = Ma.of_Z i + 1.
Proof.
  apply Qc_is_canon. unfold Ma.of_Z. simpl. rewrite !inject_Z_Qred, Qred_correct.
  rewrite inject_Z_plus. reflexivity.
Qed.

Lemma of_Z_pos (n : Z) : (0 < n)%Z -> 0 < Ma.of_Z n.
Proof.
  intros Hn. unfold Qclt, Ma.of_Z. simpl. rewrite inject_Z_Qred.
  unfold Qlt. simpl. lia.
Qed.

Section Edges.
Variables (first last : Qc) (n : Z).
Hypothesis Hn : (0 < n)%Z.
Hypothesis Hfl : first < last.

Let step : Qc := (last - first) / Ma.of_Z n.

Lemma of_Z_n_neq : Ma.of_Z n <> 0.
Proof using Hn. intros E. pose proof (of_Z_pos n Hn) as Hpos. rewrite E in Hpos. done. Qed.

Lemma step_pos : 0 < step.
Proof using Hn Hfl.
  unfold step, Qcdiv. apply Qcmult_pos_pos.
  - apply Qclt_minus_iff in Hfl. done.
  - apply Qcinv_pos, of_Z_pos, Hn.
Qed.

Lemma edge_0 : Ma.edge first last n 0 = first.
Proof. unfold Ma.edge. replace (Ma.of_Z 0) with (Q2Qc 0) by done. ring. Qed.

Lemma edge_n : Ma.edge first last n n = last.
Proof using Hn. unfold Ma.edge. pose proof of_Z_n_neq. field. done. Qed.

Lemma edge_succ (i : Z) : Ma.edge first last n (i + 1) = Ma.edge first last n i + step.
Proof. unfold Ma.edge, step. rewrite of_Z_succ. ring. Qed.

Lemma edge_mono (i : Z) : Ma.edge first last n i ≤ Ma.edge first last n (i + 1).
Proof using Hn Hfl.
  rewrite edge_succ. apply Qcle_minus_iff.
  replace (Ma.edge first last n i + step + - Ma.edge first last n i) with step by ring.
  apply Qclt_le_weak, step_pos.
Qed.

Local Abbreviation bins_with := (hits first last n).

Lemma hits_below (k : nat) (x : Qc) :
  (Z.of_nat k <= n - 1)%Z -> first ≤ x ->
  bins_with (Z.of_nat k) x = if decide (x < Ma.edge first last n (Z.of_nat k)) then 1%nat else 0%nat.
Proof using Hn Hfl.
  intros Hk Hx. induction k as [|k IH].
  - change (Z.of_nat 0) with 0%Z. rewrite edge_0.
    destruct (decide (x < first)) as [Hlt|]; [|done]. by apply Qclt_nge in Hlt.
  - unfold hits in *. rewrite seqZ_S, fmap_app, sum_list_with_app, IH by lia.
    rewrite Z.add_0_l. simpl.
    unfold Ma.in_bin. destruct (decide (Z.of_nat k = (n - 1)%Z)); [lia|].
    replace (Z.of_nat (S k)) with (Z.of_nat k + 1)%Z by lia.
    pose proof (edge_mono (Z.of_nat k)) as Hmono.
    destruct (decide (x < Ma.edge first last n (Z.of_nat k))) as [Hlt|Hge].
    + rewrite bool_decide_eq_false_2 by by apply Qclt_nge. simpl.
      rewrite decide_True; [done|]. eapply Qclt_le_trans; done.
    + rewrite bool_decide_eq_true_2 by by apply Qcle_ngt. simpl.
      destruct (decide (x < Ma.edge first last n (Z.of_nat k + 1))).
      * by rewrite bool_decide_eq_true_2.
      * by rewrite bool_decide_eq_false_2.
Qed.

(** A value between the outer edges lies in exactly one bin. *)
Lemma hits_once (x : Qc) : first ≤ x -> x ≤ last -> bins_with n x = 1%nat.
Proof using Hn Hfl.
  intros Hx1 Hx2. unfold hits.
  replace (seqZ 0 n) with (seqZ 0 (Z.of_nat (S (Z.to_nat (n - 1))))) by (f_equal; lia).
  rewrite seqZ_S, fmap_app, sum_list_with_app.
  fold (hits first last n (Z.of_nat (Z.to_nat (n - 1))) x).
  rewrite hits_below by (done || lia). rewrite Z.add_0_l. simpl.
  replace (Z.of_nat (Z.to_nat (n - 1))) with (n - 1)%Z by lia.
  unfold Ma.in_bin. destruct (decide ((n - 1)%Z = (n - 1)%Z)); [|done]. rewrite edge_n.
  rewrite (bool_decide_eq_true_2 (x ≤ last)) by done.
  destruct (decide (x < Ma.edge first last n (n - 1))) as [Hlt|Hge].
  - rewrite bool_decide_eq_false_2 by by apply Qclt_nge. done.
  - rewrite bool_decide_eq_true_2 by by apply Qcle_ngt. done.
Qed.

Lemma histogram_sum (a : list Qc) :
  Forall (fun x => first ≤ x ≤ last) a ->
  sum_list ((fun i => length (filter (fun x => Ma.in_bin first last n i x = true) a)) <$> seqZ 0 n)
  = length a.
Proof using Hn Hfl.
  induction 1 as [|x a [Hx1 Hx2] _ IH]; simpl.
  - induction (seqZ 0 n) as [|i l IHl]; [done|]. rewrite fmap_cons. exact IHl.
  - transitivity (bins_with n x + length a)%nat; [|by rewrite hits_once].
    rewrite <- IH. unfold hits. clear IH.
    induction (seqZ 0 n) as [|i l IHl]; [done|].
    rewrite !fmap_cons. cbn [sum_list_with id]. rewrite IHl. clear IHl.
    rewrite filter_cons. destruct (decide (Ma.in_bin first last n i x = true)) as [E|E].
    + rewrite E. simpl. lia.
    + apply not_true_is_false in E. rewrite E. simpl. lia.
Qed.

End Edges.
End Histogram.

Module MetadataClaims.
Import RasterMetadata Demo.


Lemma str_num_demo_inj : Inj (=) (=) (@str_num Demo.strings).
Proof. intros x y E. simpl in E. apply (inj pretty) in E. by simplify_eq. Qed.




End MetadataClaims.


Import Py.
Local Open Scope Z_scope.

(** ** Rounding in [SpecFloat]

    The operations of [SpecFloat] round a mantissa and an exponent with
    [binary_round_aux]: a right shift to the exponent of the format that
    records the lost bits, a rounding to nearest even, and a second shift for
    a mantissa that rounding has made one bit too long.  The lemmas below
    describe this with integer division. *)

(** *** Number of binary digits *)

Lemma digits2_pos_size p : digits2_pos p = Pos.size p.
Proof. induction p; simpl; congruence. Qed.

Lemma Zdigits2_log2 m : 0 < m -> Zdigits2 m = Z.log2 m + 1.
Proof.
  destruct m as [|p|p]; try lia. intros _. simpl. rewrite digits2_pos_size.
  destruct p; simpl; lia.
Qed.

Lemma Zdigits2_nonneg m : 0 <= Zdigits2 m.
Proof. destruct m; simpl; lia. Qed.

Lemma Zdigits2_pos m : 0 < m -> 0 < Zdigits2 m.
Proof. destruct m; simpl; lia. Qed.

Lemma Zdigits2_bounds m : 0 < m -> 2 ^ (Zdigits2 m - 1) <= m < 2 ^ Zdigits2 m.
Proof.
  intros Hm. rewrite Zdigits2_log2 by done.
  replace (Z.log2 m + 1 - 1) with (Z.log2 m) by lia.
  apply Z.log2_spec, Hm.
Qed.

Lemma Zdigits2_le_pow m k : 0 <= m -> 0 <= k -> m < 2 ^ k -> Zdigits2 m <= k.
Proof.
  intros Hm Hk Hlt. destruct (Z.eq_dec m 0) as [->|]; [done|].
  rewrite Zdigits2_log2 by lia. apply Z.log2_lt_pow2 in Hlt; lia.
Qed.

Lemma Zdigits2_ge_pow m k : 0 <= k -> 2 ^ k <= m -> k + 1 <= Zdigits2 m.
Proof.
  intros Hk Hle. assert (0 < m) by (pose proof (Z.pow_pos_nonneg 2 k); lia).
  rewrite Zdigits2_log2 by lia. apply Z.log2_le_pow2 in Hle; lia.
Qed.

Lemma Zdigits2_mono m m' : 0 <= m <= m' -> Zdigits2 m <= Zdigits2 m'.
Proof.
  intros [Hm Hle]. destruct (Z.eq_dec m 0) as [->|]; [apply Zdigits2_nonneg|].
  rewrite !Zdigits2_log2 by lia. pose proof (Z.log2_le_mono m m' Hle). lia.
Qed.

(** Digits of a quotient by a power of two. *)
Lemma Zdigits2_div_pow m n :
  0 <= m -> 0 <= n -> Zdigits2 (m / 2 ^ n) = Z.max 0 (Zdigits2 m - n).
Proof.
  intros Hm Hn. destruct (Z.eq_dec m 0) as [->|Hm0].
  { rewrite Z.div_0_l by (apply Z.pow_nonzero; lia). simpl. lia. }
  pose proof (Zdigits2_bounds m ltac:(lia)) as [Hlo Hhi].
  pose proof (Zdigits2_pos m ltac:(lia)) as Hd.
  assert (0 < 2 ^ n) as Hpn by (apply Z.pow_pos_nonneg; lia).
  destruct (Z_le_gt_dec (Zdigits2 m) n) as [Hsmall|Hbig].
  - rewrite Z.div_small; [simpl; lia|]. split; [lia|].
    eapply Z.lt_le_trans; [exact Hhi|]. apply Z.pow_le_mono_r; lia.
  - rewrite Z.max_r by lia. apply Z.le_antisymm.
    + apply Zdigits2_le_pow; [apply Z.div_pos; lia|lia|].
      apply Z.div_lt_upper_bound; [lia|]. rewrite <- Z.pow_add_r by lia.
      by replace (n + (Zdigits2 m - n)) with (Zdigits2 m) by lia.
    + replace (Zdigits2 m - n) with (Zdigits2 m - n - 1 + 1) by lia.
      apply Zdigits2_ge_pow; [lia|]. apply Z.div_le_lower_bound; [lia|].
      rewrite <- Z.pow_add_r by lia.
      by replace (n + (Zdigits2 m - n - 1)) with (Zdigits2 m - 1) by lia.
Qed.

Lemma Zdigits2_mul_pow m n :
  0 < m -> 0 <= n -> Zdigits2 (m * 2 ^ n) = Zdigits2 m + n.
Proof.
  intros Hm Hn. pose proof (Zdigits2_bounds m Hm) as [Hlo Hhi].
  pose proof (Zdigits2_pos m Hm) as Hd.
  assert (0 < 2 ^ n) as Hpn by (apply Z.pow_pos_nonneg; lia).
  apply Z.le_antisymm.
  - apply Zdigits2_le_pow; [lia|lia|]. rewrite Z.pow_add_r by lia. nia.
  - replace (Zdigits2 m + n) with (Zdigits2 m - 1 + n + 1) by lia.
    apply Zdigits2_ge_pow; [lia|]. rewrite Z.pow_add_r by lia. nia.
Qed.

(** *** Right shifts that remember the lost bits *)

Lemma iter_pos_nat {A} (f : A -> A) p x :
  SpecFloat.iter_pos f p x = @Nat.iter (Pos.to_nat p) A f x.
Proof.
  revert x. induction p as [p IH|p IH|]; intros x; cbn [SpecFloat.iter_pos]; [| |done].
  - rewrite !IH, Pos2Nat.inj_xI.
    replace (S (2 * Pos.to_nat p))%nat with (Pos.to_nat p + (Pos.to_nat p + 1))%nat by lia.
    by rewrite !Nat.iter_add.
  - rewrite !IH, Pos2Nat.inj_xO.
    replace (2 * Pos.to_nat p)%nat with (Pos.to_nat p + Pos.to_nat p)%nat by lia.
    by rewrite Nat.iter_add.
Qed.

Lemma shr_1_m mrs : 0 <= shr_m mrs -> shr_m (shr_1 mrs) = shr_m mrs / 2.
Proof.
  destruct mrs as [m r s]. cbn [shr_m]. intros Hm.
  destruct m as [|[p|p|]|]; cbn [shr_1 shr_m]; try lia; try done.
  - apply (Z.div_unique _ 2 _ 1); lia.
  - apply (Z.div_unique _ 2 _ 0); lia.
Qed.

Lemma shr_1_inexact mrs :
  0 <= shr_m mrs -> inexact (shr_1 mrs) = inexact mrs || Z.odd (shr_m mrs).
Proof.
  destruct mrs as [m r s]. unfold inexact. cbn [shr_m]. intros Hm.
  destruct m as [|[p|p|]|]; cbn [shr_1 shr_m shr_r shr_s Z.odd]; try lia; destruct r, s; done.
Qed.

Lemma shr_iter_spec (n : nat) mrs :
  0 <= shr_m mrs ->
  shr_m (@Nat.iter n _ shr_1 mrs) = shr_m mrs / 2 ^ Z.of_nat n
  /\ inexact (@Nat.iter n _ shr_1 mrs) =
       inexact mrs || negb (shr_m mrs mod 2 ^ Z.of_nat n =? 0).
Proof.
  intros Hm. induction n as [|n [IHm IHi]].
  - simpl. rewrite Z.div_1_r, Z.mod_1_r. simpl. by rewrite orb_false_r.
  - assert (0 < 2 ^ Z.of_nat n) as Hp by (apply Z.pow_pos_nonneg; lia).
    assert (0 <= shr_m (@Nat.iter n _ shr_1 mrs)) as Hnn
      by (rewrite IHm; apply Z.div_pos; lia).
    replace (Z.of_nat (S n)) with (Z.of_nat n + 1) by lia.
    rewrite Z.pow_add_r, Z.pow_1_r by lia. simpl Nat.iter. split.
    + rewrite shr_1_m, IHm by done. rewrite Z.div_div by lia. done.
    + rewrite shr_1_inexact, IHi, IHm by done. rewrite <- orb_assoc. f_equal.
      rewrite Z.rem_mul_r by lia.
      pose proof (Z.mod_pos_bound (shr_m mrs) (2 ^ Z.of_nat n) Hp).
      pose proof (Z.mod_pos_bound (shr_m mrs / 2 ^ Z.of_nat n) 2 ltac:(lia)).
      rewrite Zodd_mod.
      destruct (Z.eqb_spec (shr_m mrs mod 2 ^ Z.of_nat n) 0),
               (Z.eqb_spec ((shr_m mrs / 2 ^ Z.of_nat n) mod 2) 1),
               (Z.eqb_spec (shr_m mrs mod 2 ^ Z.of_nat n
                            + 2 ^ Z.of_nat n * ((shr_m mrs / 2 ^ Z.of_nat n) mod 2)) 0);
        simpl; try done; nia.
Qed.

Lemma shr_record_of_loc_m m l : shr_m (shr_record_of_loc m l) = m.
Proof. by destruct l as [|[]]. Qed.

Lemma shr_record_of_loc_inexact m l :
  inexact (shr_record_of_loc m l) = match l with loc_Exact => false | _ => true end.
Proof. by destruct l as [|[]]. Qed.

(** [shr]: a floor division of the mantissa. *)
Lemma shr_spec m l e n :
  0 <= m ->
  let '(mrs, e') := shr (shr_record_of_loc m l) e n in
  e' = e + Z.max 0 n
  /\ shr_m mrs = m / 2 ^ Z.max 0 n
  /\ inexact mrs =
       match l with loc_Exact => false | _ => true end
       || negb (m mod 2 ^ Z.max 0 n =? 0).
Proof.
  intros Hm. unfold shr. destruct n as [|p|p].
  - rewrite shr_record_of_loc_m, shr_record_of_loc_inexact. simpl.
    rewrite Z.div_1_r, Z.mod_1_r, Z.add_0_r. simpl. by rewrite orb_false_r.
  - rewrite iter_pos_nat. rewrite Z.max_r by lia.
    pose proof (shr_iter_spec (Pos.to_nat p) (shr_record_of_loc m l)) as Hs.
    rewrite shr_record_of_loc_m, shr_record_of_loc_inexact, positive_nat_Z in Hs.
    destruct (Hs Hm) as [H1 H2]. done.
  - rewrite shr_record_of_loc_m, shr_record_of_loc_inexact. simpl.
    rewrite Z.div_1_r, Z.mod_1_r, Z.add_0_r. simpl. by rewrite orb_false_r.
Qed.

(** Rounding to nearest even moves the mantissa by at most one, and not at
    all when no bit was lost. *)
Lemma round_nearest_even_spec mrs :
  shr_m mrs <= round_nearest_even (shr_m mrs) (loc_of_shr_record mrs) <= shr_m mrs + 1
  /\ (inexact mrs = false ->
      round_nearest_even (shr_m mrs) (loc_of_shr_record mrs) = shr_m mrs).
Proof.
  destruct mrs as [m [] []]; unfold inexact;
    cbn [shr_m shr_r shr_s loc_of_shr_record round_nearest_even orb];
    try destruct (Z.even m); split; first [lia | done].
Qed.

(** *** The two shifts of [binary_round_aux] *)

Section Format.
Variables prec emax : Z.
Hypothesis Hprec : 0 < prec.
Hypothesis Hemax : 3 <= emax.

Local Abbreviation emin := (SpecFloat.emin prec emax).
Local Abbreviation fexp := (SpecFloat.fexp prec emax).
Local Abbreviation rexp := (round_exp prec emax).
Local Abbreviation final := (finalize prec emax).

Lemma fexp_ge_emin e : emin <= fexp e.
Proof. unfold SpecFloat.fexp. lia. Qed.

Lemma fexp_mono e e' : e <= e' -> fexp e <= fexp e'.
Proof. unfold SpecFloat.fexp. lia. Qed.

Lemma round_exp_ge m e : e <= rexp m e.
Proof. unfold round_exp. lia. Qed.

Lemma shr_fexp_spec m e l :
  0 <= m ->
  let '(mrs, e') := shr_fexp prec emax m e l in
  e' = rexp m e
  /\ shr_m mrs = m / 2 ^ (rexp m e - e)
  /\ inexact mrs =
       match l with loc_Exact => false | _ => true end
       || negb (m mod 2 ^ (rexp m e - e) =? 0).
Proof.
  intros Hm. unfold shr_fexp.
  pose proof (shr_spec m l e (fexp (Zdigits2 m + e) - e) Hm) as Hs.
  destruct (shr _ _ _) as [mrs e'].
  replace (rexp m e - e) with (Z.max 0 (fexp (Zdigits2 m + e) - e))
    by (unfold round_exp; lia).
  destruct Hs as (-> & ? & ?). split; [unfold round_exp; lia|done].
Qed.

Lemma binary_round_aux_spec sx mx ex lx :
  0 <= mx ->
  exists m1r,
    let E1 := rexp mx ex in
    let m1 := mx / 2 ^ (E1 - ex) in
    m1 <= m1r <= m1 + 1
    /\ (lx = loc_Exact -> mx mod 2 ^ (E1 - ex) = 0 -> m1r = m1)
    /\ binary_round_aux prec emax sx mx ex lx =
         final sx (m1r / 2 ^ (rexp m1r E1 - E1)) (rexp m1r E1).
Proof.
  intros Hmx. unfold binary_round_aux.
  pose proof (shr_fexp_spec mx ex lx Hmx) as H1.
  destruct (shr_fexp prec emax mx ex lx) as [mrs' e'].
  destruct H1 as (-> & Hm1 & Hi1).
  pose proof (round_nearest_even_spec mrs') as [Hr1 Hr2].
  set (m1r := round_nearest_even (shr_m mrs') (loc_of_shr_record mrs')) in *.
  assert (0 <= shr_m mrs') as Hm1nn.
  { rewrite Hm1. apply Z.div_pos; [lia|]. apply Z.pow_pos_nonneg; [lia|].
    pose proof (round_exp_ge mx ex). lia. }
  pose proof (shr_fexp_spec m1r (rexp mx ex) loc_Exact ltac:(lia)) as H2.
  destruct (shr_fexp prec emax m1r (rexp mx ex) loc_Exact) as [mrs'' e''].
  destruct H2 as (-> & Hm2 & _).
  exists m1r. cbn zeta. rewrite <- Hm1. split; [done|]. split.
  - intros -> Hmod. apply Hr2. rewrite Hi1, Hmod. done.
  - rewrite Hm2. unfold finalize. done.
Qed.

(** The result is never NaN, and has the sign that was asked for. *)
Lemma finalize_cases sx m e :
  0 <= m ->
  final sx m e = S754_zero sx
  \/ final sx m e = S754_infinity sx
  \/ exists p, final sx m e = S754_finite sx p e.
Proof.
  intros Hm. unfold finalize. destruct m as [|p|p]; [by left| |lia].
  destruct (e <=? emax - prec); [right; right; by eexists|right; by left].
Qed.

Lemma binary_round_aux_cases sx mx ex lx :
  0 <= mx ->
  binary_round_aux prec emax sx mx ex lx = S754_zero sx
  \/ binary_round_aux prec emax sx mx ex lx = S754_infinity sx
  \/ exists p e, binary_round_aux prec emax sx mx ex lx = S754_finite sx p e.
Proof using Hprec.
  intros Hmx. destruct (binary_round_aux_spec sx mx ex lx Hmx) as (m1r & Hr & _ & ->).
  cbn zeta in Hr.
  assert (0 <= mx / 2 ^ (rexp mx ex - ex)).
  { apply Z.div_pos; [lia|]. apply Z.pow_pos_nonneg; [lia|].
    pose proof (round_exp_ge mx ex). lia. }
  edestruct (finalize_cases sx (m1r / 2 ^ (rexp m1r (rexp mx ex) - rexp mx ex)))
    as [->|[->|[p ->]]]; [|by left|right; by left|right; right; by eexists _, _].
  apply Z.div_pos; [lia|]. apply Z.pow_pos_nonneg; [lia|].
  pose proof (round_exp_ge m1r (rexp mx ex)). lia.
Qed.

End Format.


Import Py.
Local Open Scope Z_scope.

(** *** Operations on values that are not NaN *)

Lemma Zdigits2_zero_iff m : 0 <= m -> (Zdigits2 m = 0 <-> m = 0).
Proof. destruct m; simpl; intros; split; intros; lia || done. Qed.

Lemma pos_iter_xO m d : Zpos (Pos.iter xO m d) = Zpos m * 2 ^ Zpos d.
Proof.
  induction d as [|d IH] using Pos.peano_ind.
  - simpl. lia.
  - rewrite Pos.iter_succ, Pos2Z.inj_xO, IH, Pos2Z.inj_succ, Z.pow_succ_r by lia. lia.
Qed.

Lemma shl_align_spec mx ex ex' :
  let '(m', e') := shl_align mx ex ex' in
  e' = Z.min ex ex' /\ Zpos m' = Zpos mx * 2 ^ (ex - e').
Proof.
  unfold shl_align. destruct (ex' - ex) as [|d|d] eqn:E.
  - split; [lia|]. rewrite Z.sub_diag. simpl. lia.
  - split; [lia|]. rewrite Z.sub_diag. simpl. lia.
  - split; [lia|]. rewrite pos_iter_xO. f_equal. f_equal. lia.
Qed.

Lemma sign_plus_not_nan x : sign_plus x = true -> isnan x = false.
Proof. by destruct x as [[]|[]| |[]]. Qed.

Lemma is_finite_not_nan x : is_finite x = true -> isnan x = false.
Proof. by destruct x. Qed.

Section Ops.
Variables prec emax : Z.
Hypothesis Hprec : 0 < prec.
Hypothesis Hemax : 3 <= emax.

Local Abbreviation emin := (SpecFloat.emin prec emax).
Local Abbreviation fexp := (SpecFloat.fexp prec emax).
Local Abbreviation rexp := (round_exp prec emax).

Lemma binary_round_aux_not_nan sx mx ex lx :
  0 <= mx -> isnan (binary_round_aux prec emax sx mx ex lx) = false.
Proof using Hprec.
  intros Hmx.
  destruct (binary_round_aux_cases prec emax Hprec sx mx ex lx Hmx) as [->|[->|(p & e & ->)]];
    done.
Qed.

Lemma binary_round_aux_sign_plus mx ex lx :
  0 <= mx -> sign_plus (binary_round_aux prec emax false mx ex lx) = true.
Proof using Hprec.
  intros Hmx.
  destruct (binary_round_aux_cases prec emax Hprec false mx ex lx Hmx) as [->|[->|(p & e & ->)]];
    done.
Qed.

Lemma binary_round_cases sx mx ex :
  binary_round prec emax sx mx ex = S754_zero sx
  \/ binary_round prec emax sx mx ex = S754_infinity sx
  \/ exists p e, binary_round prec emax sx mx ex = S754_finite sx p e.
Proof using Hprec.
  unfold binary_round. destruct (shl_align mx ex _) as [mz ez].
  apply binary_round_aux_cases; [done|lia].
Qed.

Lemma binary_round_not_nan sx mx ex : isnan (binary_round prec emax sx mx ex) = false.
Proof using Hprec. destruct (binary_round_cases sx mx ex) as [->|[->|(p & e & ->)]]; done. Qed.

Lemma binary_round_sign_plus mx ex : sign_plus (binary_round prec emax false mx ex) = true.
Proof using Hprec. destruct (binary_round_cases false mx ex) as [->|[->|(p & e & ->)]]; done. Qed.

Lemma binary_normalize_not_nan m e sz : isnan (binary_normalize prec emax m e sz) = false.
Proof using Hprec. destruct m; simpl; [done| |]; apply binary_round_not_nan. Qed.

Lemma binary_normalize_sign_plus m e : 0 <= m -> sign_plus (binary_normalize prec emax m e false) = true.
Proof using Hprec.
  destruct m as [|p|p]; simpl; [done| |lia]. intros _.
  destruct (binary_round_cases false p e) as [->|[->|(q & e' & ->)]]; done.
Qed.

(** Additions and subtractions. *)
Lemma SFadd_not_nan x y :
  isnan x = false -> is_finite y = true -> isnan (SFadd prec emax x y) = false.
Proof using Hprec.
  destruct x as [sx|sx| |sx mx ex], y as [sy|sy| |sy my ey]; try done; simpl; intros _ _.
  - by destruct sx, sy.
  - apply binary_normalize_not_nan.
Qed.

Lemma SFsub_not_nan x y :
  is_finite x = true -> isnan y = false -> isnan (SFsub prec emax x y) = false.
Proof using Hprec.
  destruct x as [sx|sx| |sx mx ex], y as [sy|sy| |sy my ey]; try done; simpl; intros _ _.
  - by destruct sx, sy.
  - apply binary_normalize_not_nan.
Qed.

Lemma SFadd_sign_plus x y :
  sign_plus x = true -> sign_plus y = true -> sign_plus (SFadd prec emax x y) = true.
Proof using Hprec.
  destruct x as [[]|[]| |[] mx ex], y as [[]|[]| |[] my ey]; try done; simpl; intros _ _.
  apply binary_round_sign_plus.
Qed.

(** Products of a value with itself. *)
Lemma SFmul_self_sign_plus d :
  sign_plus d = true -> sign_plus (SFmul prec emax d d) = true.
Proof using Hprec.
  destruct d as [[]|[]| |[] m e]; try done; simpl; intros _.
  apply binary_round_aux_sign_plus. lia.
Qed.

Lemma SFabs_sign_plus x : isnan x = false -> sign_plus (SFabs x) = true.
Proof. by destruct x. Qed.

(** Quotients by a finite non-zero value. *)
Lemma SFdiv_core_binary_nonneg m1 e1 m2 e2 :
  0 <= m1 -> 0 < m2 ->
  0 <= fst (fst (SFdiv_core_binary prec emax m1 e1 m2 e2)).
Proof.
  intros H1 H2. unfold SFdiv_core_binary.
  set (s := _ - _ - _). set (m' := match s with Z0 => m1 | Zpos _ => Z.shiftl m1 s | Zneg _ => 0 end).
  assert (0 <= m') as Hm'.
  { unfold m'. destruct s; [done| |done]. by apply Z.shiftl_nonneg. }
  pose proof (Z_div_mod m' m2 ltac:(lia)) as Hdm.
  destruct (Z.div_eucl m' m2) as [q r]. simpl. destruct Hdm as [Hq Hr]. clear Hprec Hemax. nia.
Qed.

Lemma SFdiv_not_nan x sy my ey :
  isnan x = false -> isnan (SFdiv prec emax x (S754_finite sy my ey)) = false.
Proof using Hprec.
  destruct x as [sx|sx| |sx mx ex]; try done; simpl; intros _.
  pose proof (SFdiv_core_binary_nonneg (Zpos mx) ex (Zpos my) ey ltac:(lia) ltac:(lia)) as Hq.
  destruct (SFdiv_core_binary _ _ _ _ _ _) as [[mz ez] lz]. simpl in Hq.
  by apply binary_round_aux_not_nan.
Qed.

Lemma SFdiv_sign_plus x my ey :
  sign_plus x = true -> sign_plus (SFdiv prec emax x (S754_finite false my ey)) = true.
Proof using Hprec.
  destruct x as [[]|[]| |[] mx ex]; try done; simpl; intros _.
  pose proof (SFdiv_core_binary_nonneg (Zpos mx) ex (Zpos my) ey ltac:(lia) ltac:(lia)) as Hq.
  destruct (SFdiv_core_binary _ _ _ _ _ _) as [[mz ez] lz]. simpl in Hq.
  by apply binary_round_aux_sign_plus.
Qed.

(** Square roots. *)
Lemma SFsqrt_not_nan x : sign_plus x = true -> isnan (SFsqrt prec emax x) = false.
Proof using Hprec.
  destruct x as [[]|[]| |[] m e]; try done; simpl; intros _.
  unfold SFsqrt_core_binary.
  set (s := _ - _). set (m' := match s with Z0 => Zpos m | Zpos _ => Z.shiftl (Zpos m) s | Zneg _ => 0 end).
  assert (0 <= m') as Hm'.
  { unfold m'. destruct s; [done| |done]. by apply Z.shiftl_nonneg. }
  pose proof (Z.sqrtrem_spec m' Hm') as Hs.
  destruct (Z.sqrtrem m') as [q r]. destruct Hs as [Hs1 Hs2].
  apply binary_round_aux_not_nan. clear Hemax. nia.
Qed.

(** *** Results that stay finite *)

Lemma Zdigits2_succ_le m : 0 < m -> forall m', m <= m' <= m + 1 ->
  Zdigits2 m <= Zdigits2 m' <= Zdigits2 m + 1.
Proof.
  intros Hm m' Hm'. split; [apply Zdigits2_mono; lia|].
  pose proof (Zdigits2_bounds m Hm) as [_ Hhi]. pose proof (Zdigits2_pos m Hm).
  apply Zdigits2_le_pow; [lia|lia|]. rewrite Z.pow_add_r, Z.pow_1_r by lia. lia.
Qed.

Lemma finalize_finite sx m e :
  0 < m -> e <= emax - prec -> finalize prec emax sx m e = S754_finite sx (Z.to_pos m) e.
Proof.
  intros Hm He. unfold finalize. destruct m as [|p|p]; try lia.
  by rewrite (proj2 (Z.leb_le _ _) He).
Qed.

(** A mantissa whose magnitude lies above the subnormal floor and below the
    overflow threshold rounds to a finite value. *)
Lemma binary_round_aux_finite sx mx ex lx :
  0 < mx ->
  emin < Zdigits2 mx + ex -> Zdigits2 mx + ex <= emax - 1 -> ex <= emax - prec ->
  exists p e, binary_round_aux prec emax sx mx ex lx = S754_finite sx p e.
Proof using Hprec Hemax.
  intros Hmx Hlo Hhi Hex.
  destruct (binary_round_aux_spec prec emax sx mx ex lx ltac:(lia)) as (m1r & Hr & _ & ->).
  cbn zeta in Hr.
  set (d := Zdigits2 mx + ex) in *.
  set (E1 := rexp mx ex) in *. set (m1 := mx / 2 ^ (E1 - ex)) in *.
  set (E2 := rexp m1r E1) in *.
  assert (Hdd : d = Zdigits2 mx + ex) by done.
  assert (HE1 : E1 = Z.max ex (Z.max (d - prec) emin)) by done.
  assert (Hemin : emin = 3 - emax - prec) by done.
  assert (Hm1def : m1 = mx / 2 ^ (E1 - ex)) by done.
  assert (HE2 : E2 = Z.max E1 (Z.max (Zdigits2 m1r + E1 - prec) emin)) by done.
  clearbody d E1 m1 E2.
  pose proof (Zdigits2_pos mx Hmx) as Hdmx.
  assert (Hd1 : Zdigits2 m1 = Zdigits2 mx - (E1 - ex)).
  { rewrite Hm1def, Zdigits2_div_pow by lia. lia. }
  assert (Hm1 : 0 < m1).
  { assert (0 <= m1) by (rewrite Hm1def; apply Z.div_pos; [lia|apply Z.pow_pos_nonneg; lia]).
    destruct (Z.eq_dec m1 0) as [E|]; [|lia].
    apply (Zdigits2_zero_iff m1 ltac:(lia)) in E. lia. }
  pose proof (Zdigits2_succ_le m1 Hm1 m1r Hr) as Hdr.
  assert (Hd2 : Zdigits2 (m1r / 2 ^ (E2 - E1)) = Zdigits2 m1r - (E2 - E1)).
  { rewrite Zdigits2_div_pow by lia.
    lia. }
  assert (Hm2 : 0 < m1r / 2 ^ (E2 - E1)).
  { assert (0 <= m1r / 2 ^ (E2 - E1)) by (apply Z.div_pos; [lia|apply Z.pow_pos_nonneg; lia]).
    destruct (Z.eq_dec (m1r / 2 ^ (E2 - E1)) 0) as [E|]; [|lia].
    apply (Zdigits2_zero_iff (m1r / 2 ^ (E2 - E1)) ltac:(lia)) in E. lia. }
  rewrite finalize_finite by lia. by eexists _, _.
Qed.

Lemma binary_round_finite sx mx ex :
  emin < Zpos (digits2_pos mx) + ex -> Zpos (digits2_pos mx) + ex <= emax - 1 ->
  exists p e, binary_round prec emax sx mx ex = S754_finite sx p e.
Proof using Hprec Hemax.
  intros Hlo Hhi. unfold binary_round.
  pose proof (shl_align_spec mx ex (fexp (Zpos (digits2_pos mx) + ex))) as Hs.
  destruct (shl_align mx ex _) as [mz ez]. destruct Hs as [Hez Hmz].
  assert (Hf : fexp (Zpos (digits2_pos mx) + ex) = Z.max (Zpos (digits2_pos mx) + ex - prec) emin)
    by done.
  assert (Hemin : emin = 3 - emax - prec) by done.
  assert (Hd : Zdigits2 (Zpos mz) + ez = Zpos (digits2_pos mx) + ex).
  { rewrite Hmz, Zdigits2_mul_pow by lia. simpl. lia. }
  apply binary_round_aux_finite; lia.
Qed.

(** The count of a non-empty array that fits in memory. *)
Lemma of_nat_finite (n : nat) :
  (0 < n)%nat -> Z.of_nat n < 2 ^ (emax - 2) ->
  exists p e, Np.of_nat prec emax n = S754_finite false p e.
Proof using Hprec Hemax.
  intros Hn Hlt. unfold Np.of_nat. destruct (Z.of_nat n) as [|p|p] eqn:E; try lia.
  simpl. apply binary_round_finite.
  - assert (emin = 3 - emax - prec) by done. lia.
  - pose proof (Zdigits2_le_pow (Zpos p) (emax - 2) ltac:(lia) ltac:(lia) Hlt) as Hd.
    simpl in Hd. lia.
Qed.

End Ops.


Import Py.
Local Open Scope Z_scope.

(** ** The reducers on finite values *)

Section Reducers.
Variables prec emax : Z.
Hypothesis Hprec : 0 < prec.
Hypothesis Hemax : 3 <= emax.

Lemma fold_SFadd_not_nan xs acc :
  isnan acc = false -> Forall (fun x => is_finite x = true) xs ->
  isnan (fold_left (SFadd prec emax) xs acc) = false.
Proof using Hprec.
  intros Hacc Hxs. revert acc Hacc.
  induction Hxs as [|x xs Hx _ IH]; intros acc Hacc; simpl; [done|].
  apply IH. by apply SFadd_not_nan.
Qed.

Lemma fold_SFadd_sign_plus xs acc :
  sign_plus acc = true -> Forall (fun x => sign_plus x = true) xs ->
  sign_plus (fold_left (SFadd prec emax) xs acc) = true.
Proof using Hprec.
  intros Hacc Hxs. revert acc Hacc.
  induction Hxs as [|x xs Hx _ IH]; intros acc Hacc; simpl; [done|].
  apply IH. by apply SFadd_sign_plus.
Qed.

(** The mean of a non-empty array of finite values is not NaN. *)
Lemma mean_not_nan xs :
  xs <> [] -> Z.of_nat (length xs) < 2 ^ (emax - 2) ->
  Forall (fun x => is_finite x = true) xs ->
  isnan (Np.mean prec emax xs) = false.
Proof using Hprec Hemax.
  intros Hne Hlen Hxs. unfold Np.mean, Np.sum.
  destruct (of_nat_finite prec emax Hprec Hemax (length xs)) as (p & e & ->);
    [destruct xs; [done|simpl; lia]|done|].
  apply SFdiv_not_nan; [done|]. by apply fold_SFadd_not_nan.
Qed.

Lemma mean_sign_plus xs :
  xs <> [] -> Z.of_nat (length xs) < 2 ^ (emax - 2) ->
  Forall (fun x => sign_plus x = true) xs ->
  sign_plus (Np.mean prec emax xs) = true.
Proof using Hprec Hemax.
  intros Hne Hlen Hxs. unfold Np.mean, Np.sum.
  destruct (of_nat_finite prec emax Hprec Hemax (length xs)) as (p & e & ->);
    [destruct xs; [done|simpl; lia]|done|].
  apply SFdiv_sign_plus; [done|]. by apply fold_SFadd_sign_plus.
Qed.

Lemma std_not_nan xs :
  xs <> [] -> Z.of_nat (length xs) < 2 ^ (emax - 2) ->
  Forall (fun x => is_finite x = true) xs ->
  isnan (Np.std prec emax xs) = false.
Proof using Hprec Hemax.
  intros Hne Hlen Hxs. unfold Np.std.
  pose proof (mean_not_nan xs Hne Hlen Hxs) as Hm.
  apply SFsqrt_not_nan; [done|]. apply mean_sign_plus.
  - by destruct xs.
  - by rewrite length_map.
  - apply list.Forall_forall. intros y Hy. apply list_elem_of_fmap in Hy as (x & -> & Hx).
    apply SFmul_self_sign_plus; [done|]. apply SFabs_sign_plus, SFsub_not_nan; [done| |done].
    by apply (proj1 (list.Forall_forall _ _) Hxs).
Qed.

End Reducers.

(** [np.min] and [np.max] return one of the cells. *)
Lemma fold_pick_min_elem t x : fold_left Np.pick_min t x ∈ x :: t.
Proof.
  revert x. induction t as [|y t IH]; intros x; simpl; [left|].
  specialize (IH (Np.pick_min x y)). unfold Np.pick_min in *.
  apply elem_of_cons in IH as [IH|IH]; [|by do 2 right].
  rewrite IH. destruct (isnan x), (isnan y), (SFltb y x);
    first [by left | by right; left].
Qed.

Lemma fold_pick_max_elem t x : fold_left Np.pick_max t x ∈ x :: t.
Proof.
  revert x. induction t as [|y t IH]; intros x; simpl; [left|].
  specialize (IH (Np.pick_max x y)). unfold Np.pick_max in *.
  apply elem_of_cons in IH as [IH|IH]; [|by do 2 right].
  rewrite IH. destruct (isnan x), (isnan y), (SFltb x y);
    first [by left | by right; left].
Qed.

Lemma amin_not_nan xs :
  xs <> [] -> Forall (fun x => isnan x = false) xs -> isnan (Np.amin xs) = false.
Proof.
  intros Hne Hxs. destruct xs as [|x t]; [done|]. simpl.
  by apply (proj1 (list.Forall_forall _ _) Hxs), fold_pick_min_elem.
Qed.

Lemma amax_not_nan xs :
  xs <> [] -> Forall (fun x => isnan x = false) xs -> isnan (Np.amax xs) = false.
Proof.
  intros Hne Hxs. destruct xs as [|x t]; [done|]. simpl.
  by apply (proj1 (list.Forall_forall _ _) Hxs), fold_pick_max_elem.
Qed.

(** On no cell at all every reducer answers NaN. *)
Lemma reducer_plain_nil f : reducer_plain f [] = S754_nan.
Proof. by destruct f. Qed.

(** ** Conversions between binary32 and binary64 *)

Lemma F32_of_f64_not_nan x : isnan x = false -> isnan (F32.of_f64 x) = false.
Proof. destruct x; try done. intros _. by apply binary_round_not_nan. Qed.

Lemma F32_of_f64_nan x : isnan x = true -> F32.of_f64 x = S754_nan.
Proof. by destruct x. Qed.

Lemma bounded_digits prec emax m e :
  0 < prec -> bounded prec emax m e = true ->
  SpecFloat.emin prec emax <= e <= emax - prec /\ Zpos (digits2_pos m) <= prec.
Proof.
  intros Hprec Hb. unfold bounded, canonical_mantissa in Hb.
  apply andb_true_iff in Hb as [Hc He]. apply Z.eqb_eq in Hc. apply Z.leb_le in He.
  unfold SpecFloat.fexp in Hc. lia.
Qed.

(** Widening a finite binary32 value gives a finite double. *)
Lemma F64_of_f32_finite x :
  F32.valid x = true -> is_finite x = true -> is_finite (F64.of_f32 x) = true.
Proof.
  destruct x as [s|s| |s m e]; try done. intros Hv _. simpl.
  destruct (bounded_digits F32.prec F32.emax m e ltac:(done) Hv) as [He Hd].
  destruct (binary_round_finite F64.prec F64.emax ltac:(done) ltac:(done) s m e) as (p & e' & ->);
    [| |done].
  - unfold SpecFloat.emin, F32.prec, F32.emax, F64.prec, F64.emax in *. lia.
  - unfold SpecFloat.emin, F32.prec, F32.emax, F64.prec, F64.emax in *. lia.
Qed.

Lemma F64_of_f32_isnan x : isnan (F64.of_f32 x) = isnan x.
Proof. destruct x; try done. simpl. by apply binary_round_not_nan. Qed.


Import Py.
Local Open Scope Z_scope.

(** ** The sliding window *)

Lemma bind_singleton_fmap {A B} (g : A -> B) (l : list A) : (l ≫= fun a => [g a]) = g <$> l.
Proof. induction l as [|a l IH]; csimpl; [done|]. by rewrite IH. Qed.

Lemma lookup_bind_rows {A B} (f : A -> list B) (l : list A) (w i j : nat) (a : A) :
  (forall a', length (f a') = w) -> l !! i = Some a -> (j < w)%nat ->
  (l ≫= f) !! (i * w + j)%nat = f a !! j.
Proof.
  intros Hw. revert i. induction l as [|a' l IH]; intros i Hi Hj; [done|].
  rewrite bind_cons. destruct i as [|i]; simplify_eq/=.
  - rewrite lookup_app_l by (rewrite Hw; lia). done.
  - rewrite lookup_app_r by (rewrite Hw; lia). rewrite Hw.
    replace (w + i * w + j - w)%nat with (i * w + j)%nat by lia. by apply IH.
Qed.

Lemma generic_filter_lookup (h w : nat) buf function k (r c : nat) :
  (r < h)%nat -> (c < w)%nat ->
  Ndimage.generic_filter h w buf function k !! (r * w + c)%nat =
  Some (F32.of_f64 (function (F64.of_f32 <$> Ndimage.window h w buf k (Z.of_nat r) (Z.of_nat c)))).
Proof.
  intros Hr Hc. unfold Ndimage.generic_filter.
  rewrite (lookup_bind_rows _ _ w r c (Z.of_nat r)).
  - rewrite bind_singleton_fmap, list_lookup_fmap, lookup_seqZ_lt by lia. done.
  - intros r'. by rewrite bind_singleton_fmap, length_fmap, length_seqZ, Nat2Z.id.
  - rewrite lookup_seqZ_lt by lia. done.
  - done.
Qed.

(** Every cell of a window is a cell of the array (or the NaN read outside
    of a buffer that is too short). *)
Lemma window_Forall (P : spec_float -> Prop) h w buf k r c :
  P S754_nan -> Forall P buf -> Forall P (Ndimage.window h w buf k r c).
Proof.
  intros Hnan Hbuf. unfold Ndimage.window.
  apply Forall_bind, list.Forall_forall. intros dr _.
  apply Forall_bind, list.Forall_forall. intros dc _.
  constructor; [|constructor]. unfold Ndimage.cell.
  destruct (buf !! _) as [x|] eqn:E; simpl; [|done].
  by apply (proj1 (Forall_lookup _ _) Hbuf _ _ E).
Qed.

Lemma window_length h w buf k r c :
  0 <= k -> Z.of_nat (length (Ndimage.window h w buf k r c)) = k * k.
Proof.
  intros Hk. unfold Ndimage.window, Ndimage.offsets.
  assert (forall l : list Z, length (l ≫= fun dr =>
            seqZ (- (k / 2)) k ≫= fun dc =>
              [Ndimage.cell w buf (Ndimage.reflect (Z.of_nat h) (r + dr))
                 (Ndimage.reflect (Z.of_nat w) (c + dc))])
          = (length l * Z.to_nat k)%nat) as Hgen.
  { induction l as [|a l IH]; [done|]. rewrite bind_cons, length_app, IH.
    by rewrite bind_singleton_fmap, length_fmap, length_seqZ. }
  rewrite Hgen, length_seqZ. lia.
Qed.

(** ** Valid cells of a widened window *)

Lemma valid_cells_elem x xs : x ∈ Np.valid_cells xs <-> isnan x = false /\ x ∈ xs.
Proof. unfold Np.valid_cells. by rewrite list_elem_of_filter. Qed.

Lemma valid_cells_fmap_of_f32 xs :
  Np.valid_cells (F64.of_f32 <$> xs) = F64.of_f32 <$> Np.valid_cells xs.
Proof.
  unfold Np.valid_cells. induction xs as [|x xs IH]; [done|].
  rewrite fmap_cons, !filter_cons, IH, F64_of_f32_isnan.
  by destruct (decide (isnan x = false)).
Qed.

Lemma valid_cells_nil_iff xs :
  Np.valid_cells xs = [] <-> Forall (fun x => isnan x = true) xs.
Proof.
  unfold Np.valid_cells. induction xs as [|x xs IH]; [done|].
  rewrite filter_cons, list.Forall_cons. destruct (decide (isnan x = false)) as [E|E].
  - rewrite E. split; [done|]. by intros [? _].
  - apply not_false_is_true in E. rewrite E, IH. tauto.
Qed.

Lemma valid_cells_length xs : (length (Np.valid_cells xs) <= length xs)%nat.
Proof. apply length_filter. Qed.

Lemma pow_63_lt (e : Z) : 66 <= e -> 2 ^ 63 < 2 ^ (e - 2).
Proof. intros He. apply Z.pow_lt_mono_r; lia. Qed.

(** The plain reducers on a non-empty array of finite doubles. *)
Lemma reducer_plain_not_nan f xs :
  xs <> [] -> Z.of_nat (length xs) < 2 ^ 63 ->
  Forall (fun x => is_finite x = true) xs ->
  isnan (reducer_plain f xs) = false.
Proof.
  intros Hne Hlen Hxs.
  assert (Z.of_nat (length xs) < 2 ^ (F64.emax - 2)) as Hlen'
    by (etrans; [exact Hlen|by apply pow_63_lt]).
  assert (Forall (fun x => isnan x = false) xs) as Hnn.
  { apply list.Forall_forall. intros x Hx. apply is_finite_not_nan.
    by apply (proj1 (list.Forall_forall _ _) Hxs). }
  destruct f; simpl.
  - by apply mean_not_nan.
  - by apply amax_not_nan.
  - by apply amin_not_nan.
  - by apply std_not_nan.
Qed.

Lemma reducer_fun_plain f xs :
  SpatialAnalysis.reducer_fun f xs = reducer_plain f (Np.valid_cells xs).
Proof. by destruct f. Qed.

Lemma np_isnan_lookup a (i : nat) : Np.np_isnan a !! i = isnan <$> a !! i.
Proof. unfold Np.np_isnan. apply list_lookup_fmap. Qed.

Lemma np_any_valid_false a :
  Np.np_any (Np.invert (Np.np_isnan a)) = false <-> Forall (fun x => isnan x = true) a.
Proof.
  unfold Np.np_any, Np.invert, Np.np_isnan. induction a as [|x a IH]; [done|].
  simpl. rewrite list.Forall_cons, <- IH. unfold id. destruct (isnan x); simpl.
  - tauto.
  - split; [done|]. by intros [? _].
Qed.

Module SpatialClaims.
Import SpatialAnalysis Demo.




#[export] Instance demo_scipy_contract : @SciPyContract Demo.scipy.
Proof. split; done. Qed.


End SpatialClaims.


Import Py.
Local Open Scope Z_scope.

(** *** Rounding against a representable bound *)

Lemma pow2_pos k : 0 <= k -> 0 < 2 ^ k.
Proof. intros. apply Z.pow_pos_nonneg; lia. Qed.

Lemma pow2_split a b c : a <= b -> b <= c -> 2 ^ (c - a) = 2 ^ (c - b) * 2 ^ (b - a).
Proof. intros. rewrite <- Z.pow_add_r by lia. f_equal. lia. Qed.

Lemma pow2_ge_2 k : 1 <= k -> 2 <= 2 ^ k.
Proof.
  intros. replace k with (1 + (k - 1)) by lia. rewrite Z.pow_add_r by lia.
  pose proof (pow2_pos (k - 1) ltac:(lia)). lia.
Qed.

Section Bounds.
Variables prec emax : Z.
Hypothesis Hprec : 0 < prec.
Hypothesis Hemax : 3 <= emax.

Local Abbreviation emin := (SpecFloat.emin prec emax).
Local Abbreviation fexp := (SpecFloat.fexp prec emax).
Local Abbreviation rexp := (round_exp prec emax).
Local Abbreviation final := (finalize prec emax).

(** Moving a mantissa to its rounding exponent keeps it below a bound whose
    own exponent is at least the format's. *)
Lemma shift_upper m e mf ef :
  0 <= m -> 0 < mf -> e <= ef -> fexp (Zdigits2 mf + ef) <= ef ->
  m <= mf * 2 ^ (ef - e) ->
  rexp m e <= ef /\ m / 2 ^ (rexp m e - e) <= mf * 2 ^ (ef - rexp m e).
Proof using Hprec.
  intros Hm Hmf He Hcan Hle.
  assert (Zdigits2 m + e <= Zdigits2 mf + ef) as Hd.
  { pose proof (Zdigits2_mono m _ (conj Hm Hle)) as H.
    rewrite Zdigits2_mul_pow in H by lia. lia. }
  pose proof (fexp_mono prec emax _ _ Hd) as Hf.
  assert (rexp m e <= ef) as HE by (unfold round_exp; lia).
  pose proof (round_exp_ge prec emax m e) as HE'.
  split; [done|].
  apply Z.div_le_upper_bound; [apply pow2_pos; lia|].
  rewrite (pow2_split e (rexp m e) ef) in Hle by lia. lia.
Qed.

(** Below a bound: the exact value is at most [mf * 2 ^ ef], and it is
    either given exactly or strictly smaller. *)
Lemma binary_round_aux_at_most sx mx ex lx mf ef :
  0 <= mx -> 0 < mf -> ex <= ef ->
  fexp (Zdigits2 mf + ef) <= ef -> ef <= emax - prec ->
  mx <= mf * 2 ^ (ef - ex) ->
  lx = loc_Exact \/ mx < mf * 2 ^ (ef - ex) ->
  at_most mf ef (binary_round_aux prec emax sx mx ex lx).
Proof using Hprec.
  intros Hmx Hmf Hex Hcan Hef Hle Hloc.
  destruct (binary_round_aux_spec prec emax sx mx ex lx Hmx) as (m1r & Hr & Hexact & ->).
  cbn zeta in Hr, Hexact.
  destruct (shift_upper mx ex mf ef Hmx Hmf Hex Hcan Hle) as [HE1 Hm1].
  pose proof (round_exp_ge prec emax mx ex) as HE1'.
  set (E1 := rexp mx ex) in *. clearbody E1.
  pose proof (pow2_pos (E1 - ex) ltac:(lia)) as Hp1.
  pose proof (pow2_pos (ef - E1) ltac:(lia)) as Hp2.
  assert (0 <= mx / 2 ^ (E1 - ex)) as Hm1nn by (apply Z.div_pos; lia).
  assert (m1r <= mf * 2 ^ (ef - E1)) as Hm1r.
  { destruct (Z_lt_le_dec (mx / 2 ^ (E1 - ex)) (mf * 2 ^ (ef - E1))) as [Hlt|Hge]; [lia|].
    assert (mx / 2 ^ (E1 - ex) = mf * 2 ^ (ef - E1)) as Heq by lia.
    pose proof (Z.mul_div_le mx (2 ^ (E1 - ex)) Hp1) as Hfloor.
    rewrite Heq in Hfloor.
    assert (mf * 2 ^ (ef - ex) = 2 ^ (E1 - ex) * (mf * 2 ^ (ef - E1))) as Hsplit.
    { rewrite (pow2_split ex E1 ef) by lia. lia. }
    assert (mx = mf * 2 ^ (ef - E1) * 2 ^ (E1 - ex)) as Hmxeq by lia.
    destruct Hloc as [->|Hlt]; [|lia].
    rewrite Hexact; [lia|done|]. rewrite Hmxeq. apply Z_mod_mult. }
  destruct (shift_upper m1r E1 mf ef ltac:(lia) Hmf HE1 Hcan Hm1r) as [HE2 Hm2].
  pose proof (round_exp_ge prec emax m1r E1) as HE2'.
  set (E2 := rexp m1r E1) in *. clearbody E2.
  assert (0 <= m1r / 2 ^ (E2 - E1)) as Hm2nn.
  { apply Z.div_pos; [lia|]. apply pow2_pos. lia. }
  unfold finalize. destruct (m1r / 2 ^ (E2 - E1)) as [|p|p]; [done| |lia].
  rewrite (proj2 (Z.leb_le E2 (emax - prec))) by lia. done.
Qed.

(** Moving a mantissa to its rounding exponent keeps it above a bound that
    is in canonical form. *)
Lemma shift_lower m e lo mf ef :
  0 < m -> 0 < mf -> lo <= e -> lo <= ef ->
  fexp (Zdigits2 mf + ef) = ef ->
  mf * 2 ^ (ef - lo) <= m * 2 ^ (e - lo) ->
  ef <= rexp m e /\ mf <= m / 2 ^ (rexp m e - e) * 2 ^ (rexp m e - ef).
Proof using Hprec.
  intros Hm Hmf Hlo1 Hlo2 Hcan Hle. clear Hemax.
  pose proof (pow2_pos (e - lo) ltac:(lia)) as Hp1.
  pose proof (pow2_pos (ef - lo) ltac:(lia)) as Hp2.
  assert (Zdigits2 mf + ef <= Zdigits2 m + e) as Hd.
  { pose proof (Zdigits2_mono (mf * 2 ^ (ef - lo)) (m * 2 ^ (e - lo)) ltac:(lia)) as H.
    rewrite !Zdigits2_mul_pow in H by lia. lia. }
  pose proof (fexp_mono prec emax _ _ Hd) as Hf.
  pose proof (round_exp_ge prec emax m e) as HE'.
  assert (ef <= rexp m e) as HE by (unfold round_exp; lia).
  assert (Zdigits2 mf <= prec) as Hdf by (unfold SpecFloat.fexp in Hcan; lia).
  assert (emin <= ef) as Hemin by (unfold SpecFloat.fexp in Hcan; lia).
  split; [done|].
  assert (HEdef : rexp m e = Z.max e (Z.max (Zdigits2 m + e - prec) emin)) by done.
  set (E := rexp m e) in *. clearbody E.
  destruct (Z.eq_dec E e) as [->|HEe].
  - rewrite Z.sub_diag, Z.pow_0_r, Z.div_1_r.
    rewrite (pow2_split lo ef e) in Hle by lia.
    pose proof (pow2_pos (e - ef) ltac:(lia)). nia.
  - destruct (Z.eq_dec E ef) as [->|HEf].
    + rewrite Z.sub_diag, Z.pow_0_r, Z.mul_1_r.
      apply Z.div_le_lower_bound; [apply pow2_pos; lia|].
      rewrite (pow2_split lo e ef) in Hle by lia.
      pose proof (pow2_pos (ef - e) ltac:(lia)). nia.
    + assert (E = Zdigits2 m + e - prec) as HEn by lia.
      assert (Zdigits2 (m / 2 ^ (E - e)) = prec) as Hdq.
      { rewrite Zdigits2_div_pow by lia. lia. }
      assert (0 < m / 2 ^ (E - e)) as Hq.
      { assert (0 <= m / 2 ^ (E - e)) by (apply Z.div_pos; [lia|apply pow2_pos; lia]).
        destruct (Z.eq_dec (m / 2 ^ (E - e)) 0) as [E0|]; [|lia].
        rewrite E0 in Hdq. simpl in Hdq. lia. }
      pose proof (Zdigits2_bounds _ Hq) as [Hlo _]. rewrite Hdq in Hlo.
      pose proof (Zdigits2_bounds _ Hmf) as [_ Hhi].
      assert (2 ^ Zdigits2 mf <= 2 ^ prec) by (apply Z.pow_le_mono_r; lia).
      assert (2 ^ prec = 2 * 2 ^ (prec - 1)) as Hpp.
      { replace prec with (1 + (prec - 1)) at 1 by lia. rewrite Z.pow_add_r by lia. lia. }
      pose proof (pow2_ge_2 (E - ef) ltac:(lia)).
      pose proof (pow2_pos (prec - 1) ltac:(lia)). nia.
Qed.

Lemma binary_round_aux_at_least sx mx ex lx mf ef :
  0 < mx -> 0 < mf -> ex <= ef ->
  fexp (Zdigits2 mf + ef) = ef ->
  mf * 2 ^ (ef - ex) <= mx ->
  at_least mf ef (binary_round_aux prec emax sx mx ex lx).
Proof using Hprec.
  intros Hmx Hmf Hex Hcan Hle. clear Hemax.
  destruct (binary_round_aux_spec prec emax sx mx ex lx ltac:(lia)) as (m1r & Hr & _ & ->).
  cbn zeta in Hr.
  destruct (shift_lower mx ex ex mf ef Hmx Hmf ltac:(lia) Hex Hcan) as [HE1 Hm1].
  { rewrite Z.sub_diag, Z.pow_0_r. lia. }
  set (E1 := rexp mx ex) in *. clearbody E1.
  pose proof (pow2_pos (E1 - ef) ltac:(lia)) as Hp1.
  assert (0 < m1r) as Hm1r by nia.
  destruct (shift_lower m1r E1 ef mf ef Hm1r Hmf HE1 ltac:(lia) Hcan) as [HE2 Hm2].
  { rewrite Z.sub_diag, Z.pow_0_r. nia. }
  set (E2 := rexp m1r E1) in *. clearbody E2.
  pose proof (pow2_pos (E2 - ef) ltac:(lia)) as Hp2.
  unfold finalize. destruct (m1r / 2 ^ (E2 - E1)) as [|p|p]; [lia| |lia].
  destruct (E2 <=? emax - prec); done.
Qed.

Lemma binary_round_at_most sx mx ex mf ef :
  0 < mf -> ex <= ef ->
  fexp (Zdigits2 mf + ef) <= ef -> ef <= emax - prec ->
  Zpos mx <= mf * 2 ^ (ef - ex) ->
  at_most mf ef (binary_round prec emax sx mx ex).
Proof using Hprec.
  intros Hmf Hex Hcan Hef Hle. clear Hemax. unfold binary_round.
  pose proof (shl_align_spec mx ex (fexp (Zpos (digits2_pos mx) + ex))) as Hs.
  destruct (shl_align mx ex _) as [mz ez]. destruct Hs as [Hez Hmz].
  pose proof (pow2_pos (ex - ez) ltac:(lia)).
  apply binary_round_aux_at_most; try done; try lia.
  - rewrite Hmz, (pow2_split ez ex ef) by lia. nia.
  - by left.
Qed.

Lemma binary_round_at_least sx mx ex mf ef :
  0 < mf -> ex <= ef ->
  fexp (Zdigits2 mf + ef) = ef ->
  mf * 2 ^ (ef - ex) <= Zpos mx ->
  at_least mf ef (binary_round prec emax sx mx ex).
Proof using Hprec.
  intros Hmf Hex Hcan Hle. clear Hemax. unfold binary_round.
  pose proof (shl_align_spec mx ex (fexp (Zpos (digits2_pos mx) + ex))) as Hs.
  destruct (shl_align mx ex _) as [mz ez]. destruct Hs as [Hez Hmz].
  pose proof (pow2_pos (ex - ez) ltac:(lia)).
  apply binary_round_aux_at_least; try done; try lia.
  rewrite Hmz, (pow2_split ez ex ef) by lia. nia.
Qed.

Lemma bounded_canonical m e :
  bounded prec emax m e = true ->
  fexp (Zdigits2 (Zpos m) + e) = e /\ e <= emax - prec.
Proof.
  unfold bounded, canonical_mantissa. intros Hb.
  apply andb_true_iff in Hb as [Hc He]. apply Z.eqb_eq in Hc. apply Z.leb_le in He.
  done.
Qed.

(** A sum of two positive values is at least each of them. *)
Lemma SFadd_at_least mx ex my ey :
  bounded prec emax mx ex = true -> bounded prec emax my ey = true ->
  let s := SFadd prec emax (S754_finite false mx ex) (S754_finite false my ey) in
  at_least (Zpos mx) ex s /\ at_least (Zpos my) ey s.
Proof using Hprec.
  intros Hbx Hby. clear Hemax.
  apply bounded_canonical in Hbx as [Hcx _], Hby as [Hcy _].
  cbn zeta. unfold SFadd.
  pose proof (shl_align_spec mx ex (Z.min ex ey)) as Hsx.
  pose proof (shl_align_spec my ey (Z.min ex ey)) as Hsy.
  destruct (shl_align mx ex _) as [mx' ex'], (shl_align my ey _) as [my' ey'].
  destruct Hsx as [Hex' Hmx'], Hsy as [Hey' Hmy'].
  cbn [fst cond_Zopp]. change (Zpos mx' + Zpos my') with (Zpos (mx' + my')).
  cbn [binary_normalize].
  assert (Zpos (mx' + my') = Zpos mx' + Zpos my') as Hsum by done.
  replace (ex - ex') with (ex - Z.min ex ey) in Hmx' by lia.
  replace (ey - ey') with (ey - Z.min ex ey) in Hmy' by lia.
  split; apply binary_round_at_least; try done; lia.
Qed.

(** A difference of two positive values is at most one of them. *)
Lemma SFsub_at_most mx ex my ey :
  bounded prec emax mx ex = true -> bounded prec emax my ey = true ->
  let d := SFsub prec emax (S754_finite false mx ex) (S754_finite false my ey) in
  at_most (Zpos mx) ex d \/ at_most (Zpos my) ey d.
Proof using Hprec.
  intros Hbx Hby. clear Hemax.
  apply bounded_canonical in Hbx as [Hcx Hex], Hby as [Hcy Hey].
  cbn zeta. unfold SFsub.
  pose proof (shl_align_spec mx ex (Z.min ex ey)) as Hsx.
  pose proof (shl_align_spec my ey (Z.min ex ey)) as Hsy.
  destruct (shl_align mx ex _) as [mx' ex'], (shl_align my ey _) as [my' ey'].
  destruct Hsx as [Hex' Hmx'], Hsy as [Hey' Hmy'].
  cbn [fst cond_Zopp].
  replace (ex - ex') with (ex - Z.min ex ey) in Hmx' by lia.
  replace (ey - ey') with (ey - Z.min ex ey) in Hmy' by lia.
  destruct (Zpos mx' - Zpos my') as [|d|d] eqn:Ed; cbn [binary_normalize].
  - by left.
  - left. apply binary_round_at_most; try done; lia.
  - right. apply binary_round_at_most; try done; lia.
Qed.

Lemma new_location_exact nb : new_location nb 0 = loc_Exact.
Proof. unfold new_location. by destruct (Z.even nb). Qed.

(** A quotient whose dividend does not exceed its divisor is at most one. *)
Lemma SFdiv_at_most_one x y mb eb :
  0 < mb -> at_most mb eb x -> at_least mb eb y ->
  at_most (2 ^ (prec - 1)) (1 - prec) (SFdiv prec emax x y).
Proof using Hprec Hemax.
  intros Hmb Hx Hy.
  destruct x as [sx|sx| |sx mx ex], y as [sy|sy| |sy my ey]; try done.
  destruct Hx as [Hex Hmx], Hy as [Hey Hmy].
  pose proof (pow2_pos (eb - ex) ltac:(lia)) as Hp1.
  pose proof (pow2_pos (ey - eb) ltac:(lia)) as Hp2.
  assert (Zpos mx <= Zpos my * 2 ^ (ey - ex)) as Hle.
  { rewrite (pow2_split ex eb ey) by lia. nia. }
  assert (Zdigits2 (Zpos mx) + ex <= Zdigits2 (Zpos my) + ey) as Hd.
  { pose proof (Zdigits2_mono (Zpos mx) (Zpos my * 2 ^ (ey - ex)) ltac:(lia)) as H.
    rewrite Zdigits2_mul_pow in H by lia. lia. }
  unfold SFdiv, SFdiv_core_binary.
  set (e' := Z.min _ _).
  assert (e' <= - prec) as He'.
  { unfold e'. pose proof (fexp_mono prec emax (Zdigits2 (Zpos mx) + ex - (Zdigits2 (Zpos my) + ey)) 0 ltac:(lia)) as H.
    unfold SpecFloat.fexp, SpecFloat.emin in H. unfold SpecFloat.fexp, SpecFloat.emin. lia. }
  assert (e' <= ex - ey) as He'' by (unfold e'; lia).
  clearbody e'.
  set (s := ex - ey - e').
  assert (Hs : s = ex - ey - e') by done. clearbody s.
  set (m' := match s with Z0 => Zpos mx | Zpos _ => Z.shiftl (Zpos mx) s | Zneg _ => 0 end).
  assert (m' = Zpos mx * 2 ^ s) as Hm'.
  { unfold m'. destruct s as [|p|p]; [simpl; lia| |lia]. rewrite Z.shiftl_mul_pow2; lia. }
  clearbody m'.
  pose proof (Z_div_mod m' (Zpos my) ltac:(lia)) as Hdm.
  destruct (Z.div_eucl m' (Zpos my)) as [q r]. destruct Hdm as [Hq Hr].
  pose proof (pow2_pos s ltac:(lia)) as Hps.
  pose proof (pow2_pos (- e') ltac:(lia)) as Hpe.
  assert (2 ^ (- e') = 2 ^ (ey - ex) * 2 ^ s) as Hsplit.
  { rewrite <- Z.pow_add_r by lia. f_equal. lia. }
  assert (0 <= q) as Hq0 by nia.
  assert (2 ^ (prec - 1) * 2 ^ (1 - prec - e') = 2 ^ (- e')) as Hone.
  { rewrite <- Z.pow_add_r by lia. f_equal. lia. }
  assert (Zpos mx * 2 ^ s <= Zpos my * 2 ^ (- e')) as Hbound by (rewrite Hsplit; nia).
  assert (0 < 2 ^ (prec - 1)) as G1 by (apply pow2_pos; lia).
  assert (fexp (Zdigits2 (2 ^ (prec - 1)) + (1 - prec)) <= 1 - prec) as G2.
  { rewrite Zdigits2_log2 by done.
    rewrite Z.log2_pow2 by lia. unfold SpecFloat.fexp, SpecFloat.emin. lia. }
  assert (q <= 2 ^ (prec - 1) * 2 ^ (1 - prec - e')) as G3 by (rewrite Hone; nia).
  assert (new_location (Zpos my) r = loc_Exact \/ q < 2 ^ (prec - 1) * 2 ^ (1 - prec - e')) as G4.
  { rewrite Hone. destruct (Z.eq_dec r 0) as [->|Hr0].
    - left. apply new_location_exact.
    - right. nia. }
  apply binary_round_aux_at_most; [done|done|lia|done|lia|done|done].
Qed.

End Bounds.

(** Values of magnitude at most one compare inside [-1, 1]. *)
Lemma at_most_one_within x :
  at_most (2 ^ (F32.prec - 1)) (1 - F32.prec) x ->
  SFleb F32.minus_one x = true /\ SFleb x F32.one = true.
Proof.
  destruct x as [s|s| |s m e]; try done.
  intros [He Hm].
  change (1 - F32.prec) with (-23) in *. change (2 ^ (F32.prec - 1)) with 8388608 in *.
  unfold SFleb, SFcompare, F32.minus_one, F32.one.
  destruct s.
  - split; [|done]. destruct (Z.compare_spec (-23) e) as [<-|Hlt|Hgt]; [|lia|done].
    change (2 ^ (-23 - -23)) with 1 in Hm.
    rewrite Pos.compare_cont_spec. simpl.
    destruct (Pos.compare_spec 8388608 m) as [?|?|?]; simpl; try done. lia.
  - split; [done|]. destruct (Z.compare_spec e (-23)) as [->|Hlt|Hgt]; [|done|lia].
    change (2 ^ (-23 - -23)) with 1 in Hm.
    rewrite Pos.compare_cont_spec. simpl.
    destruct (Pos.compare_spec m 8388608) as [?|?|?]; simpl; try done. lia.
Qed.

Lemma at_least_nonzero mf ef y : at_least mf ef y -> SFneb y F32.zero = true.
Proof. by destruct y as [s|[]| |[] m e]. Qed.

Lemma at_most_self s m e : at_most (Zpos m) e (S754_finite s m e).
Proof. simpl. rewrite Z.sub_diag. simpl. lia. Qed.

Lemma at_least_self s m e : at_least (Zpos m) e (S754_finite s m e).
Proof. simpl. rewrite Z.sub_diag. simpl. lia. Qed.

(** The numerator and the denominator of NDVI at a cell with non-negative
    finite reflectances, not both zero, sit on either side of the larger of
    the two reflectances. *)
Lemma ndvi_cell_bounds (r n : spec_float) :
  F32.valid r = true -> F32.valid n = true ->
  is_finite r = true -> is_finite n = true ->
  SFleb F32.zero r = true -> SFleb F32.zero n = true ->
  SFeqb r F32.zero && SFeqb n F32.zero = false ->
  exists mb eb, 0 < mb /\ at_most mb eb (F32.sub n r) /\ at_least mb eb (F32.add n r).
Proof.
  intros Hvr Hvn Hfr Hfn Hr Hn Hnz.
  destruct r as [sr|sr| |sr mr er], n as [sn|sn| |sn mn en]; try done.
  - destruct sn; [done|]. exists (Zpos mn), en. split; [done|].
    split; [apply at_most_self|apply at_least_self].
  - destruct sr; [done|]. exists (Zpos mr), er. split; [done|].
    split; [apply at_most_self|apply at_least_self].
  - destruct sr; [done|]. destruct sn; [done|].
    pose proof (SFsub_at_most F32.prec F32.emax ltac:(done) mn en mr er Hvn Hvr) as Hsub.
    pose proof (SFadd_at_least F32.prec F32.emax ltac:(done) mn en mr er Hvn Hvr) as [Ha1 Ha2].
    cbn zeta in Hsub. destruct Hsub as [Hs|Hs].
    + by exists (Zpos mn), en.
    + by exists (Zpos mr), er.
Qed.

Module RangeClaims.
Import SpectralIndices SpectralFacts Demo.

(** C7.  At every cell where the RED and NIR reflectances are finite
    binary32 numbers, both at least zero and not both zero, [calculate_ndvi]
    computes the quotient (NIR - RED) / (NIR + RED) in binary32, and that
    value compares inside the closed interval from -1 to 1. *)
Theorem ndvi_within_unit_interval (red nir : list spec_float) (i : nat) (r n : spec_float) :
  red !! i = Some r -> nir !! i = Some n ->
  F32.valid r = true -> F32.valid n = true ->
  is_finite r = true -> is_finite n = true ->
  SFleb F32.zero r = true -> SFleb F32.zero n = true ->
  SFeqb r F32.zero && SFeqb n F32.zero = false ->
  exists v,
    ndvi_array red nir !! i = Some v
    /\ v = F32.div (F32.sub n r) (F32.add n r)
    /\ SFleb F32.minus_one v = true /\ SFleb v F32.one = true.
Proof.
  intros Hri Hni Hvr Hvn Hfr Hfn Hr Hn Hnz.
  destruct (ndvi_cell_bounds r n Hvr Hvn Hfr Hfn Hr Hn Hnz) as (mb & eb & Hmb & Hnum & Hden).
  exists (F32.div (F32.sub n r) (F32.add n r)).
  split; [|split; [done|]].
  - change (ndvi_array red nir)
      with (index_array NDVI {| b_red := red; b_nir := nir; b_green := []; b_blue := []; b_swir := [] |}).
    rewrite index_array_lookup. simpl.
    unfold ndvi_denominator, arr_div, arr_sub, arr_add.
    rewrite !lookup_zip_with, Hri, Hni. simpl.
    by rewrite (at_least_nonzero _ _ _ Hden).
  - apply at_most_one_within.
    by apply (SFdiv_at_most_one F32.prec F32.emax ltac:(done) ltac:(done) _ _ mb eb).
Qed.

Lemma ndvi_within_unit_interval_witness :
  exists v,
    ndvi_array [f32 1; f32 0] [f32 3; f32 0] !! 0%nat = Some v
    /\ v = F32.div (F32.sub (f32 3) (f32 1)) (F32.add (f32 3) (f32 1))
    /\ SFleb F32.minus_one v = true /\ SFleb v F32.one = true.
Proof.
  refine (ndvi_within_unit_interval [f32 1; f32 0] [f32 3; f32 0] 0 (f32 1) (f32 3)
            _ _ _ _ _ _ _ _ _); reflexivity.
Defined.

End RangeClaims.


Import Py.
Local Open Scope Z_scope.

(** ** Order of the checks in the tools *)

Section Checks.
Context `{Rasterio} `{PyStr} `{NumPyExt} `{SciPy}
  `{MetadataInfo.RasterioInfo} `{SpatialFilters.Filters}.

Lemma validate_missing path :
  path_exists (resolve path) = false ->
  validate_raster_path path =
  ([], inl (FileNotFoundError ("Path not found: " +:+ resolve path))).
Proof. intros Hp. unfold validate_raster_path. by rewrite Hp. Qed.

Lemma validate_present path :
  path_exists (resolve path) = true -> validate_raster_path path = ([], inr (resolve path)).
Proof. intros Hp. unfold validate_raster_path. by rewrite Hp. Qed.

Lemma rio_open_ok p src : open_dataset p = inr src -> rio_open p = ([Opened p], inr src).
Proof. intros Ho. unfold rio_open. io_unfold. by rewrite Ho. Qed.

Lemma bind_raise {A B} t (e : exn) (f : A -> io B) : bind (t, inl e) f = (t, inl e).
Proof. done. Qed.

Lemma bind_value {A B} t (a : A) (f : A -> io B) :
  bind (t, inr a) f = (t ++ fst (f a), snd (f a)).
Proof. unfold bind. by destruct (f a). Qed.

End Checks.

Ltac run_missing Hp :=
  unfold mbind, io_bind; rewrite (validate_missing _ Hp); reflexivity.

Ltac run_path Hp :=
  unfold mbind, io_bind; rewrite (validate_present _ Hp), bind_value; cbn [fst snd app].

Ltac run_open Ho :=
  unfold mbind, io_bind; rewrite (rio_open_ok _ _ Ho), bind_value; cbn [fst snd app].

Ltac run_opened Hp Ho := run_path Hp; run_open Ho.

Module CheckOrder.
Import SpectralIndices RasterMetadata SpatialAnalysis MetadataInfo SpatialFilters.
Import Demo DemoTools.

Section Order.
Context `{Rasterio} `{PyStr} `{NumPyExt} `{SciPy}
  `{MetadataInfo.RasterioInfo} `{SpatialFilters.Filters}.

(** Every tool of the three raster servers checks the path first: when the
    resolved path does not exist it raises [FileNotFoundError] naming the
    resolved path, whatever its other arguments, and nothing is opened,
    read or printed. *)
Theorem missing_path_raises_first (path : string) :
  path_exists (resolve path) = false ->
  let failure : io value :=
    ([], inl (FileNotFoundError ("Path not found: " +:+ resolve path))) in
  (forall r n, calculate_ndvi path r n = failure)
  /\ (forall r n b G C1 C2 L, calculate_evi path r n b G C1 C2 L = failure)
  /\ (forall r n L, calculate_savi path r n L = failure)
  /\ (forall g n, calculate_ndwi path g n = failure)
  /\ (forall g s, calculate_mndwi path g s = failure)
  /\ (forall r n g b, calculate_multiple_indices path r n g b = failure)
  /\ extract_metadata path = failure
  /\ raster_overview path = failure
  /\ (forall b, band_statistics path b = failure)
  /\ (forall b bins, histogram_data path b bins = failure)
  /\ (forall b m, unique_values path b m = failure)
  /\ (forall f b k, focal_tool f path b k = failure)
  /\ (forall b sigma, gaussian_smooth path b sigma = failure)
  /\ (forall b size, median_filter_analysis path b size = failure)
  /\ (forall b method, edge_detection path b method = failure).
Proof.
  intros Hp failure. unfold failure.
  repeat split; intros;
    unfold calculate_ndvi, calculate_evi, calculate_savi, calculate_ndwi, calculate_mndwi,
      calculate_multiple_indices, extract_metadata, raster_overview, band_statistics,
      histogram_data, unique_values, focal_tool, gaussian_smooth, median_filter_analysis,
      edge_detection;
    run_missing Hp.
Qed.

End Order.

Lemma missing_path_raises_first_witness :
  let failure : io value := ([], inl (FileNotFoundError "Path not found: /data/absent.tif")) in
  (forall r n, calculate_ndvi "/data/absent.tif" r n = failure)
  /\ (forall r n b G C1 C2 L, calculate_evi "/data/absent.tif" r n b G C1 C2 L = failure)
  /\ (forall r n L, calculate_savi "/data/absent.tif" r n L = failure)
  /\ (forall g n, calculate_ndwi "/data/absent.tif" g n = failure)
  /\ (forall g s, calculate_mndwi "/data/absent.tif" g s = failure)
  /\ (forall r n g b, calculate_multiple_indices "/data/absent.tif" r n g b = failure)
  /\ extract_metadata "/data/absent.tif" = failure
  /\ raster_overview "/data/absent.tif" = failure
  /\ (forall b, band_statistics "/data/absent.tif" b = failure)
  /\ (forall b bins, histogram_data "/data/absent.tif" b bins = failure)
  /\ (forall b m, unique_values "/data/absent.tif" b m = failure)
  /\ (forall f b k, focal_tool f "/data/absent.tif" b k = failure)
  /\ (forall b sigma, gaussian_smooth "/data/absent.tif" b sigma = failure)
  /\ (forall b size, median_filter_analysis "/data/absent.tif" b size = failure)
  /\ (forall b method, edge_detection "/data/absent.tif" b method = failure).
Proof.
  refine (missing_path_raises_first "/data/absent.tif" _). reflexivity.
Defined.

Section Parameters.
Context `{Rasterio} `{PyStr} `{NumPyExt} `{SciPy}
  `{MetadataInfo.RasterioInfo} `{SpatialFilters.Filters}.

(** On an existing path, the focal tools refuse a window size that is not
    a positive odd integer, and the Gaussian tool a sigma that is at most
    zero, before the file is opened: the band number is not looked at. *)
Theorem window_and_sigma_checked_before_open (path : string) (b : Z) :
  path_exists (resolve path) = true ->
  (forall f k, k <= 0 \/ k mod 2 = 0 ->
     focal_tool f path b k =
     ([], inl (ValueError "Window size must be a positive odd integer.")))
  /\ (forall sigma, SFleb sigma (S754_zero false) = true ->
     gaussian_smooth path b sigma = ([], inl (ValueError "Sigma must be positive."))).
Proof.
  intros Hp. split.
  - intros f k Hk. unfold focal_tool. unfold mbind, io_bind.
    rewrite (validate_present _ Hp), bind_value.
    assert ((k <=? 0) || (k mod 2 =? 0) = true) as ->; [|done].
    apply orb_true_iff. destruct Hk as [Hk|Hk]; [left; lia|right; lia].
  - intros sigma Hs. unfold gaussian_smooth. unfold mbind, io_bind.
    rewrite (validate_present _ Hp), bind_value. by rewrite Hs.
Qed.

(** On an existing path, the median tool refuses a size that is at most
    zero (an even size is accepted), and the edge detector a method other
    than "sobel" and "gradient", before the file is opened. *)
Theorem size_and_method_checked_before_open (path : string) (b : Z) :
  path_exists (resolve path) = true ->
  (forall size, size <= 0 ->
     median_filter_analysis path b size =
     ([], inl (ValueError "Filter size must be positive.")))
  /\ (forall method, method <> "sobel" -> method <> "gradient" ->
     edge_detection path b method =
     ([], inl (ValueError "Method must be 'sobel' or 'gradient'."))).
Proof.
  intros Hp. split.
  - intros size Hs. unfold median_filter_analysis. unfold mbind, io_bind.
    rewrite (validate_present _ Hp), bind_value.
    by rewrite (proj2 (Z.leb_le size 0) Hs).
  - intros method Hm1 Hm2. unfold edge_detection. unfold mbind, io_bind.
    rewrite (validate_present _ Hp), bind_value.
    apply String.eqb_neq in Hm1, Hm2. by rewrite Hm1, Hm2.
Qed.

(** A band number outside [1, src.count] is refused after the file is
    opened and before any band is read, by every single-band tool whose
    other parameter passed its check. *)
Theorem invalid_band_raises_before_read (path : string) (src : Dataset) (b : Z) :
  path_exists (resolve path) = true ->
  open_dataset (resolve path) = inr src ->
  ~ (1 <= b <= count src) ->
  let metadata_failure : io value :=
    ([Opened (resolve path)],
     inl (ValueError ("Invalid band number. Raster has " +:+ pretty (count src) +:+ " bands."))) in
  let spatial_failure : io value :=
    ([Opened (resolve path)],
     inl (ValueError ("Invalid band number. Image has " +:+ pretty (count src) +:+ " bands."))) in
  band_statistics path (Some b) = metadata_failure
  /\ (forall bins, histogram_data path b bins = metadata_failure)
  /\ (forall m, unique_values path b m = metadata_failure)
  /\ (forall f k, 0 < k -> k mod 2 = 1 -> focal_tool f path b k = spatial_failure)
  /\ (forall sigma, SFleb sigma (S754_zero false) = false ->
        gaussian_smooth path b sigma = spatial_failure)
  /\ (forall size, 0 < size -> median_filter_analysis path b size = spatial_failure)
  /\ (forall method, method = "sobel" \/ method = "gradient" ->
        edge_detection path b method = spatial_failure).
Proof.
  intros Hp Ho Hb metadata_failure spatial_failure.
  assert (valid_band src b = false) as Hv.
  { unfold valid_band. apply andb_false_iff. destruct (Z_le_gt_dec 1 b); [right|left]; lia. }
  repeat split.
  - unfold band_statistics. run_opened Hp Ho. by rewrite Hv.
  - intros bins. unfold histogram_data. run_opened Hp Ho. by rewrite Hv.
  - intros m. unfold unique_values. run_opened Hp Ho. by rewrite Hv.
  - intros f k Hk Hodd. unfold focal_tool. run_path Hp.
    assert ((k <=? 0) || (k mod 2 =? 0) = false) as ->.
    { apply orb_false_iff. split; lia. }
    run_open Ho. by rewrite Hv.
  - intros sigma Hs. unfold gaussian_smooth. run_path Hp. rewrite Hs.
    run_open Ho. by rewrite Hv.
  - intros size Hs. unfold median_filter_analysis. run_path Hp.
    rewrite (proj2 (Z.leb_gt size 0) Hs). run_open Ho. by rewrite Hv.
  - intros method Hm. unfold edge_detection. run_path Hp.
    assert (String.eqb method "sobel" || String.eqb method "gradient" = true) as ->.
    { destruct Hm as [->| ->]; done. }
    run_open Ho. by rewrite Hv.
Qed.

(** The index tools check all their band numbers together: as soon as one
    of them is outside [1, src.count] the tool raises after opening the
    file, and no band is read, not even a valid one. *)
Theorem invalid_index_band_raises_before_read (path : string) (src : Dataset) :
  path_exists (resolve path) = true ->
  open_dataset (resolve path) = inr src ->
  let failure : io value :=
    ([Opened (resolve path)],
     inl (ValueError ("Invalid band indices. Image has " +:+ pretty (count src) +:+ " bands."))) in
  (forall r n, valid_band src r && valid_band src n = false ->
     calculate_ndvi path r n = failure
     /\ (forall L, calculate_savi path r n L = failure)
     /\ calculate_ndwi path r n = failure
     /\ calculate_mndwi path r n = failure)
  /\ (forall r n b, forallb (valid_band src) [r; n; b] = false ->
     forall G C1 C2 L, calculate_evi path r n b G C1 C2 L = failure)
  /\ (forall r n g b, forallb (valid_band src) [r; n; g; b] = false ->
     calculate_multiple_indices path r n g b = failure).
Proof.
  intros Hp Ho failure. split; [|split].
  - intros r n Hv. repeat split.
    + unfold calculate_ndvi. run_opened Hp Ho. by rewrite Hv.
    + intros L. unfold calculate_savi. run_opened Hp Ho. by rewrite Hv.
    + unfold calculate_ndwi. run_opened Hp Ho. by rewrite Hv.
    + unfold calculate_mndwi. run_opened Hp Ho. by rewrite Hv.
  - intros r n b Hv G C1 C2 L. unfold calculate_evi. run_opened Hp Ho. by rewrite Hv.
  - intros r n g b Hv. unfold calculate_multiple_indices. run_opened Hp Ho. by rewrite Hv.
Qed.

End Parameters.

Lemma window_and_sigma_checked_before_open_witness :
  (forall f k, k <= 0 \/ k mod 2 = 0 ->
     focal_tool f "/data/scene.tif" 1 k =
     ([], inl (ValueError "Window size must be a positive odd integer.")))
  /\ (forall sigma, SFleb sigma (S754_zero false) = true ->
     gaussian_smooth "/data/scene.tif" 1 sigma = ([], inl (ValueError "Sigma must be positive."))).
Proof.
  refine (window_and_sigma_checked_before_open "/data/scene.tif" 1 _). reflexivity.
Defined.

Lemma size_and_method_checked_before_open_witness :
  (forall size, size <= 0 ->
     median_filter_analysis "/data/scene.tif" 1 size =
     ([], inl (ValueError "Filter size must be positive.")))
  /\ (forall method, method <> "sobel" -> method <> "gradient" ->
     edge_detection "/data/scene.tif" 1 method =
     ([], inl (ValueError "Method must be 'sobel' or 'gradient'."))).
Proof.
  refine (size_and_method_checked_before_open "/data/scene.tif" 1 _). reflexivity.
Defined.

Lemma invalid_band_raises_before_read_witness :
  let metadata_failure : io value :=
    ([Opened "/data/scene.tif"],
     inl (ValueError "Invalid band number. Raster has 1 bands.")) in
  let spatial_failure : io value :=
    ([Opened "/data/scene.tif"],
     inl (ValueError "Invalid band number. Image has 1 bands.")) in
  band_statistics "/data/scene.tif" (Some 2) = metadata_failure
  /\ (forall bins, histogram_data "/data/scene.tif" 2 bins = metadata_failure)
  /\ (forall m, unique_values "/data/scene.tif" 2 m = metadata_failure)
  /\ (forall f k, 0 < k -> k mod 2 = 1 -> focal_tool f "/data/scene.tif" 2 k = spatial_failure)
  /\ (forall sigma, SFleb sigma (S754_zero false) = false ->
        gaussian_smooth "/data/scene.tif" 2 sigma = spatial_failure)
  /\ (forall size, 0 < size -> median_filter_analysis "/data/scene.tif" 2 size = spatial_failure)
  /\ (forall method, method = "sobel" \/ method = "gradient" ->
        edge_detection "/data/scene.tif" 2 method = spatial_failure).
Proof.
  refine (invalid_band_raises_before_read "/data/scene.tif" scene 2 _ _ _);
    first [reflexivity | simpl; lia].
Defined.

Lemma invalid_index_band_raises_before_read_witness :
  let failure : io value :=
    ([Opened "/data/scene.tif"],
     inl (ValueError "Invalid band indices. Image has 1 bands.")) in
  (forall r n, valid_band scene r && valid_band scene n = false ->
     calculate_ndvi "/data/scene.tif" r n = failure
     /\ (forall L, calculate_savi "/data/scene.tif" r n L = failure)
     /\ calculate_ndwi "/data/scene.tif" r n = failure
     /\ calculate_mndwi "/data/scene.tif" r n = failure)
  /\ (forall r n b, forallb (valid_band scene) [r; n; b] = false ->
     forall G C1 C2 L, calculate_evi "/data/scene.tif" r n b G C1 C2 L = failure)
  /\ (forall r n g b, forallb (valid_band scene) [r; n; g; b] = false ->
     calculate_multiple_indices "/data/scene.tif" r n g b = failure).
Proof.
  refine (invalid_index_band_raises_before_read "/data/scene.tif" scene _ _); reflexivity.
Defined.

End CheckOrder.


Import Py.
Local Open Scope Z_scope.

(** ** The two sentinel normalizers *)

Lemma SFeqb_nan_r x : SFeqb x S754_nan = false.
Proof. by destruct x. Qed.

Lemma SFeqb_nan_l x : SFeqb S754_nan x = false.
Proof. done. Qed.

Lemma mask_fill_lookup {A} (f : A -> bool) (d : list A) (v : A) (i : nat) :
  Np.mask_fill d (map f d) v !! i = (fun x => if f x then v else x) <$> d !! i.
Proof.
  unfold Np.mask_fill. rewrite lookup_zip_with. change (map f d) with (f <$> d).
  rewrite list_lookup_fmap. by destruct (d !! i).
Qed.

Lemma mask_fill_length {A} (f : A -> bool) (d : list A) (v : A) :
  length (Np.mask_fill d (map f d) v) = length d.
Proof. unfold Np.mask_fill. rewrite length_zip_with, length_map. lia. Qed.

Lemma mask_fill_never {A} (f : A -> bool) (d : list A) (v : A) :
  (forall x, f x = false) -> Np.mask_fill d (map f d) v = d.
Proof.
  intros Hf. apply list_eq. intros i. rewrite mask_fill_lookup.
  destruct (d !! i) as [x|]; [|done]. simpl. by rewrite Hf.
Qed.

Module Normalizers.
Import SpectralIndices SpatialAnalysis.

(** The helper of the spatial server and the inline code of the index
    tools compute the same array: a NaN sentinel, which the helper skips
    explicitly, never compares equal to a cell in the index tools either. *)
Theorem normalizers_agree (data : list spec_float) (nodata : option spec_float) :
  handle_nodata data nodata = mask_nodata nodata data.
Proof.
  destruct nodata as [v|]; [|done]. unfold handle_nodata, mask_nodata.
  destruct (isnan v) eqn:E; [|done]. simpl.
  destruct v; try done. simpl. symmetry. apply mask_fill_never, SFeqb_nan_r.
Qed.

(** Normalizing keeps the shape, turns into NaN exactly the cells that
    compare equal to the sentinel (taken to binary32) and leaves the others
    as they are; afterwards no cell compares equal to the sentinel, and
    normalizing once more changes nothing. *)
Theorem handle_nodata_replaces_sentinel (data : list spec_float) (v : spec_float) :
  let out := handle_nodata data (Some v) in
  length out = length data
  /\ (forall (i : nat) x, data !! i = Some x ->
        out !! i = Some (if SFeqb x (F32.of_f64 v) then F32.nan else x))
  /\ Forall (fun x => SFeqb x (F32.of_f64 v) = false) out
  /\ handle_nodata out (Some v) = out.
Proof.
  cbn zeta. unfold handle_nodata. destruct (isnan v) eqn:E; simpl.
  - destruct v; try done. simpl. repeat split.
    + intros i x Hx. by rewrite SFeqb_nan_r.
    + apply list.Forall_forall. intros x _. apply SFeqb_nan_r.
  - assert (forall (i : nat) x, data !! i = Some x ->
        Np.mask_fill data (map (fun x => SFeqb x (F32.of_f64 v)) data) F32.nan !! i =
        Some (if SFeqb x (F32.of_f64 v) then F32.nan else x)) as Hcell.
    { intros i x Hx. by rewrite mask_fill_lookup, Hx. }
    assert (Forall (fun x => SFeqb x (F32.of_f64 v) = false)
        (Np.mask_fill data (map (fun x => SFeqb x (F32.of_f64 v)) data) F32.nan)) as Hall.
    { apply Forall_lookup. intros i y Hy. rewrite mask_fill_lookup in Hy.
      destruct (data !! i) as [x|]; [|done]. simpl in Hy. injection Hy as <-.
      by destruct (SFeqb x (F32.of_f64 v)) eqn:Ex. }
    split; [apply mask_fill_length|]. split; [done|]. split; [done|].
    apply list_eq. intros i. rewrite mask_fill_lookup.
    destruct (_ !! i) as [y|] eqn:Ey; [|done]. simpl.
    by rewrite (proj1 (Forall_lookup _ _) Hall _ _ Ey).
Qed.

End Normalizers.


Import Py.
Local Open Scope Z_scope.

(** ** Conversions between binary32 and binary64 *)

Section Exact.
Variables prec emax : Z.
Hypothesis Hprec : 0 < prec.

Local Abbreviation fexp := (SpecFloat.fexp prec emax).
Local Abbreviation rexp := (round_exp prec emax).

(** A mantissa that loses no bit when moved to its rounding exponent is
    returned as it is. *)
Lemma binary_round_aux_exact sx mx ex :
  0 < mx ->
  let E := fexp (Zdigits2 mx + ex) in
  ex <= E -> mx mod 2 ^ (E - ex) = 0 -> E <= emax - prec ->
  binary_round_aux prec emax sx mx ex loc_Exact =
  S754_finite sx (Z.to_pos (mx / 2 ^ (E - ex))) E.
Proof using Hprec.
  intros Hmx E HE Hmod Hfit.
  destruct (binary_round_aux_spec prec emax sx mx ex loc_Exact ltac:(lia))
    as (m1r & _ & Hexact & ->).
  cbn zeta in Hexact.
  assert (rexp mx ex = E) as HE1 by (unfold round_exp; fold E; lia).
  rewrite HE1 in *. rewrite (Hexact eq_refl Hmod). clear Hexact m1r.
  pose proof (pow2_pos (E - ex) ltac:(lia)) as Hp.
  assert (mx = 2 ^ (E - ex) * (mx / 2 ^ (E - ex))) as Hdiv.
  { rewrite (Z.div_mod mx (2 ^ (E - ex))) at 1 by lia. lia. }
  assert (0 < mx / 2 ^ (E - ex)) as Hq.
  { assert (0 <= mx / 2 ^ (E - ex)) by (apply Z.div_pos; lia). nia. }
  assert (Zdigits2 (mx / 2 ^ (E - ex)) + E = Zdigits2 mx + ex) as Hd.
  { rewrite Hdiv at 2. rewrite Z.mul_comm, Zdigits2_mul_pow by lia. lia. }
  assert (rexp (mx / 2 ^ (E - ex)) E = E) as HE2.
  { unfold round_exp. rewrite Hd. fold E. lia. }
  rewrite HE2, Z.sub_diag, Z.pow_0_r, Z.div_1_r.
  by apply finalize_finite.
Qed.

(** [binary_round] on a value that fits the format. *)
Lemma binary_round_exact sx mx ex :
  let E := fexp (Zpos (digits2_pos mx) + ex) in
  let ez := Z.min ex E in
  (Zpos mx * 2 ^ (ex - ez)) mod 2 ^ (E - ez) = 0 -> E <= emax - prec ->
  binary_round prec emax sx mx ex =
  S754_finite sx (Z.to_pos (Zpos mx * 2 ^ (ex - ez) / 2 ^ (E - ez))) E.
Proof using Hprec.
  intros E ez Hmod Hfit. unfold binary_round.
  pose proof (shl_align_spec mx ex (fexp (Zpos (digits2_pos mx) + ex))) as Hs.
  destruct (shl_align mx ex _) as [mz e']. destruct Hs as [He' Hmz].
  fold E in He'. fold ez in He'. subst e'.
  assert (Zdigits2 (Zpos mz) + ez = Zpos (digits2_pos mx) + ex) as Hd.
  { rewrite Hmz, Zdigits2_mul_pow by lia. simpl. lia. }
  rewrite binary_round_aux_exact; rewrite ?Hd; fold E; rewrite ?Hmz; try done; lia.
Qed.

End Exact.

(** A binary32 value has at most 24 digits above an exponent of at least
    -149: widening it to binary64 shifts the mantissa to 53 digits. *)
Lemma F64_of_f32_finite_eq s m e :
  bounded F32.prec F32.emax m e = true ->
  let E := Zpos (digits2_pos m) + e - 53 in
  E < e /\ F64.of_f32 (S754_finite s m e) = S754_finite s (Z.to_pos (Zpos m * 2 ^ (e - E))) E.
Proof.
  intros Hb E.
  destruct (bounded_digits F32.prec F32.emax m e ltac:(done) Hb) as [He Hd].
  change (SpecFloat.emin F32.prec F32.emax) with (-149) in He.
  change (F32.emax - F32.prec) with 104 in He. change F32.prec with 24 in Hd.
  assert (SpecFloat.fexp F64.prec F64.emax (Zpos (digits2_pos m) + e) = E) as HE.
  { unfold SpecFloat.fexp, SpecFloat.emin. change F64.prec with 53. change F64.emax with 1024.
    pose proof (Zdigits2_pos (Zpos m) ltac:(lia)) as Hpos. simpl in Hpos. unfold E. lia. }
  split; [unfold E; lia|].
  unfold F64.of_f32. rewrite binary_round_exact; rewrite ?HE; try done.
  - replace (Z.min e E) with E by (unfold E; lia).
    by rewrite Z.sub_diag, Z.pow_0_r, Z.div_1_r.
  - replace (Z.min e E) with E by (unfold E; lia).
    by rewrite Z.sub_diag, Z.pow_0_r, Z.mod_1_r.
  - change (F64.emax - F64.prec) with 971. unfold E. lia.
Qed.

(** Rounding the widened value back to binary32. *)
Lemma F32_of_f64_back s m e :
  bounded F32.prec F32.emax m e = true ->
  let E := Zpos (digits2_pos m) + e - 53 in
  F32.of_f64 (S754_finite s (Z.to_pos (Zpos m * 2 ^ (e - E))) E) = S754_finite s m e.
Proof.
  intros Hb E.
  destruct (F64_of_f32_finite_eq s m e Hb) as [HE _]. fold E in HE.
  destruct (bounded_canonical F32.prec F32.emax m e Hb) as [Hc Hfit].
  pose proof (pow2_pos (e - E) ltac:(lia)) as Hp.
  set (mz := Z.to_pos (Zpos m * 2 ^ (e - E))).
  assert (Zpos mz = Zpos m * 2 ^ (e - E)) as Hmz by (unfold mz; lia).
  assert (Zpos (digits2_pos mz) + E = Zpos (digits2_pos m) + e) as Hd.
  { change (Zpos (digits2_pos mz)) with (Zdigits2 (Zpos mz)).
    rewrite Hmz, Zdigits2_mul_pow by lia. simpl. lia. }
  unfold F32.of_f64. simpl in Hc.
  rewrite binary_round_exact; rewrite ?Hd, ?Hc; try done.
  - replace (Z.min E e) with E by lia.
    rewrite Z.sub_diag, Z.pow_0_r, Z.mul_1_r, Hmz, Z.div_mul by lia. done.
  - replace (Z.min E e) with E by lia.
    by rewrite Z.sub_diag, Z.pow_0_r, Z.mul_1_r, Hmz, Z.mod_mul by lia.
Qed.

Lemma F32_of_f64_of_f32 (x : spec_float) :
  F32.valid x = true -> F32.of_f64 (F64.of_f32 x) = x.
Proof.
  destruct x as [s|s| |s m e]; try done. intros Hb.
  destruct (F64_of_f32_finite_eq s m e Hb) as [_ ->]. by apply F32_of_f64_back.
Qed.

Module Conversions.

(** Widening a binary32 value to a double and rounding the double back to
    binary32 gives the value again, for every binary32 value (zeros,
    subnormal numbers, infinities and NaN included): the callbacks of
    [generic_filter] see the cells without loss, and a result that is one
    of the cells is stored as that cell. *)
Theorem f32_f64_round_trip (x : spec_float) :
  F32.valid x = true -> F32.of_f64 (F64.of_f32 x) = x.
Proof.
  destruct x as [s|s| |s m e].
  - reflexivity.
  - reflexivity.
  - reflexivity.
  - intros Hb.
    change (F32.valid (S754_finite s m e)) with (bounded F32.prec F32.emax m e) in Hb.
    destruct (F64_of_f32_finite_eq s m e Hb) as [_ Hwide].
    rewrite Hwide. by apply F32_of_f64_back.
Qed.

Lemma f32_f64_round_trip_witness :
  F32.of_f64 (F64.of_f32 (Demo.f32 (-9999))) = Demo.f32 (-9999).
Proof. refine (f32_f64_round_trip (Demo.f32 (-9999)) _). reflexivity. Defined.

End Conversions.


Import Py.
Local Open Scope Z_scope.

(** ** Shape and neighbourhoods of the focal filters *)

Lemma length_bind_rows {A B} (f : A -> list B) (l : list A) (w : nat) :
  (forall a, length (f a) = w) -> length (l ≫= f) = (length l * w)%nat.
Proof.
  intros Hw. induction l as [|a l IH]; [done|].
  rewrite bind_cons, length_app, Hw, IH. simpl. lia.
Qed.

Lemma generic_filter_length h w buf function k :
  length (Ndimage.generic_filter h w buf function k) = (h * w)%nat.
Proof.
  unfold Ndimage.generic_filter. rewrite (length_bind_rows _ _ w).
  - rewrite length_seqZ. lia.
  - intros r. by rewrite bind_singleton_fmap, length_fmap, length_seqZ, Nat2Z.id.
Qed.

Lemma reflect_inside n i : 0 <= i < n -> Ndimage.reflect n i = i.
Proof.
  intros Hi. unfold Ndimage.reflect. rewrite Z.mod_small by lia.
  by rewrite (proj2 (Z.ltb_lt i n)) by lia.
Qed.

Lemma reflect_range n i : 0 < n -> 0 <= Ndimage.reflect n i < n.
Proof.
  intros Hn. unfold Ndimage.reflect.
  pose proof (Z.mod_pos_bound i (2 * n) ltac:(lia)).
  destruct (Z.ltb_spec (i mod (2 * n)) n); lia.
Qed.

Lemma cell_lookup (w : nat) buf (r c : nat) :
  Ndimage.cell w buf (Z.of_nat r) (Z.of_nat c) = default S754_nan (buf !! (r * w + c)%nat).
Proof. unfold Ndimage.cell. do 2 f_equal. lia. Qed.

(** The cell itself belongs to its neighbourhood. *)
Lemma centre_in_window h w buf k (r c : nat) :
  0 < k -> (r < h)%nat -> (c < w)%nat ->
  default S754_nan (buf !! (r * w + c)%nat) ∈ Ndimage.window h w buf k (Z.of_nat r) (Z.of_nat c).
Proof.
  intros Hk Hr Hc. unfold Ndimage.window.
  assert (0 ∈ Ndimage.offsets k) as H0.
  { unfold Ndimage.offsets. apply elem_of_seqZ.
    pose proof (Z.div_lt k 2 ltac:(lia) ltac:(lia)).
    pose proof (Z.div_pos k 2 ltac:(lia) ltac:(lia)). lia. }
  apply list_elem_of_bind. exists 0. split; [|done].
  apply list_elem_of_bind. exists 0. split; [|done].
  rewrite !Z.add_0_r, !reflect_inside by lia. rewrite cell_lookup. left.
Qed.

Lemma window_one h w buf (r c : nat) :
  (r < h)%nat -> (c < w)%nat ->
  Ndimage.window h w buf 1 (Z.of_nat r) (Z.of_nat c) =
  [default S754_nan (buf !! (r * w + c)%nat)].
Proof.
  intros Hr Hc. unfold Ndimage.window. change (Ndimage.offsets 1) with [0]. csimpl.
  by rewrite !Z.add_0_r, !reflect_inside, cell_lookup by lia.
Qed.

(** Position [i] of a row-major buffer of shape [h x w]. *)
Lemma row_major (h w i : nat) :
  (i < h * w)%nat -> exists r c : nat, (r < h)%nat /\ (c < w)%nat /\ i = (r * w + c)%nat.
Proof.
  intros Hi. assert (0 < w)%nat as Hw by (destruct w; lia).
  exists (i / w)%nat, (i mod w)%nat. split; [|split].
  - apply Nat.Div0.div_lt_upper_bound. lia.
  - by apply Nat.mod_upper_bound, Nat.neq_0_lt_0.
  - rewrite (Nat.div_mod_eq i w) at 1. lia.
Qed.

(** The output cell of a focal filter, and when it is missing. *)
Lemma focal_lookup_nan_iff (f : SpatialAnalysis.reducer) (h w : nat) data k (r c : nat) :
  0 < k -> k * k < 2 ^ 63 -> (r < h)%nat -> (c < w)%nat ->
  Forall (fun x => F32.valid x = true /\ finite_or_nan x = true) data ->
  let win := Ndimage.window h w data k (Z.of_nat r) (Z.of_nat c) in
  exists out,
    SpatialAnalysis.focal_array f h w data k !! (r * w + c)%nat = Some out
    /\ (isnan out = true <-> Forall (fun x => isnan x = true) win).
Proof.
  intros Hk Hkk Hr Hc Hdata win.
  unfold SpatialAnalysis.focal_array. rewrite generic_filter_lookup by done. fold win.
  rewrite reducer_fun_plain, valid_cells_fmap_of_f32.
  eexists. split; [done|]. split.
  - intros Hnan. apply valid_cells_nil_iff.
    destruct (Np.valid_cells win) as [|x t] eqn:E; [done|]. exfalso.
    assert (isnan (reducer_plain f (F64.of_f32 <$> x :: t)) = false) as Hnn.
    { apply reducer_plain_not_nan; [done| |].
      - rewrite length_fmap, <- E.
        pose proof (valid_cells_length win) as Hl.
        pose proof (window_length h w data k (Z.of_nat r) (Z.of_nat c) ltac:(lia)) as Hw.
        fold win in Hw. lia.
      - apply Forall_fmap, list.Forall_forall. intros y Hy. rewrite <- E in Hy.
        apply valid_cells_elem in Hy as [Hy1 Hy2].
        destruct (proj1 (list.Forall_forall _ _)
                   (window_Forall (fun x => F32.valid x = true /\ finite_or_nan x = true)
                      h w data k (Z.of_nat r) (Z.of_nat c) ltac:(done) Hdata) y Hy2) as [Hv Hf].
        simpl. apply F64_of_f32_finite; [done|]. unfold finite_or_nan in Hf.
        by rewrite Hy1 in Hf. }
    apply F32_of_f64_not_nan in Hnn. congruence.
  - intros Hall. apply valid_cells_nil_iff in Hall. rewrite Hall. simpl.
    by rewrite reducer_plain_nil.
Qed.

Lemma count_true_cons b m :
  Np.count_true (b :: m) = ((if b then 1 else 0) + Np.count_true m)%nat.
Proof.
  unfold Np.count_true. rewrite filter_cons.
  destruct b; [by rewrite decide_True|by rewrite decide_False].
Qed.

Lemma count_valid_mono (a b : list spec_float) :
  Forall2 (fun x y => isnan x = false -> isnan y = false) a b ->
  (Np.count_true (Np.invert (Np.np_isnan a)) <= Np.count_true (Np.invert (Np.np_isnan b)))%nat.
Proof.
  induction 1 as [|x y a b Hxy _ IH]; [done|].
  unfold Np.invert, Np.np_isnan in *. simpl. rewrite !count_true_cons.
  destruct (isnan x) eqn:Ex; simpl; [destruct (negb (isnan y)); lia|].
  rewrite (Hxy eq_refl). simpl. lia.
Qed.

Module FocalFacts.
Import SpatialAnalysis.

(** With a window of one cell the focal maximum and the focal minimum
    return the band unchanged, missing cells included. *)
Theorem unit_window_returns_the_band (h w : nat) (data : list spec_float) :
  length data = (h * w)%nat ->
  Forall (fun x => F32.valid x = true) data ->
  focal_array Rmax h w data 1 = data /\ focal_array Rmin h w data 1 = data.
Proof.
  intros Hlen Hvalid.
  assert (forall f, f = Rmax \/ f = Rmin -> focal_array f h w data 1 = data) as Hgen.
  { intros f Hf. apply list_eq. intros i.
    destruct (decide (i < h * w)%nat) as [Hi|Hi].
    - destruct (row_major h w i Hi) as (r & c & Hr & Hc & ->).
      unfold focal_array. rewrite generic_filter_lookup, window_one by done.
      destruct (data !! (r * w + c)%nat) as [x|] eqn:Ex.
      2:{ apply lookup_ge_None in Ex. lia. }
      simpl. f_equal.
      pose proof (proj1 (Forall_lookup _ _) Hvalid _ _ Ex) as Hx.
      rewrite reducer_fun_plain. unfold Np.valid_cells.
      rewrite filter_cons, filter_nil, F64_of_f32_isnan.
      destruct (decide (isnan x = false)) as [En|En].
      + replace (reducer_plain f [F64.of_f32 x]) with (F64.of_f32 x)
          by (by destruct Hf as [-> | ->]).
        by apply F32_of_f64_of_f32.
      + apply not_false_is_true, isnan_true in En as ->.
        by destruct Hf as [-> | ->].
    - rewrite !lookup_ge_None_2; [done|lia|].
      unfold focal_array. rewrite generic_filter_length. lia. }
  split; apply Hgen; [by left|by right].
Qed.

Lemma unit_window_returns_the_band_witness :
  let data := handle_nodata (band_f32 Demo.scene 1) (Some (F64.lit (-9999) 0)) in
  focal_array Rmax 2 2 data 1 = data /\ focal_array Rmin 2 2 data 1 = data.
Proof.
  intros data.
  refine (unit_window_returns_the_band 2 2 data _ _);
    first [reflexivity | repeat constructor].
Defined.

(** A focal filter never loses a pixel: on a band of finite numbers and
    missing cells, every cell that is valid before the filter is valid
    after it, for each of the four reducers and every window size, so the
    count of valid pixels does not decrease. *)
Theorem focal_filter_keeps_valid_pixels (f : reducer) (h w : nat) (data : list spec_float)
    (k : Z) :
  0 < k -> k * k < 2 ^ 63 ->
  length data = (h * w)%nat ->
  Forall (fun x => F32.valid x = true /\ finite_or_nan x = true) data ->
  let filtered := focal_array f h w data k in
  length filtered = length data
  /\ (forall (i : nat) x, data !! i = Some x -> isnan x = false ->
        exists y, filtered !! i = Some y /\ isnan y = false)
  /\ (Np.count_true (Np.invert (Np.np_isnan data))
        <= Np.count_true (Np.invert (Np.np_isnan filtered)))%nat.
Proof.
  intros Hk Hkk Hlen Hdata filtered.
  assert (length filtered = length data) as Hlenf.
  { unfold filtered, focal_array. rewrite generic_filter_length. lia. }
  assert (forall (i : nat) x, data !! i = Some x -> isnan x = false ->
            exists y, filtered !! i = Some y /\ isnan y = false) as Hcell.
  { intros i x Hx Hnn.
    assert (i < h * w)%nat as Hi by (apply lookup_lt_Some in Hx; lia).
    destruct (row_major h w i Hi) as (r & c & Hr & Hc & ->).
    destruct (focal_lookup_nan_iff f h w data k r c Hk Hkk Hr Hc Hdata) as (out & Ho & Hiff).
    exists out. split; [done|].
    destruct (isnan out) eqn:Eo; [|done].
    pose proof (proj1 Hiff eq_refl) as Hall.
    pose proof (centre_in_window h w data k r c Hk Hr Hc) as Hin.
    rewrite Hx in Hin. simpl in Hin.
    pose proof (proj1 (list.Forall_forall _ _) Hall x Hin). congruence. }
  split; [done|]. split; [done|].
  apply count_valid_mono, Forall2_same_length_lookup. split; [done|].
  intros i x y Hx Hy Hnn. destruct (Hcell i x Hx Hnn) as (y' & Hy' & Hnn'). congruence.
Qed.

Lemma focal_filter_keeps_valid_pixels_witness :
  let data := handle_nodata (band_f32 Demo.scene 1) (Some (F64.lit (-9999) 0)) in
  let filtered := focal_array Rmean 2 2 data 3 in
  length filtered = length data
  /\ (forall (i : nat) x, data !! i = Some x -> isnan x = false ->
        exists y, filtered !! i = Some y /\ isnan y = false)
  /\ (Np.count_true (Np.invert (Np.np_isnan data))
        <= Np.count_true (Np.invert (Np.np_isnan filtered)))%nat.
Proof.
  intros data.
  refine (focal_filter_keeps_valid_pixels Rmean 2 2 data 3 _ _ _ _);
    first [reflexivity | lia | repeat constructor].
Defined.

(** The focal maximum and the focal minimum at a cell are always one of
    the cells of its neighbourhood, stored without rounding: the filter
    invents no value. *)
Theorem focal_extreme_is_a_neighbour (h w : nat) (data : list spec_float) (k : Z) (r c : nat) :
  0 < k -> (r < h)%nat -> (c < w)%nat ->
  Forall (fun x => F32.valid x = true) data ->
  let win := Ndimage.window h w data k (Z.of_nat r) (Z.of_nat c) in
  (exists hi, focal_array Rmax h w data k !! (r * w + c)%nat = Some hi /\ hi ∈ win)
  /\ (exists lo, focal_array Rmin h w data k !! (r * w + c)%nat = Some lo /\ lo ∈ win).
Proof.
  intros Hk Hr Hc Hvalid win.
  assert (Forall (fun x => F32.valid x = true) win) as Hwin by (by apply window_Forall).
  assert (forall f, f = Rmax \/ f = Rmin ->
            exists out, focal_array f h w data k !! (r * w + c)%nat = Some out /\ out ∈ win)
    as Hgen.
  { intros f Hf. unfold focal_array. rewrite generic_filter_lookup by done. fold win.
    eexists. split; [done|].
    rewrite reducer_fun_plain, valid_cells_fmap_of_f32.
    destruct (Np.valid_cells win) as [|x t] eqn:E.
    - rewrite fmap_nil, reducer_plain_nil. simpl.
      apply valid_cells_nil_iff in E.
      pose proof (centre_in_window h w data k r c Hk Hr Hc) as Hin. fold win in Hin.
      pose proof (proj1 (list.Forall_forall _ _) E _ Hin) as Hnan.
      apply isnan_true in Hnan. by rewrite Hnan in Hin.
    - assert (reducer_plain f (F64.of_f32 <$> x :: t) ∈ F64.of_f32 <$> x :: t) as Hel.
      { rewrite fmap_cons. destruct Hf as [-> | ->]; simpl.
        - apply fold_pick_max_elem.
        - apply fold_pick_min_elem. }
      apply list_elem_of_fmap in Hel as (z & -> & Hz). rewrite <- E in Hz.
      apply valid_cells_elem in Hz as [_ Hz].
      rewrite F32_of_f64_of_f32; [done|].
      by apply (proj1 (list.Forall_forall _ _) Hwin). }
  split; apply Hgen; [by left|by right].
Qed.

Lemma focal_extreme_is_a_neighbour_witness :
  let data := handle_nodata (band_f32 Demo.scene 1) (Some (F64.lit (-9999) 0)) in
  let win := Ndimage.window 2 2 data 3 (Z.of_nat 0) (Z.of_nat 1) in
  (exists hi, focal_array Rmax 2 2 data 3 !! (0 * 2 + 1)%nat = Some hi /\ hi ∈ win)
  /\ (exists lo, focal_array Rmin 2 2 data 3 !! (0 * 2 + 1)%nat = Some lo /\ lo ∈ win).
Proof.
  intros data.
  refine (focal_extreme_is_a_neighbour 2 2 data 3 0 1 _ _ _ _);
    first [reflexivity | lia | repeat constructor].
Defined.

End FocalFacts.


Import Py.
Local Open Scope Z_scope.

(** ** The order of IEEE values, as [np.min] and [np.max] use it *)

Lemma compare_cont_Eq_spec p q : Pos.compare_cont Eq p q = Pos.compare p q.
Proof. done. Qed.

Ltac order_cases :=
  unfold SFltb, SFleb, SFcompare in *;
  repeat match goal with
         | H : context [Z.compare ?a ?b] |- _ => destruct (Z.compare_spec a b); subst
         | |- context [Z.compare ?a ?b] => destruct (Z.compare_spec a b); subst
         end;
  rewrite ?compare_cont_Eq_spec in *;
  repeat match goal with
         | H : context [Pos.compare ?a ?b] |- _ => destruct (Pos.compare_spec a b); subst
         | |- context [Pos.compare ?a ?b] => destruct (Pos.compare_spec a b); subst
         end;
  simpl in *; try done; try lia.

Lemma SFltb_irrefl x : SFltb x x = false.
Proof. destruct x as [[]|[]| |[] m e]; order_cases. Qed.

Lemma SFltb_trans x y z : SFltb x y = true -> SFltb y z = true -> SFltb x z = true.
Proof.
  destruct x as [[]|[]| |[] mx ex], y as [[]|[]| |[] my ey], z as [[]|[]| |[] mz ez];
    try done; intros Hxy Hyz; order_cases.
Qed.

Lemma SFltb_false_leb x y :
  isnan x = false -> isnan y = false -> SFltb x y = false -> SFleb y x = true.
Proof.
  destruct x as [[]|[]| |[] mx ex], y as [[]|[]| |[] my ey]; try done; intros _ _ H;
    order_cases.
Qed.

Lemma SFleb_refl x : isnan x = false -> SFleb x x = true.
Proof. destruct x as [[]|[]| |[] m e]; try done; intros _; order_cases. Qed.

Lemma SFleb_trans x y z : SFleb x y = true -> SFleb y z = true -> SFleb x z = true.
Proof.
  destruct x as [[]|[]| |[] mx ex], y as [[]|[]| |[] my ey], z as [[]|[]| |[] mz ez];
    try done; intros Hxy Hyz; order_cases.
Qed.

Lemma SFltb_leb x y : SFltb x y = true -> SFleb x y = true.
Proof.
  destruct x as [[]|[]| |[] mx ex], y as [[]|[]| |[] my ey]; try done; intros H; order_cases.
Qed.

(** The running maximum dominates its start and every value it has seen;
    dually for the running minimum. *)
Lemma fold_pick_max_upper t acc :
  isnan acc = false -> Forall (fun y => isnan y = false) t ->
  SFleb acc (fold_left Np.pick_max t acc) = true
  /\ Forall (fun y => SFleb y (fold_left Np.pick_max t acc) = true) t.
Proof.
  revert acc. induction t as [|y t IH]; intros acc Hacc Ht; simpl.
  - split; [by apply SFleb_refl|constructor].
  - apply list.Forall_cons in Ht as [Hy Ht].
    unfold Np.pick_max at 2 4. rewrite Hacc, Hy.
    destruct (SFltb acc y) eqn:E.
    + destruct (IH y Hy Ht) as [H1 H2]. split; [|by constructor].
      eapply SFleb_trans; [|exact H1]. by apply SFltb_leb.
    + destruct (IH acc Hacc Ht) as [H1 H2]. split; [done|]. constructor; [|done].
      eapply SFleb_trans; [|exact H1]. by apply SFltb_false_leb.
Qed.

Lemma fold_pick_min_lower t acc :
  isnan acc = false -> Forall (fun y => isnan y = false) t ->
  SFleb (fold_left Np.pick_min t acc) acc = true
  /\ Forall (fun y => SFleb (fold_left Np.pick_min t acc) y = true) t.
Proof.
  revert acc. induction t as [|y t IH]; intros acc Hacc Ht; simpl.
  - split; [by apply SFleb_refl|constructor].
  - apply list.Forall_cons in Ht as [Hy Ht].
    unfold Np.pick_min at 2 4. rewrite Hacc, Hy.
    destruct (SFltb y acc) eqn:E.
    + destruct (IH y Hy Ht) as [H1 H2]. split; [|by constructor].
      eapply SFleb_trans; [exact H1|]. by apply SFltb_leb.
    + destruct (IH acc Hacc Ht) as [H1 H2]. split; [done|]. constructor; [|done].
      eapply SFleb_trans; [exact H1|]. by apply SFltb_false_leb.
Qed.

Lemma mask_select_valid a :
  Np.mask_select (Np.invert (Np.np_isnan a)) a = Np.valid_cells a.
Proof.
  unfold Np.invert, Np.np_isnan, Np.valid_cells.
  induction a as [|x a IH]; [done|]. simpl. rewrite filter_cons, IH.
  destruct (decide (isnan x = false)) as [E|E].
  - by rewrite E.
  - apply not_false_is_true in E. by rewrite E.
Qed.

Lemma np_any_valid_true a :
  Np.np_any (Np.invert (Np.np_isnan a)) = true -> Np.valid_cells a <> [].
Proof.
  intros Hany Hnil. apply valid_cells_nil_iff, np_any_valid_false in Hnil. congruence.
Qed.

Module Extremes.

(** The minimum and the maximum that the statistics report ([np.nanmin],
    [np.nanmax] of the filtered array; [np.min], [np.max] of the valid cells
    of an index) are cells of the array, neither is NaN, and every valid
    cell lies between them. *)
Theorem reported_extremes_bound_the_data (a : list spec_float) :
  Np.np_any (Np.invert (Np.np_isnan a)) = true ->
  let lo := Np.nanmin a in
  let hi := Np.nanmax a in
  lo ∈ a /\ hi ∈ a /\ isnan lo = false /\ isnan hi = false
  /\ (forall x, x ∈ a -> isnan x = false -> SFleb lo x = true /\ SFleb x hi = true)
  /\ Np.amin (Np.mask_select (Np.invert (Np.np_isnan a)) a) = lo
  /\ Np.amax (Np.mask_select (Np.invert (Np.np_isnan a)) a) = hi.
Proof.
  intros Hany lo hi. unfold lo, hi, Np.nanmin, Np.nanmax. rewrite mask_select_valid.
  pose proof (np_any_valid_true a Hany) as Hne.
  assert (Forall (fun y => isnan y = false) (Np.valid_cells a)) as Hnn.
  { apply list.Forall_forall. intros y Hy. by apply valid_cells_elem in Hy as [? _]. }
  destruct (Np.valid_cells a) as [|v t] eqn:E; [done|].
  apply list.Forall_cons in Hnn as [Hv Ht].
  destruct (fold_pick_min_lower t v Hv Ht) as [Hlo1 Hlo2].
  destruct (fold_pick_max_upper t v Hv Ht) as [Hhi1 Hhi2].
  pose proof (fold_pick_min_elem t v) as Hlo.
  pose proof (fold_pick_max_elem t v) as Hhi.
  assert (forall y, y ∈ v :: t -> y ∈ a /\ isnan y = false) as Hback.
  { intros y Hy. rewrite <- E in Hy. apply valid_cells_elem in Hy. tauto. }
  simpl. repeat split; try done.
  - by apply Hback.
  - by apply Hback.
  - by apply Hback.
  - by apply Hback.
  - assert (x ∈ v :: t) as Hx by (rewrite <- E; by apply valid_cells_elem).
    apply elem_of_cons in Hx as [->|Hx]; [done|].
    by apply (proj1 (list.Forall_forall _ _) Hlo2).
  - assert (x ∈ v :: t) as Hx by (rewrite <- E; by apply valid_cells_elem).
    apply elem_of_cons in Hx as [->|Hx]; [done|].
    by apply (proj1 (list.Forall_forall _ _) Hhi2).
Qed.

Lemma reported_extremes_bound_the_data_witness :
  let a := [Demo.f32 2; S754_nan; Demo.f32 (-9999); Demo.f32 3] in
  let lo := Np.nanmin a in
  let hi := Np.nanmax a in
  lo ∈ a /\ hi ∈ a /\ isnan lo = false /\ isnan hi = false
  /\ (forall x, x ∈ a -> isnan x = false -> SFleb lo x = true /\ SFleb x hi = true)
  /\ Np.amin (Np.mask_select (Np.invert (Np.np_isnan a)) a) = lo
  /\ Np.amax (Np.mask_select (Np.invert (Np.np_isnan a)) a) = hi.
Proof.
  intros a. refine (reported_extremes_bound_the_data a _). reflexivity.
Defined.

End Extremes.


Import Py.
Local Open Scope Z_scope.

(** ** Normalized differences *)

Section Differences.
Import SpectralIndices SpectralFacts.

(** The cell of a normalized difference [(A - B) / (A + B)] whose
    denominator is not zero. *)
Lemma difference_cell (A B : list spec_float) (i : nat) (x y : spec_float) :
  A !! i = Some x -> B !! i = Some y ->
  SFneb (F32.add x y) F32.zero = true ->
  ratio (arr_add A B) (arr_div (arr_sub A B) (arr_add A B)) !! i =
  Some (F32.div (F32.sub x y) (F32.add x y)).
Proof.
  intros HA HB Hnz. unfold ratio. rewrite masked_quotient_lookup.
  - unfold arr_div, arr_sub, arr_add. rewrite !lookup_zip_with, HA, HB. simpl.
    by rewrite Hnz.
  - unfold arr_div, arr_sub, arr_add. rewrite !length_zip_with. lia.
Qed.

Lemma difference_arrays (A B : list spec_float) :
  ndwi_array A B = ratio (arr_add A B) (arr_div (arr_sub A B) (arr_add A B))
  /\ mndwi_array A B = ratio (arr_add A B) (arr_div (arr_sub A B) (arr_add A B))
  /\ multi_ndwi_array A B = ratio (arr_add A B) (arr_div (arr_sub A B) (arr_add A B))
  /\ multi_ndvi_array B A = ratio (arr_add A B) (arr_div (arr_sub A B) (arr_add A B))
  /\ ndvi_array B A = ratio (arr_add A B) (arr_div (arr_sub A B) (arr_add A B)).
Proof.
  unfold ndwi_array, mndwi_array, multi_ndwi_array, multi_ndvi_array, ndvi_array, ratio,
    ndwi_denominator, mndwi_denominator, multi_ndwi_denom, multi_ndvi_denom, ndvi_denominator,
    arr_div, arr_sub.
  by rewrite !mask_select_zip_with.
Qed.

(** A value divided by itself. *)
Lemma SFdiv_self s1 s2 m e :
  F32.div (S754_finite s1 m e) (S754_finite s2 m e) =
  S754_finite (xorb s1 s2) 8388608 (-23).
Proof.
  unfold F32.div, SFdiv, SFdiv_core_binary. cbv zeta.
  rewrite !Z.sub_diag.
  change (Z.min (SpecFloat.fexp F32.prec F32.emax 0) 0) with (-24).
  change (0 - -24) with 24. cbv iota.
  rewrite Z.shiftl_mul_pow2 by lia.
  pose proof (Z_div_mod (Zpos m * 2 ^ 24) (Zpos m) ltac:(lia)) as Hdm.
  destruct (Z.div_eucl (Zpos m * 2 ^ 24) (Zpos m)) as [q r]. destruct Hdm as [Hq Hr].
  assert (r = 0 /\ q = 2 ^ 24) as [-> ->].
  { assert (Zpos m * (2 ^ 24 - q) = r) as Hmul by lia.
    destruct (Z.eq_dec q (2 ^ 24)) as [->|Hne]; [lia|]. exfalso.
    destruct (Z_lt_le_dec q (2 ^ 24)); nia. }
  rewrite new_location_exact. by destruct (xorb s1 s2).
Qed.

Lemma SFsub_self m e :
  F32.sub (S754_finite false m e) (S754_finite false m e) = S754_zero false.
Proof.
  unfold F32.sub, SFsub. cbn [cond_Zopp]. by rewrite Z.sub_diag.
Qed.

End Differences.

Module IndexValues.
Import SpectralIndices SpectralFacts.

(** The water indices and the NDVI of [calculate_multiple_indices] are
    normalized differences like NDVI: at a cell where the two bands are
    finite, at least zero and not both zero, each of them is the binary32
    quotient [(A - B) / (A + B)] and lies in the closed interval from -1 to
    1. *)
Theorem normalized_differences_within_unit_interval (A B : list spec_float) (i : nat)
    (x y : spec_float) :
  A !! i = Some x -> B !! i = Some y ->
  F32.valid x = true -> F32.valid y = true ->
  is_finite x = true -> is_finite y = true ->
  SFleb F32.zero x = true -> SFleb F32.zero y = true ->
  SFeqb y F32.zero && SFeqb x F32.zero = false ->
  let v := F32.div (F32.sub x y) (F32.add x y) in
  ndwi_array A B !! i = Some v
  /\ mndwi_array A B !! i = Some v
  /\ multi_ndwi_array A B !! i = Some v
  /\ multi_ndvi_array B A !! i = Some v
  /\ SFleb F32.minus_one v = true /\ SFleb v F32.one = true.
Proof.
  intros HA HB Hvx Hvy Hfx Hfy Hx Hy Hnz v.
  destruct (ndvi_cell_bounds y x Hvy Hvx Hfy Hfx Hy Hx Hnz) as (mb & eb & Hmb & Hnum & Hden).
  pose proof (at_least_nonzero _ _ _ Hden) as Hnonzero.
  destruct (difference_arrays A B) as (-> & -> & -> & -> & _).
  rewrite (difference_cell A B i x y HA HB Hnonzero).
  repeat split; try done; apply at_most_one_within;
    by apply (SFdiv_at_most_one F32.prec F32.emax ltac:(done) ltac:(done) _ _ mb eb).
Qed.

Lemma normalized_differences_within_unit_interval_witness :
  let A := [Demo.f32 1; Demo.f32 0] in
  let B := [Demo.f32 3; Demo.f32 0] in
  let v := F32.div (F32.sub (Demo.f32 1) (Demo.f32 3)) (F32.add (Demo.f32 1) (Demo.f32 3)) in
  ndwi_array A B !! 0%nat = Some v
  /\ mndwi_array A B !! 0%nat = Some v
  /\ multi_ndwi_array A B !! 0%nat = Some v
  /\ multi_ndvi_array B A !! 0%nat = Some v
  /\ SFleb F32.minus_one v = true /\ SFleb v F32.one = true.
Proof.
  intros A B.
  refine (normalized_differences_within_unit_interval A B 0 (Demo.f32 1) (Demo.f32 3)
            _ _ _ _ _ _ _ _ _); reflexivity.
Defined.

(** NDVI reaches its bounds exactly: for a positive finite reflectance [p],
    a cell with RED = 0 and NIR = [p] has NDVI 1, a cell with RED = [p] and
    NIR = 0 has NDVI -1, and a cell with RED = NIR = [p] has NDVI +0. *)
Theorem ndvi_extreme_values (red nir : list spec_float) (i : nat) (m : positive) (e : Z) :
  bounded F32.prec F32.emax m e = true ->
  let p := S754_finite false m e in
  (forall s, red !! i = Some (S754_zero s) -> nir !! i = Some p ->
     ndvi_array red nir !! i = Some F32.one)
  /\ (forall s, red !! i = Some p -> nir !! i = Some (S754_zero s) ->
     ndvi_array red nir !! i = Some F32.minus_one)
  /\ (red !! i = Some p -> nir !! i = Some p ->
     ndvi_array red nir !! i = Some (S754_zero false)).
Proof.
  intros Hb p.
  destruct (difference_arrays nir red) as (_ & _ & _ & _ & ->).
  split; [|split].
  - intros s Hr Hn. rewrite (difference_cell nir red i p (S754_zero s) Hn Hr); [|done].
    f_equal. apply (SFdiv_self false false).
  - intros s Hr Hn. rewrite (difference_cell nir red i (S754_zero s) p Hn Hr); [|done].
    f_equal. apply (SFdiv_self true false).
  - intros Hr Hn.
    destruct (SFadd_at_least F32.prec F32.emax ltac:(done) m e m e Hb Hb) as [Hden _].
    cbn zeta in Hden. fold p in Hden. fold (F32.add p p) in Hden.
    pose proof (SFadd_sign_plus F32.prec F32.emax ltac:(done) p p eq_refl eq_refl) as Hsign.
    fold (F32.add p p) in Hsign.
    rewrite (difference_cell nir red i p p Hn Hr) by (by eapply at_least_nonzero).
    f_equal. unfold p at 1 2. rewrite SFsub_self.
    by destruct (F32.add p p) as [[]|[]| |[] m' e'].
Qed.

Lemma ndvi_extreme_values_witness :
  let p := Demo.f32 3 in
  (forall s, [S754_zero false; p; p] !! 0%nat = Some (S754_zero s) -> [p; S754_zero false; p] !! 0%nat = Some p ->
     ndvi_array [S754_zero false; p; p] [p; S754_zero false; p] !! 0%nat = Some F32.one)
  /\ (forall s, [S754_zero false; p; p] !! 0%nat = Some p -> [p; S754_zero false; p] !! 0%nat = Some (S754_zero s) ->
     ndvi_array [S754_zero false; p; p] [p; S754_zero false; p] !! 0%nat = Some F32.minus_one)
  /\ ([S754_zero false; p; p] !! 0%nat = Some p -> [p; S754_zero false; p] !! 0%nat = Some p ->
     ndvi_array [S754_zero false; p; p] [p; S754_zero false; p] !! 0%nat = Some (S754_zero false)).
Proof.
  refine (ndvi_extreme_values [S754_zero false; Demo.f32 3; Demo.f32 3]
            [Demo.f32 3; S754_zero false; Demo.f32 3] 0 12582912 (-22) _).
  reflexivity.
Defined.

End IndexValues.


Import Py.
Local Open Scope Z_scope.

(** ** The metadata server *)

Lemma dict_set_append k v (d : dict) : k ∉ d.*1 -> dict_set k v d = d ++ [(k, v)].
Proof.
  induction d as [|[k' v'] d IH]; intros Hk; simpl; [done|].
  apply not_elem_of_cons in Hk as [Hne Hk].
  destruct (String.eqb_spec k k') as [->|_]; [done|]. by rewrite IH.
Qed.

Lemma band_key_inj (a b : Z) : "band_" +:+ pretty a = "band_" +:+ pretty b -> a = b.
Proof. intros E. by apply (inj (String.append "band_")), (inj pretty) in E. Qed.

Section Loop.
Context `{Rasterio} `{PyStr} `{NumPyExt}.
Import RasterMetadata.

(** The loop over the bands, when every band yields its statistics: each
    band is read once, in order, and its entry is appended. *)
Lemma stats_loop_appends (src : Dataset) (stats : Z -> value) (bands : list Z) (acc : dict) :
  NoDup bands ->
  (forall b, b ∈ bands -> "band_" +:+ pretty b ∉ acc.*1) ->
  (forall b, b ∈ bands -> band_stats (band_masked src b) = inr (stats b)) ->
  stats_loop src bands acc =
  (BandRead <$> bands, inr (acc ++ ((fun b => ("band_" +:+ pretty b, stats b)) <$> bands))).
Proof.
  revert acc. induction bands as [|b bands IH]; intros acc Hnd Hfresh Hok; simpl.
  - by rewrite app_nil_r.
  - apply list.NoDup_cons in Hnd as [Hb Hnd].
    unfold mbind, io_bind, read_masked. unfold mbind, io_bind, emit, mret, io_ret, ret.
    cbn [bind]. rewrite (Hok b) by left.
    rewrite dict_set_append by (apply Hfresh; left).
    rewrite IH; [|done| |].
    + cbn [app]. by rewrite <- app_assoc.
    + intros b' Hb'. rewrite fmap_app, not_elem_of_app. split.
      * apply Hfresh. by right.
      * simpl. rewrite list_elem_of_singleton. intros E. apply band_key_inj in E as ->. done.
    + intros b' Hb'. apply Hok. by right.
Qed.

End Loop.

(** The bounds helper returns, and prints only to the error stream. *)
Lemma bounds_helper_trace `{Rasterio} `{PyStr} (src : Dataset) :
  exists t b, get_wgs84_bounds src = (t, inr b)
              /\ Forall (fun ev => exists line, ev = Stderr line) t.
Proof.
  unfold get_wgs84_bounds. destruct (crs src) as [c|]; [|by eexists _, _].
  destruct (transform_bounds c (bounds src)); eexists _, _; (split; [reflexivity|]).
  - repeat constructor. by eexists.
  - constructor.
Qed.

Module MetadataFacts.
Import RasterMetadata Demo DemoTools.

Section Facts.
Context `{Rasterio} `{PyStr} `{NumPyExt}.

(** The bounds helper never raises.  Without a coordinate system it
    returns the native bounds and prints nothing (no reprojection is
    attempted); when the reprojection succeeds it returns the reprojected
    box and prints nothing; in every case it returns a box and prints at
    most one line, on the error stream. *)
Theorem bounds_helper_never_raises (src : Dataset) :
  (crs src = None -> get_wgs84_bounds src = ([], inr (bounds src)))
  /\ (forall c b, crs src = Some c -> transform_bounds c (bounds src) = inr b ->
        get_wgs84_bounds src = ([], inr b))
  /\ exists t b,
       get_wgs84_bounds src = (t, inr b)
       /\ (length t <= 1)%nat
       /\ Forall (fun ev => exists line, ev = Stderr line) t
       /\ (b = bounds src \/ exists c, crs src = Some c /\ transform_bounds c (bounds src) = inr b).
Proof.
  unfold get_wgs84_bounds. split; [|split].
  - by intros ->.
  - intros c b -> Hb. by rewrite Hb.
  - destruct (crs src) as [c|] eqn:Ec.
    + destruct (transform_bounds c (bounds src)) as [e|b] eqn:Eb.
      * eexists _, _. split; [reflexivity|]. simpl. split; [lia|]. split; [|by left].
        repeat constructor. by eexists.
      * eexists _, _. split; [reflexivity|]. simpl. split; [lia|]. split; [constructor|].
        right. by exists c.
    + eexists _, _. split; [reflexivity|]. simpl. split; [lia|]. split; [constructor|by left].
Qed.


(** A band without a valid cell is not an error for the histogram tool and
    the unique-values tool: whatever [bins] or [max_unique] is, they read
    the band and return the record with the text "No valid data in band"
    and the band number, without computing the bounds. *)
Theorem empty_band_gives_error_record (path : string) (src : Dataset) (band : Z) :
  path_exists (resolve path) = true ->
  open_dataset (resolve path) = inr src ->
  1 <= band <= count src ->
  Ma.count (band_masked src band) = 0%nat ->
  let answer : io value :=
    ([Opened (resolve path); BandRead band],
     inr (VDict [("error", VStr "No valid data in band"); ("band_number", VInt band)])) in
  (forall bins, histogram_data path band bins = answer)
  /\ (forall max_unique, unique_values path band max_unique = answer).
Proof.
  intros Hp Ho Hb Hc answer.
  assert (valid_band src band = true) as Hv.
  { unfold valid_band. apply andb_true_iff. split; lia. }
  split; intros k.
  - unfold histogram_data. run_opened Hp Ho. rewrite Hv. cbn [negb].
    unfold read_masked, mbind, io_bind, emit, mret, io_ret, ret. cbn [bind app].
    by destruct (decide (Ma.count (band_masked src band) = 0%nat)).
  - unfold unique_values. run_opened Hp Ho. rewrite Hv. cbn [negb].
    unfold read_masked, mbind, io_bind, emit, mret, io_ret, ret. cbn [bind app].
    by destruct (decide (Ma.count (band_masked src band) = 0%nat)).
Qed.

End Facts.


Lemma empty_band_gives_error_record_witness :
  let answer : io value :=
    ([Opened "/data/empty.tif"; BandRead 1],
     inr (VDict [("error", VStr "No valid data in band"); ("band_number", VInt 1)])) in
  (forall bins, histogram_data "/data/empty.tif" 1 bins = answer)
  /\ (forall max_unique, unique_values "/data/empty.tif" 1 max_unique = answer).
Proof.
  refine (empty_band_gives_error_record "/data/empty.tif" empty_scene 1 _ _ _ _);
    first [reflexivity | simpl; lia].
Defined.

End MetadataFacts.


Import Py.
Local Open Scope Z_scope.

(** ** np.unique with counts *)

Section Tally.
Implicit Types (l : list Qc) (x y : Qc).

Lemma runs_sum l : sum_list (Ma.runs l).*2 = length l.
Proof.
  induction l as [|x t IH]; [done|]. simpl.
  destruct (Ma.runs t) as [|[y c] r] eqn:E.
  - apply runs_nil in E as ->. done.
  - destruct (decide (x = y)); simpl in *; lia.
Qed.

Lemma sorted_head_absent x y t :
  StronglySorted Qcle (x :: y :: t) -> x <> y -> x ∉ y :: t.
Proof.
  intros Hs Hne Hin. apply StronglySorted_inv in Hs as [Hs Hx].
  apply Hne, (anti_symm Qcle).
  - apply (proj1 (list.Forall_forall _ _) Hx). left.
  - apply elem_of_cons in Hin as [->|Hin]; [done|].
    apply StronglySorted_inv in Hs as [_ Hy].
    by apply (proj1 (list.Forall_forall _ _) Hy).
Qed.

Lemma filter_absent x l : x ∉ l -> filter (fun y => y = x) l = [].
Proof.
  induction l as [|z l IH]; intros Hx; [done|].
  apply not_elem_of_cons in Hx as [Hne Hx].
  rewrite filter_cons, decide_False by done. by apply IH.
Qed.

(** In the runs of a sorted list every value carries its number of
    occurrences. *)
Lemma runs_count l x c :
  StronglySorted Qcle l -> (x, c) ∈ Ma.runs l ->
  c = length (filter (fun y => y = x) l) /\ (0 < c)%nat.
Proof.
  intros Hs. revert x c. induction Hs as [|z t Ht IH Hz]; intros x c Hin.
  { by apply elem_of_nil in Hin. }
  pose proof (runs_keys_NoDup t Ht) as Hnd.
  simpl in Hin. rewrite filter_cons.
  destruct (Ma.runs t) as [|[y cy] r] eqn:E.
  - apply runs_nil in E as ->. apply list_elem_of_singleton in Hin.
    injection Hin as -> ->. rewrite decide_True by done. simpl. lia.
  - assert (exists t', t = y :: t') as [t' ->].
    { destruct t as [|z' t']; [done|]. destruct (runs_head z' t') as (c' & r' & E').
      rewrite E in E'. simplify_eq. by eexists. }
    destruct (decide (z = y)) as [->|Hne].
    + apply elem_of_cons in Hin as [Heq|Hin].
      * injection Heq as -> ->. rewrite decide_True by done.
        destruct (IH y cy ltac:(left)) as [-> _]. simpl. lia.
      * assert (x <> y) as Hxy.
        { intros ->. apply list.NoDup_cons in Hnd as [Hnd _]. apply Hnd.
          apply list_elem_of_fmap. by exists (y, c). }
        rewrite decide_False by done. apply IH. by right.
    + apply elem_of_cons in Hin as [Heq|Hin].
      * injection Heq as -> ->. rewrite decide_True by done.
        rewrite filter_absent; [simpl; lia|].
        apply (sorted_head_absent z y t'); [by constructor|done].
      * assert (z <> x) as Hzx.
        { intros ->. apply (sorted_head_absent x y t'); [by constructor|done|].
          apply (runs_keys_elem (y :: t') x). rewrite E.
          apply list_elem_of_fmap. by exists (x, c). }
        rewrite decide_False by done. by apply IH.
Qed.

Lemma runs_keys_sorted l : StronglySorted Qcle l -> StronglySorted Qcle (Ma.runs l).*1.
Proof.
  induction 1 as [|x t Ht IH Hx]; [constructor|].
  assert (Forall (Qcle x) (Ma.runs t).*1) as Hall.
  { apply list.Forall_forall. intros y Hy. apply (proj1 (runs_keys_elem t y)) in Hy.
    by apply (proj1 (list.Forall_forall _ _) Hx). }
  simpl. destruct (Ma.runs t) as [|[y c] r] eqn:E; [simpl; repeat constructor|].
  destruct (decide (x = y)) as [->|Hne]; simpl in *; [done|by constructor].
Qed.

End Tally.

(** ** np.argsort and the truncation to the most frequent values *)

#[local] Instance count_le_trans : Transitive Ma.count_le.
Proof. intros a b c. unfold Ma.count_le. lia. Qed.

#[local] Instance count_le_total : Total Ma.count_le.
Proof. intros a b. unfold Ma.count_le. lia. Qed.

#[local] Instance flip_count_le_trans : Transitive (flip Ma.count_le).
Proof. intros a b c. unfold flip, Ma.count_le. lia. Qed.

Lemma zip_seq_elem {A} (l : list A) (c : A) (i : nat) :
  (c, i) ∈ zip l (seq 0 (length l)) <-> l !! i = Some c.
Proof.
  rewrite list_elem_of_lookup. split.
  - intros [j Hj]. rewrite lookup_zip_with in Hj.
    destruct (l !! j) as [x|] eqn:Ex; [|done]. simpl in Hj.
    destruct (seq 0 (length l) !! j) as [y|] eqn:Ey; [|done]. simpl in Hj.
    apply lookup_seq in Ey as [-> _]. by simplify_eq.
  - intros Hi. exists i. rewrite lookup_zip_with, Hi. simpl.
    rewrite lookup_seq_lt by (by apply lookup_lt_Some in Hi). done.
Qed.

Lemma take_indices_pairs {A} (l : list A) (P : list (A * nat)) :
  (forall c i, (c, i) ∈ P -> l !! i = Some c) ->
  Ma.take_indices l P.*2 = P.*1.
Proof.
  unfold Ma.take_indices. induction P as [|[c i] P IH]; intros HP; [done|].
  simpl. rewrite (HP c i) by left. simpl. f_equal. apply IH.
  intros c' i' Hin. apply HP. by right.
Qed.

Lemma take_indices_total {A} (l : list A) (idx : list nat) :
  (forall i, i ∈ idx -> is_Some (l !! i)) ->
  length (Ma.take_indices l idx) = length idx
  /\ forall (n : nat) v, Ma.take_indices l idx !! n = Some v ->
       exists i : nat, idx !! n = Some i /\ l !! i = Some v.
Proof.
  unfold Ma.take_indices. induction idx as [|i idx IH]; intros Hidx.
  { split; [done|]. intros n v Hn. simpl in Hn. by destruct n. }
  destruct (Hidx i ltac:(left)) as [v Hv]. csimpl. rewrite Hv. csimpl.
  destruct IH as [IH1 IH2]. { intros i' Hi'. apply Hidx. by right. }
  split; [by rewrite IH1|].
  intros [|n] v' Hn; [injection Hn as <-; by exists i|by apply IH2].
Qed.

Section Argsort.
Variable counts : list nat.

(** The pairs (count, position) in decreasing order of count. *)
Let ranked : list (nat * nat) :=
  reverse (@merge_sort _ Ma.count_le Ma.count_le_dec (zip counts (seq 0 (length counts)))).

Lemma ranked_perm : ranked ≡ₚ zip counts (seq 0 (length counts)).
Proof. unfold ranked. by rewrite reverse_Permutation, merge_sort_Permutation. Qed.

Lemma ranked_sorted : StronglySorted (flip Ma.count_le) ranked.
Proof.
  unfold ranked. apply Sorted_StronglySorted; [apply _|].
  apply Sorted_reverse, Sorted_merge_sort. apply _.
Qed.

Lemma ranked_elem c i : (c, i) ∈ ranked <-> counts !! i = Some c.
Proof. by rewrite ranked_perm, zip_seq_elem. Qed.

Lemma ranked_positions : ranked.*2 = reverse (Ma.argsort counts).
Proof. unfold ranked, Ma.argsort. by rewrite fmap_reverse. Qed.

Lemma ranked_NoDup : NoDup ranked.*2.
Proof.
  rewrite ranked_perm, snd_zip by (rewrite length_seq; lia). apply NoDup_seq.
Qed.

Lemma ranked_length : length ranked = length counts.
Proof. rewrite ranked_perm, length_zip, length_seq. lia. Qed.

End Argsort.

Module UniqueFacts.

(** [np.unique(a, return_counts=True)] as the tool uses it: the values
    come in increasing order without repetition, they are exactly the
    values of the array, each carries its number of occurrences (at least
    one), and the counts add up to the size of the array. *)
Theorem unique_counts_tally (a : list Qc) :
  let uc := Ma.unique_counts a in
  StronglySorted Qcle uc.*1 /\ NoDup uc.*1
  /\ (forall x, x ∈ uc.*1 <-> x ∈ a)
  /\ (forall x c, (x, c) ∈ uc -> c = length (filter (fun y => y = x) a) /\ (0 < c)%nat)
  /\ sum_list uc.*2 = length a.
Proof.
  cbn zeta. unfold Ma.unique_counts.
  pose proof (StronglySorted_merge_sort Qcle a) as Hs.
  pose proof (merge_sort_Permutation Qcle a) as Hp.
  split; [by apply runs_keys_sorted|]. split; [by apply runs_keys_NoDup|].
  split; [|split].
  - intros x. by rewrite runs_keys_elem, Hp.
  - intros x c Hin. destruct (runs_count _ x c Hs Hin) as [-> Hc]. split; [|done].
    by rewrite Hp.
  - by rewrite runs_sum, Hp.
Qed.

(** The truncation of [unique_values].  When the positions are sorted by
    count, reversed and cut to [max_unique] (at least zero and at most the
    number of values), exactly [max_unique] distinct positions are kept; the
    values and counts taken at these positions still correspond entry by
    entry; and every count that is kept is at least every count that is
    dropped. *)
Theorem truncation_keeps_most_frequent (unique_vals : list Qc) (counts : list nat)
    (max_unique : Z) :
  length unique_vals = length counts ->
  0 <= max_unique <= Z.of_nat (length counts) ->
  let sorted_indices := slice_to max_unique (reverse (Ma.argsort counts)) in
  let kept_vals := Ma.take_indices unique_vals sorted_indices in
  let kept_counts := Ma.take_indices counts sorted_indices in
  NoDup sorted_indices
  /\ length sorted_indices = Z.to_nat max_unique
  /\ length kept_vals = Z.to_nat max_unique
  /\ length kept_counts = Z.to_nat max_unique
  /\ (forall (n : nat) v c, kept_vals !! n = Some v -> kept_counts !! n = Some c ->
        exists i : nat, sorted_indices !! n = Some i
                        /\ unique_vals !! i = Some v /\ counts !! i = Some c)
  /\ (forall (i j : nat) c c', i ∈ sorted_indices -> j ∉ sorted_indices ->
        counts !! i = Some c -> counts !! j = Some c' -> (c' <= c)%nat).
Proof.
  intros Hlen Hk. cbn zeta. unfold slice_to.
  rewrite (proj2 (Z.leb_le 0 max_unique)) by lia.
  rewrite <- ranked_positions, <- fmap_take.
  set (k := Z.to_nat max_unique).
  set (R := reverse (@merge_sort _ Ma.count_le Ma.count_le_dec (zip counts (seq 0 (length counts))))).
  assert (length (take k R) = k) as Hlk.
  { rewrite length_take. pose proof (ranked_length counts). fold R in H. lia. }
  assert (forall c i, (c, i) ∈ take k R -> counts !! i = Some c) as Hpairs.
  { intros c i Hin. apply ranked_elem. fold R. revert Hin. apply subseteq_take. }
  assert (forall i, i ∈ (take k R).*2 -> is_Some (unique_vals !! i)) as Hvals.
  { intros i Hi. apply list_elem_of_fmap in Hi as ([c i'] & -> & Hin). simpl.
    apply Hpairs in Hin. apply lookup_lt_Some in Hin.
    apply lookup_lt_is_Some. lia. }
  destruct (take_indices_total unique_vals (take k R).*2 Hvals) as [Hlv Hv].
  rewrite length_fmap, Hlk in Hlv.
  rewrite (take_indices_pairs counts (take k R) Hpairs).
  split; [|split; [|split; [|split; [|split]]]].
  - rewrite fmap_take. eapply sublist_NoDup; [|apply sublist_take]. apply ranked_NoDup.
  - by rewrite length_fmap.
  - done.
  - by rewrite length_fmap.
  - intros n v c Hn Hc. destruct (Hv n v Hn) as (i & Hi & Hvi). exists i.
    split; [done|]. split; [done|].
    rewrite list_lookup_fmap in Hi, Hc.
    destruct (take k R !! n) as [[c0 i0]|] eqn:E; [|done]. simpl in *. simplify_eq.
    apply Hpairs. by eapply list_elem_of_lookup_2.
  - intros i j c c' Hi Hj Hci Hcj.
    apply list_elem_of_fmap in Hi as ([c0 i0] & -> & Hin). simpl in *.
    assert (c0 = c) as -> by (apply Hpairs in Hin; congruence).
    assert ((c', j) ∈ drop k R) as Hdrop.
    { assert ((c', j) ∈ R) as HR by (by apply ranked_elem).
      rewrite <- (take_drop k R) in HR. apply elem_of_app in HR as [HR|HR]; [|done].
      destruct Hj. apply list_elem_of_fmap. by exists (c', j). }
    pose proof (ranked_sorted counts) as Hs. fold R in Hs.
    rewrite <- (take_drop k R) in Hs.
    apply (StronglySorted_app_1_elem_of _ _ _ _ _ Hs Hin Hdrop).
Qed.

Lemma truncation_keeps_most_frequent_witness :
  let unique_vals := [Ma.of_Z 1; Ma.of_Z 2; Ma.of_Z 3] in
  let counts := [2%nat; 5%nat; 1%nat] in
  let sorted_indices := slice_to 2 (reverse (Ma.argsort counts)) in
  let kept_vals := Ma.take_indices unique_vals sorted_indices in
  let kept_counts := Ma.take_indices counts sorted_indices in
  NoDup sorted_indices
  /\ length sorted_indices = Z.to_nat 2
  /\ length kept_vals = Z.to_nat 2
  /\ length kept_counts = Z.to_nat 2
  /\ (forall (n : nat) v c, kept_vals !! n = Some v -> kept_counts !! n = Some c ->
        exists i : nat, sorted_indices !! n = Some i
                        /\ unique_vals !! i = Some v /\ counts !! i = Some c)
  /\ (forall (i j : nat) c c', i ∈ sorted_indices -> j ∉ sorted_indices ->
        counts !! i = Some c -> counts !! j = Some c' -> (c' <= c)%nat).
Proof.
  refine (truncation_keeps_most_frequent [Ma.of_Z 1; Ma.of_Z 2; Ma.of_Z 3]
            [2%nat; 5%nat; 1%nat] 2 _ _); first [reflexivity | simpl; lia].
Defined.

End UniqueFacts.


Import Py.
Local Open Scope Z_scope.

(** ** Bin edges of the histogram *)

Lemma edge_strict (first last : Qc) (n i : Z) :
  0 < n -> (first < last)%Qc ->
  (Ma.edge first last n i < Ma.edge first last n (i + 1))%Qc.
Proof.
  intros Hn Hfl. rewrite edge_succ. apply Qclt_minus_iff.
  replace (Ma.edge first last n i + (last - first) / Ma.of_Z n + - Ma.edge first last n i)%Qc
    with ((last - first) / Ma.of_Z n)%Qc by ring.
  by apply step_pos.
Qed.

Lemma count_true_valid a :
  Np.count_true (Np.invert (Np.np_isnan a)) = length (Np.valid_cells a).
Proof.
  unfold Np.invert, Np.np_isnan, Np.valid_cells.
  induction a as [|x a IH]; [done|]. simpl. rewrite count_true_cons, filter_cons, IH.
  destruct (decide (isnan x = false)) as [E|E].
  - by rewrite E.
  - apply not_false_is_true in E. by rewrite E.
Qed.

Lemma np_all_isnan_iff a :
  Np.np_all (Np.np_isnan a) = true <-> Np.valid_cells a = [].
Proof.
  rewrite valid_cells_nil_iff. unfold Np.np_all, Np.np_isnan.
  induction a as [|x a IH]; [done|]. simpl. rewrite andb_true_iff, list.Forall_cons, IH.
  done.
Qed.

Module StatsFacts.
Import SpectralIndices.



Section Stats.
Context `{NumPyExt}.

(** [calculate_index_stats] on any array, empty and all-missing ones
    included: [valid_pixels] is the number of cells that are not NaN,
    [total_pixels] the size of the array, and [min] is null (and no
    percentile is reported) exactly when no cell is valid. *)
Theorem index_stats_count_valid_cells (index_array : list spec_float) (index_name : string) :
  exists stats,
    calculate_index_stats index_array index_name = [(index_name +:+ "_stats", VDict stats)]
    /\ dict_get "valid_pixels" stats = Some (VInt (Z.of_nat (length (Np.valid_cells index_array))))
    /\ dict_get "total_pixels" stats = Some (VInt (Z.of_nat (length index_array)))
    /\ (dict_get "min" stats = Some VNone <-> Np.valid_cells index_array = [])
    /\ (dict_get "percentiles" stats = None <-> Np.valid_cells index_array = []).
Proof.
  unfold calculate_index_stats.
  destruct (Np.np_all (Np.np_isnan index_array)) eqn:E.
  - apply np_all_isnan_iff in E. eexists. split; [reflexivity|]. rewrite E. by simpl.
  - assert (Np.valid_cells index_array <> []) as Hne.
    { intros Hnil. apply np_all_isnan_iff in Hnil. congruence. }
    eexists. split; [reflexivity|]. simpl. rewrite count_true_valid.
    repeat split; try done.
Qed.

End Stats.

End StatsFacts.


Import Py.
Local Open Scope Z_scope.

(** ** The descriptive tools *)

Lemma foldl_snoc_fmap {A B} (f : A -> B) (l : list A) (acc : list B) :
  foldl (fun bands i => bands ++ [f i]) acc l = acc ++ (f <$> l).
Proof.
  revert acc. induction l as [|a l IH]; intros acc; simpl; [by rewrite app_nil_r|].
  by rewrite IH, <- app_assoc.
Qed.

Module InfoFacts.
Import MetadataInfo Demo DemoTools.

Section Facts.
Context `{Rasterio} `{PyStr} `{RasterioInfo}.

(** [extract_metadata] opens the file and reads no band; besides a
    possible warning of the bounds helper it has no other effect.  Its
    [bands] list has one entry per band, numbered 1, 2, ..., count in that
    order, each with the band's own dtype, sentinel and tags; [count] is
    the number of bands. *)
Theorem extract_metadata_describes_every_band (path : string) (src : Dataset) :
  path_exists (resolve path) = true ->
  open_dataset (resolve path) = inr src ->
  exists t b v,
    get_wgs84_bounds src = (t, inr b)
    /\ extract_metadata path = (Opened (resolve path) :: t, inr v)
    /\ Forall (fun ev => is_read ev = false) (Opened (resolve path) :: t)
    /\ field "count" v = Some (VInt (count src))
    /\ field "bounds_original_crs" v = Some (float_list (bounds src))
    /\ field "bounds_wgs84" v = Some (float_list b)
    /\ field "bands" v =
         Some (VList ((fun i =>
                 VDict [("band_number", VInt i);
                        ("dtype", VStr (dtype src (i - 1)));
                        ("nodata", opt_float (nodataval src i));
                        ("tags", VDict (tags src (Some i)))]) <$> seqZ 1 (count src))).
Proof.
  intros Hp Ho.
  destruct (bounds_helper_trace src) as (t & b & Hb & Ht).
  exists t, b. eexists. split; [done|].
  unfold extract_metadata. run_opened Hp Ho. rewrite Hb, bind_value. cbn [fst snd app].
  unfold mret, io_ret, ret. cbn [fst snd]. rewrite app_nil_r.
  split; [reflexivity|]. split.
  { constructor; [done|]. eapply list.Forall_impl; [exact Ht|]. by intros ev [line ->]. }
  rewrite foldl_snoc_fmap. cbn [app].
  repeat split; reflexivity.
Qed.

(** [raster_overview] opens the file and does nothing else: no band is
    read, no reprojection is attempted, nothing is printed.  It reports
    width x height as [total_pixels], [has_nodata] exactly when some band
    declares a sentinel, a null [data_type] exactly when the file has no
    band, and the text "No CRS" for a file without coordinate system. *)
Theorem raster_overview_only_opens_the_file (path : string) (src : Dataset) :
  path_exists (resolve path) = true ->
  open_dataset (resolve path) = inr src ->
  exists v,
    raster_overview path = ([Opened (resolve path)], inr v)
    /\ field "total_pixels" v = Some (VInt (Z.of_nat (width src) * Z.of_nat (height src)))
    /\ (field "has_nodata" v = Some (VBool true) <->
        exists (i : nat) x, nodatavals src !! i = Some (Some x))
    /\ (field "data_type" v = Some VNone <-> count src <= 0)
    /\ (crs src = None -> field "coordinate_system" v = Some (VStr "No CRS")).
Proof.
  intros Hp Ho. eexists. unfold raster_overview. run_opened Hp Ho.
  unfold mret, io_ret, ret. split; [reflexivity|]. cbn [field dict_get String.eqb Ascii.eqb Bool.eqb].
  split; [simpl; do 2 f_equal; lia|]. split; [|split].
  - simpl. unfold has_nodata. split.
    + intros [= Hex]. apply existsb_exists in Hex as (nd & Hin & Hnd).
      destruct nd as [x|]; [|done]. apply list_elem_of_In, list_elem_of_lookup in Hin.
      destruct Hin as [i Hi]. by exists i, x.
    + intros (i & x & Hi). do 2 f_equal. apply existsb_exists. exists (Some x).
      split; [|done]. apply list_elem_of_In. by eapply list_elem_of_lookup_2.
  - simpl. destruct (Z.ltb_spec 0 (count src)); split; try done; lia.
  - intros Hc. simpl. by rewrite Hc.
Qed.

End Facts.

Lemma extract_metadata_describes_every_band_witness :
  exists t b v,
    get_wgs84_bounds scene = (t, inr b)
    /\ extract_metadata "/data/scene.tif" = (Opened "/data/scene.tif" :: t, inr v)
    /\ Forall (fun ev => is_read ev = false) (Opened "/data/scene.tif" :: t)
    /\ field "count" v = Some (VInt (count scene))
    /\ field "bounds_original_crs" v = Some (float_list (bounds scene))
    /\ field "bounds_wgs84" v = Some (float_list b)
    /\ field "bands" v =
         Some (VList ((fun i =>
                 VDict [("band_number", VInt i);
                        ("dtype", VStr (dtype scene (i - 1)));
                        ("nodata", opt_float (nodataval scene i));
                        ("tags", VDict (tags scene (Some i)))]) <$> seqZ 1 (count scene))).
Proof.
  refine (extract_metadata_describes_every_band "/data/scene.tif" scene _ _); reflexivity.
Defined.

Lemma raster_overview_only_opens_the_file_witness :
  exists v,
    raster_overview "/data/scene.tif" = ([Opened "/data/scene.tif"], inr v)
    /\ field "total_pixels" v = Some (VInt (Z.of_nat (width scene) * Z.of_nat (height scene)))
    /\ (field "has_nodata" v = Some (VBool true) <->
        exists (i : nat) x, nodatavals scene !! i = Some (Some x))
    /\ (field "data_type" v = Some VNone <-> count scene <= 0)
    /\ (crs scene = None -> field "coordinate_system" v = Some (VStr "No CRS")).
Proof.
  refine (raster_overview_only_opens_the_file "/data/scene.tif" scene _ _); reflexivity.
Defined.

End InfoFacts.


Import Py.
Local Open Scope Z_scope.

(** ** Fill, filter, restore *)

(** Writing a filtered array back under the valid mask of the original. *)
Lemma restore_lookup (original filtered : list spec_float) (i : nat) :
  length filtered = length original ->
  Np.mask_assign (Np.full_like original F32.nan) (Np.invert (Np.np_isnan original))
    (Np.mask_select (Np.invert (Np.np_isnan original)) filtered) !! i =
  match original !! i with
  | Some x => if isnan x then Some F32.nan else filtered !! i
  | None => None
  end.
Proof.
  intros Hlen. rewrite mask_assign_select_lookup.
  - unfold Np.invert, Np.full_like. rewrite !list_lookup_fmap, np_isnan_lookup.
    destruct (original !! i) as [x|]; simpl; [|done]. by destruct (isnan x).
  - unfold Np.invert, Np.np_isnan, Np.full_like. by rewrite !length_map.
  - unfold Np.full_like. rewrite length_map. lia.
Qed.

Lemma restore_length (original filtered : list spec_float) :
  length (Np.mask_assign (Np.full_like original F32.nan) (Np.invert (Np.np_isnan original))
            (Np.mask_select (Np.invert (Np.np_isnan original)) filtered)) = length original.
Proof.
  unfold Np.full_like.
  assert (forall (dst : list spec_float) m s, length (Np.mask_assign dst m s) = length dst) as Hgen.
  { induction dst as [|d dst IH]; intros [|b m] s; simpl; try done.
    destruct b; [destruct s|]; simpl; by rewrite ?IH. }
  by rewrite Hgen, length_map.
Qed.

Section Sign.
Variables prec emax : Z.
Hypothesis Hprec : 0 < prec.

Lemma SFmul_square_sign_plus x :
  isnan x = false -> sign_plus (SFmul prec emax x x) = true.
Proof using Hprec.
  destruct x as [[]|[]| |[] m e]; try done; simpl; intros _;
    apply binary_round_aux_sign_plus; done || lia.
Qed.

Lemma SFsqrt_sign_plus x : sign_plus x = true -> sign_plus (SFsqrt prec emax x) = true.
Proof using Hprec.
  destruct x as [[]|[]| |[] m e]; try done; simpl; intros _.
  unfold SFsqrt_core_binary.
  set (s := _ - _).
  set (m' := match s with Z0 => Zpos m | Zpos _ => Z.shiftl (Zpos m) s | Zneg _ => 0 end).
  assert (0 <= m') as Hm'.
  { unfold m'. destruct s; [done| |done]. by apply Z.shiftl_nonneg. }
  pose proof (Z.sqrtrem_spec m' Hm') as Hs.
  destruct (Z.sqrtrem m') as [q r]. destruct Hs as [Hs1 Hs2].
  apply binary_round_aux_sign_plus; [done|]. nia.
Qed.

End Sign.

Module FilterFacts.
Import SpatialAnalysis SpatialFilters Demo DemoTools.

Section Facts.
Context `{Filters}.

(** The gradient magnitude [sqrt(gx**2 + gy**2)] of the edge detector is
    never negative: each cell is NaN, exactly when one of the two
    gradients is NaN there, or a value whose sign bit is clear (zero, a
    positive number or plus infinity). *)
Theorem edge_magnitude_is_never_negative (gx gy : list spec_float) (i : nat) (x y : spec_float) :
  gx !! i = Some x -> gy !! i = Some y ->
  exists v,
    magnitude gx gy !! i = Some v
    /\ (isnan v = true <-> isnan x = true \/ isnan y = true)
    /\ (isnan v = false -> sign_plus v = true /\ SFleb (S754_zero false) v = true).
Proof.
  intros Hx Hy. unfold magnitude. rewrite lookup_zip_with, Hx, Hy. simpl.
  eexists. split; [reflexivity|].
  destruct (isnan x) eqn:Ex.
  { apply isnan_true in Ex as ->. simpl. split; [tauto|done]. }
  destruct (isnan y) eqn:Ey.
  { apply isnan_true in Ey as ->. unfold F32.mul, F32.add, F32.sqrt.
    rewrite SFadd_nan_r. simpl. split; [tauto|done]. }
  pose proof (SFmul_square_sign_plus F32.prec F32.emax ltac:(done) x Ex) as Hxx.
  pose proof (SFmul_square_sign_plus F32.prec F32.emax ltac:(done) y Ey) as Hyy.
  pose proof (SFadd_sign_plus F32.prec F32.emax ltac:(done) _ _ Hxx Hyy) as Hsum.
  pose proof (SFsqrt_sign_plus F32.prec F32.emax ltac:(done) _ Hsum) as Hsq.
  fold F32.mul F32.add F32.sqrt in *.
  set (v := F32.sqrt (F32.add (F32.mul x x) (F32.mul y y))) in *.
  assert (isnan v = false) as Hv by (by apply sign_plus_not_nan).
  split; [split; [congruence|intros [?|?]; congruence]|].
  intros _. split; [done|]. by destruct v as [[]|[]| |[] m e].
Qed.

(** The median tool and the Sobel edge detector fill the missing cells,
    filter, and write the result back over an all-missing array under the
    valid mask.  On a band of shape [h x w], provided the median filter
    returns an array of the shape it is given: the result has the shape of
    the band, a missing cell stays missing, a valid cell receives the
    filtered value at its own position, and a band without any valid cell
    gives an all-missing result (the filters are not run). *)
Theorem filters_restore_the_missing_cells (h w : nat) (data : list spec_float) (size : Z) :
  length data = (h * w)%nat ->
  (forall a, length (median_filter h w a size) = length a) ->
  let filled_median := Np.mask_fill data (Np.np_isnan data) (nanmedian data) in
  let filled_mean := Np.mask_fill data (Np.np_isnan data) (Np.nanmean F32.prec F32.emax data) in
  let sobel :=
    magnitude (Ndimage.generic_filter h w filled_mean (sobel_response sobel_x) 3)
              (Ndimage.generic_filter h w filled_mean (sobel_response sobel_y) 3) in
  exists edges,
    edge_array "sobel" h w data = inr edges
    /\ length (median_array h w data size) = length data
    /\ length edges = length data
    /\ (forall (i : nat) x, data !! i = Some x -> isnan x = true ->
          median_array h w data size !! i = Some F32.nan /\ edges !! i = Some F32.nan)
    /\ (forall (i : nat) x, data !! i = Some x -> isnan x = false ->
          median_array h w data size !! i = median_filter h w filled_median size !! i
          /\ edges !! i = sobel !! i)
    /\ (Forall (fun x => isnan x = true) data ->
          median_array h w data size = Np.full_like data F32.nan
          /\ edges = Np.full_like data F32.nan).
Proof.
  intros Hlen Hshape filled_median filled_mean sobel.
  assert (length sobel = length data) as Hls.
  { unfold sobel, magnitude. rewrite length_zip_with, !generic_filter_length. lia. }
  assert (length filled_median = length data) as Hlm.
  { unfold filled_median, Np.mask_fill, Np.np_isnan. rewrite length_zip_with, length_map. lia. }
  unfold edge_array, median_array, edge_magnitude. simpl String.eqb. cbv iota.
  fold filled_median filled_mean. fold sobel.
  destruct (Np.np_any (Np.invert (Np.np_isnan data))) eqn:Hany.
  - eexists. split; [reflexivity|]. rewrite !restore_length.
    split; [done|]. split; [done|]. split; [|split].
    + intros i x Hx Hnan. rewrite !restore_lookup, Hx, Hnan by (rewrite ?Hshape; lia). done.
    + intros i x Hx Hnn. rewrite !restore_lookup, Hx, Hnn by (rewrite ?Hshape; lia). done.
    + intros Hall. apply np_any_valid_false in Hall. congruence.
  - eexists. split; [reflexivity|]. unfold Np.full_like. rewrite !length_map.
    split; [done|]. split; [done|]. split; [|split].
    + intros i x Hx Hnan. rewrite !list_lookup_fmap, Hx. done.
    + intros i x Hx Hnn. apply np_any_valid_false in Hany.
      pose proof (proj1 (Forall_lookup _ _) Hany _ _ Hx). congruence.
    + done.
Qed.

End Facts.

Lemma edge_magnitude_is_never_negative_witness :
  exists v,
    magnitude [f32 (-3)] [f32 2] !! 0%nat = Some v
    /\ (isnan v = true <-> isnan (f32 (-3)) = true \/ isnan (f32 2) = true)
    /\ (isnan v = false -> sign_plus v = true /\ SFleb (S754_zero false) v = true).
Proof.
  refine (edge_magnitude_is_never_negative [f32 (-3)] [f32 2] 0 (f32 (-3)) (f32 2) _ _);
    reflexivity.
Defined.

Lemma filters_restore_the_missing_cells_witness :
  let data := handle_nodata (band_f32 scene 1) (Some (F64.lit (-9999) 0)) in
  let filled_median := Np.mask_fill data (Np.np_isnan data) (nanmedian data) in
  let filled_mean := Np.mask_fill data (Np.np_isnan data) (Np.nanmean F32.prec F32.emax data) in
  let sobel :=
    magnitude (Ndimage.generic_filter 2 2 filled_mean (sobel_response sobel_x) 3)
              (Ndimage.generic_filter 2 2 filled_mean (sobel_response sobel_y) 3) in
  exists edges,
    edge_array "sobel" 2 2 data = inr edges
    /\ length (median_array 2 2 data 3) = length data
    /\ length edges = length data
    /\ (forall (i : nat) x, data !! i = Some x -> isnan x = true ->
          median_array 2 2 data 3 !! i = Some F32.nan /\ edges !! i = Some F32.nan)
    /\ (forall (i : nat) x, data !! i = Some x -> isnan x = false ->
          median_array 2 2 data 3 !! i = median_filter 2 2 filled_median 3 !! i
          /\ edges !! i = sobel !! i)
    /\ (Forall (fun x => isnan x = true) data ->
          median_array 2 2 data 3 = Np.full_like data F32.nan
          /\ edges = Np.full_like data F32.nan).
Proof.
  intros data.
  refine (filters_restore_the_missing_cells 2 2 data 3 _ _); first [reflexivity | done].
Defined.

End FilterFacts.


Import Py.
Local Open Scope Z_scope.

(** ** A band without a valid cell, in the spatial server *)

Lemma full_like_all_nan (a : list spec_float) :
  Forall (fun x => isnan x = true) (Np.full_like a F32.nan).
Proof. unfold Np.full_like. apply list.Forall_forall. intros x Hx.
  apply list_elem_of_fmap in Hx as (? & -> & _). done. Qed.

Lemma focal_all_nan (f : SpatialAnalysis.reducer) (h w : nat) data k :
  Forall (fun x => isnan x = true) data ->
  Forall (fun x => isnan x = true) (SpatialAnalysis.focal_array f h w data k).
Proof.
  intros Hdata. unfold SpatialAnalysis.focal_array, Ndimage.generic_filter.
  apply Forall_bind, list.Forall_forall. intros r _.
  apply Forall_bind, list.Forall_forall. intros c _.
  constructor; [|constructor].
  rewrite reducer_fun_plain, valid_cells_fmap_of_f32.
  assert (Np.valid_cells (Ndimage.window h w data k r c) = []) as ->.
  { apply valid_cells_nil_iff. by apply window_Forall. }
  by rewrite fmap_nil, reducer_plain_nil.
Qed.

Lemma filter_stats_all_nan (original filtered : list spec_float) (name : string) :
  Forall (fun x => isnan x = true) original ->
  Forall (fun x => isnan x = true) filtered ->
  SpatialAnalysis.calculate_filter_stats original filtered name =
  [(name +:+ "_stats",
    VDict [("original_valid_pixels", VInt 0); ("filtered_valid_pixels", VInt 0);
           ("min", VNone); ("max", VNone); ("mean", VNone); ("std", VNone)])].
Proof.
  intros Ho Hf. unfold SpatialAnalysis.calculate_filter_stats.
  rewrite !count_true_valid.
  rewrite (proj2 (valid_cells_nil_iff original) Ho), (proj2 (valid_cells_nil_iff filtered) Hf).
  by rewrite (proj2 (np_any_valid_false filtered) Hf).
Qed.

Module EmptyBand.
Import SpatialAnalysis SpatialFilters Demo DemoTools.

(** On a band without any valid cell no spatial filter fails: the focal
    filters, the Gaussian filter, the median filter and the edge detector
    all produce an all-missing array (the last three without running their
    filter), and the statistics report zero valid pixels before and after
    and null min, max, mean and std. *)
Theorem missing_band_gives_null_filter_stats `{SciPy} `{Filters}
    (h w : nat) (data : list spec_float) (name : string) :
  Forall (fun x => isnan x = true) data ->
  let nulls :=
    [(name +:+ "_stats",
      VDict [("original_valid_pixels", VInt 0); ("filtered_valid_pixels", VInt 0);
             ("min", VNone); ("max", VNone); ("mean", VNone); ("std", VNone)])] in
  (forall f k, calculate_filter_stats data (focal_array f h w data k) name = nulls)
  /\ (forall sigma, gaussian_array h w data sigma = Np.full_like data F32.nan
        /\ calculate_filter_stats data (gaussian_array h w data sigma) name = nulls)
  /\ (forall size, median_array h w data size = Np.full_like data F32.nan
        /\ calculate_filter_stats data (median_array h w data size) name = nulls)
  /\ (forall method, edge_array method h w data = inr (Np.full_like data F32.nan))
  /\ calculate_filter_stats data (Np.full_like data F32.nan) name = nulls.
Proof.
  intros Hdata nulls.
  pose proof (proj2 (np_any_valid_false data) Hdata) as Hany.
  pose proof (filter_stats_all_nan data (Np.full_like data F32.nan) name Hdata
                (full_like_all_nan data)) as Hfull.
  split; [|split; [|split; [|split]]].
  - intros f k. apply filter_stats_all_nan; [done|]. by apply focal_all_nan.
  - intros sigma. unfold gaussian_array. by rewrite Hany.
  - intros size. unfold median_array. by rewrite Hany.
  - intros method. unfold edge_array. by rewrite Hany.
  - done.
Qed.

Lemma missing_band_gives_null_filter_stats_witness :
  let data := handle_nodata (band_f32 empty_scene 1) (Some (F64.lit (-9999) 0)) in
  let nulls :=
    [("focal_mean" +:+ "_stats",
      VDict [("original_valid_pixels", VInt 0); ("filtered_valid_pixels", VInt 0);
             ("min", VNone); ("max", VNone); ("mean", VNone); ("std", VNone)])] in
  (forall f k, calculate_filter_stats data (focal_array f 2 2 data k) "focal_mean" = nulls)
  /\ (forall sigma, gaussian_array 2 2 data sigma = Np.full_like data F32.nan
        /\ calculate_filter_stats data (gaussian_array 2 2 data sigma) "focal_mean" = nulls)
  /\ (forall size, median_array 2 2 data size = Np.full_like data F32.nan
        /\ calculate_filter_stats data (median_array 2 2 data size) "focal_mean" = nulls)
  /\ (forall method, edge_array method 2 2 data = inr (Np.full_like data F32.nan))
  /\ calculate_filter_stats data (Np.full_like data F32.nan) "focal_mean" = nulls.
Proof.
  intros data.
  refine (missing_band_gives_null_filter_stats 2 2 data "focal_mean" _).
  repeat constructor.
Defined.

End EmptyBand.


Import Py.
Local Open Scope Z_scope.

(** ** The truncated answer of unique_values *)

Lemma take_indices_elem {A} (l : list A) (idx : list nat) (v : A) :
  v ∈ Ma.take_indices l idx <-> exists i, i ∈ idx /\ l !! i = Some v.
Proof. unfold Ma.take_indices. apply list_elem_of_omap. Qed.

Lemma take_indices_NoDup {A} (l : list A) (idx : list nat) :
  NoDup l -> NoDup idx -> NoDup (Ma.take_indices l idx).
Proof.
  intros Hl. induction 1 as [|i idx Hi Hidx IH]; [constructor|].
  unfold Ma.take_indices in *. csimpl. destruct (l !! i) as [v|] eqn:Ev; csimpl; [|done].
  constructor; [|done]. intros Hin. apply take_indices_elem in Hin as (j & Hj & Hv).
  pose proof (NoDup_lookup l i j v Hl Ev Hv) as ->. done.
Qed.

(** The positions kept by the truncation. *)
Lemma truncated_indices (counts : list nat) (k : nat) :
  (k <= length counts)%nat ->
  let idx := take k (reverse (Ma.argsort counts)) in
  NoDup idx /\ length idx = k /\ forall i, i ∈ idx -> (i < length counts)%nat.
Proof.
  intros Hk idx. unfold idx. rewrite <- ranked_positions.
  pose proof (ranked_NoDup counts) as Hnd.
  pose proof (ranked_length counts) as Hlen.
  set (R := reverse (@merge_sort _ Ma.count_le Ma.count_le_dec
                       (zip counts (seq 0 (length counts))))) in *.
  split; [|split].
  - eapply sublist_NoDup; [exact Hnd|apply sublist_take].
  - rewrite length_take, length_fmap. lia.
  - intros i Hi. apply subseteq_take in Hi.
    apply list_elem_of_fmap in Hi as ([c i'] & -> & Hin). simpl.
    apply ranked_elem in Hin. by apply lookup_lt_Some in Hin.
Qed.

Module UniqueTool.
Import RasterMetadata Demo.

(** The answer of [unique_values] on a band with more distinct valid
    values than [max_unique] (which is at least zero): it is flagged as
    truncated, holds exactly [max_unique] values, and still reports the
    full number of distinct values (keys are the renderings of the values,
    which are one-to-one). *)
Theorem unique_values_truncated `{Rasterio} `{PyStr} `{NumPyExt}
    (path : string) (band max_unique : Z) (src : Dataset) :
  Inj (=) (=) str_num ->
  path_exists (resolve path) = true ->
  open_dataset (resolve path) = inr src ->
  valid_band src band = true ->
  0 <= max_unique < Z.of_nat (size (list_to_set (Ma.compressed (band_masked src band)) : gset Qc)) ->
  exists v,
    outcome (unique_values path band max_unique) = inr v
    /\ field "truncated" v = Some (VBool true)
    /\ field "returned_values" v = Some (VInt max_unique)
    /\ field "total_unique_values" v =
         Some (VInt (Z.of_nat (size (list_to_set (Ma.compressed (band_masked src band)) : gset Qc)))).
Proof.
  intros Hinj Hp Ho Hb Hmax.
  rewrite <- unique_counts_length in *.
  assert (Ma.count (band_masked src band) <> 0%nat) as Hc.
  { unfold Ma.count. intros E. apply nil_length_inv in E. rewrite E in Hmax.
    simpl in Hmax. lia. }
  unfold unique_values. io_unfold.
  rewrite Hp; simpl. rewrite Ho; simpl. rewrite Hb; simpl.
  destruct (decide (Ma.count (band_masked src band) = 0%nat)); [done|]. simpl.
  set (uc := Ma.unique_counts (Ma.compressed (band_masked src band))) in *.
  rewrite length_fmap.
  replace (Z.of_nat (length uc) >? max_unique) with true
    by (symmetry; apply Z.gtb_lt; lia).
  unfold slice_to. rewrite (proj2 (Z.leb_le 0 max_unique)) by lia.
  set (idx := take (Z.to_nat max_unique) (reverse (Ma.argsort uc.*2))).
  destruct (truncated_indices uc.*2 (Z.to_nat max_unique)) as (Hnd & Hlen & Hrange).
  { rewrite length_fmap. lia. }
  fold idx in Hnd, Hlen, Hrange. rewrite length_fmap in Hrange.
  destruct (take_indices_total uc.*1 idx) as [Hlv _].
  { intros i Hi. apply lookup_lt_is_Some. rewrite length_fmap. by apply Hrange. }
  destruct (take_indices_total uc.*2 idx) as [Hlc _].
  { intros i Hi. apply lookup_lt_is_Some. rewrite length_fmap. by apply Hrange. }
  eexists. split; [reflexivity|]. split; [reflexivity|]. split; [|simpl].
  - simpl. do 2 f_equal.
    set (kept_vals := Ma.take_indices uc.*1 idx) in *.
    set (kept_counts := Ma.take_indices uc.*2 idx) in *.
    assert (kept_vals = (zip kept_vals kept_counts).*1) as Hv by (rewrite fst_zip; [done|lia]).
    assert (kept_counts = (zip kept_vals kept_counts).*2) as Hcn by (rewrite snd_zip; [done|lia]).
    rewrite Hv at 1. rewrite Hcn at 2.
    rewrite (fill_value_counts_length (zip kept_vals kept_counts) Hinj).
    + rewrite length_zip. lia.
    + rewrite <- Hv. apply take_indices_NoDup; [|done].
      apply runs_keys_NoDup, StronglySorted_merge_sort; apply _.
  - unfold Ma.unique. by rewrite length_fmap.
Qed.

Lemma unique_values_truncated_witness :
  exists v,
    outcome (unique_values "/data/scene.tif" 1 2) = inr v
    /\ field "truncated" v = Some (VBool true)
    /\ field "returned_values" v = Some (VInt 2)
    /\ field "total_unique_values" v =
         Some (VInt (Z.of_nat (size (list_to_set (Ma.compressed (band_masked Demo.scene 1)) : gset Qc)))).
Proof.
  refine (unique_values_truncated "/data/scene.tif" 1 2 Demo.scene _ _ _ _ _);
    first [reflexivity | by vm_compute | apply _].
Defined.

End UniqueTool.


Import Py.
Local Open Scope Z_scope.

(** ** Widening keeps the order *)

Lemma pos_compare_scaled (a b : positive) (k : Z) :
  0 <= k ->
  Pos.compare_cont Eq (Z.to_pos (Zpos a * 2 ^ k)) (Z.to_pos (Zpos b * 2 ^ k))
  = Pos.compare_cont Eq a b.
Proof.
  intros Hk. pose proof (pow2_pos k Hk) as Hp.
  change (Pos.compare_cont Eq ?p ?q) with (Pos.compare p q).
  rewrite !Pos2Z.inj_compare, !Z2Pos.id by nia.
  destruct (Z.compare_spec (Zpos a) (Zpos b)) as [E|E|E].
  - rewrite E. apply Z.compare_refl.
  - apply Z.compare_lt_iff. nia.
  - apply Z.compare_gt_iff. nia.
Qed.

(** The exponent-then-mantissa comparison of two binary32 values and of
    their binary64 images. *)
Lemma widen_compare (mx my : positive) (ex ey : Z) :
  bounded F32.prec F32.emax mx ex = true ->
  bounded F32.prec F32.emax my ey = true ->
  let Ex := Zpos (digits2_pos mx) + ex - 53 in
  let Ey := Zpos (digits2_pos my) + ey - 53 in
  match Ex ?= Ey with
  | Lt => Lt
  | Gt => Gt
  | Eq => Pos.compare_cont Eq (Z.to_pos (Zpos mx * 2 ^ (ex - Ex))) (Z.to_pos (Zpos my * 2 ^ (ey - Ey)))
  end =
  match ex ?= ey with
  | Lt => Lt
  | Gt => Gt
  | Eq => Pos.compare_cont Eq mx my
  end.
Proof.
  intros Hbx Hby Ex Ey.
  destruct (bounded_canonical F32.prec F32.emax mx ex Hbx) as [Hcx _].
  destruct (bounded_canonical F32.prec F32.emax my ey Hby) as [Hcy _].
  simpl Zdigits2 in Hcx, Hcy.
  unfold SpecFloat.fexp, SpecFloat.emin in Hcx, Hcy.
  change F32.prec with 24 in Hcx, Hcy. change F32.emax with 128 in Hcx, Hcy.
  pose proof (Zdigits2_bounds (Zpos mx) ltac:(lia)) as [Hx1 Hx2].
  pose proof (Zdigits2_bounds (Zpos my) ltac:(lia)) as [Hy1 Hy2].
  simpl Zdigits2 in Hx1, Hx2, Hy1, Hy2.
  set (dx := Zpos (digits2_pos mx)) in *. set (dy := Zpos (digits2_pos my)) in *.
  assert (0 < dx) as Hdx by (unfold dx; lia).
  assert (0 < dy) as Hdy by (unfold dy; lia).
  destruct (Z.compare_spec ex ey) as [He|He|He].
  - subst ey. destruct (Z.compare_spec dx dy) as [Hd|Hd|Hd].
    + assert (Ex = Ey) as HE by (unfold Ex, Ey; lia).
      rewrite HE, Z.compare_refl.
      replace (ex - Ey) with (53 - dx) by (unfold Ey; lia).
      apply pos_compare_scaled. lia.
    + assert (Ex < Ey) as HE by (unfold Ex, Ey; lia).
      rewrite (proj2 (Z.compare_lt_iff Ex Ey) HE).
      change (Pos.compare_cont Eq mx my) with (Pos.compare mx my).
      symmetry. apply Pos.compare_lt_iff.
      assert (2 ^ dx <= 2 ^ (dy - 1)) by (apply Z.pow_le_mono_r; lia). lia.
    + assert (Ey < Ex) as HE by (unfold Ex, Ey; lia).
      rewrite (proj2 (Z.compare_gt_iff Ex Ey) HE).
      change (Pos.compare_cont Eq mx my) with (Pos.compare mx my).
      symmetry. apply Pos.compare_gt_iff.
      assert (2 ^ dy <= 2 ^ (dx - 1)) by (apply Z.pow_le_mono_r; lia). lia.
  - assert (Ex < Ey) as HE by (unfold Ex, Ey; lia).
    by rewrite (proj2 (Z.compare_lt_iff Ex Ey) HE).
  - assert (Ey < Ex) as HE by (unfold Ex, Ey; lia).
    by rewrite (proj2 (Z.compare_gt_iff Ex Ey) HE).
Qed.

Lemma F64_of_f32_compare x y :
  F32.valid x = true -> F32.valid y = true ->
  SFcompare (F64.of_f32 x) (F64.of_f32 y) = SFcompare x y.
Proof.
  intros Hx Hy.
  destruct x as [sx|sx| |sx mx ex], y as [sy|sy| |sy my ey]; try done;
    repeat match goal with
           | |- context [F64.of_f32 (S754_finite ?s ?m ?e)] =>
               let H := fresh in
               destruct (F64_of_f32_finite_eq s m e ltac:(done)) as [_ H]; rewrite H; clear H
           end; try done.
  pose proof (widen_compare mx my ex ey Hx Hy) as Hw. cbn zeta in Hw.
  assert (forall (a b : comparison),
            match a with Lt => Gt | Gt => Lt | Eq => CompOpp b end
            = CompOpp (match a with Lt => Lt | Gt => Gt | Eq => b end)) as Hopp
    by (by intros [] b).
  unfold SFcompare. destruct sx, sy; try done.
  - by rewrite !Hopp, Hw.
  - by rewrite Hw.
Qed.

Module FocalOrder.
Import SpatialAnalysis.

(** The focal maximum at a cell is at least, and the focal minimum at
    most, every valid cell of the neighbourhood (in particular the cell
    itself when it is valid), so the focal minimum never exceeds the focal
    maximum. *)
Theorem focal_extremes_bound_the_window (h w : nat) (data : list spec_float) (k : Z)
    (r c : nat) (y : spec_float) :
  0 < k -> (r < h)%nat -> (c < w)%nat ->
  Forall (fun x => F32.valid x = true) data ->
  y ∈ Ndimage.window h w data k (Z.of_nat r) (Z.of_nat c) -> isnan y = false ->
  exists lo hi,
    focal_array Rmin h w data k !! (r * w + c)%nat = Some lo
    /\ focal_array Rmax h w data k !! (r * w + c)%nat = Some hi
    /\ SFleb lo y = true /\ SFleb y hi = true /\ SFleb lo hi = true.
Proof.
  intros Hk Hr Hc Hvalid Hy Hnn.
  set (win := Ndimage.window h w data k (Z.of_nat r) (Z.of_nat c)) in *.
  assert (Forall (fun x => F32.valid x = true) win) as Hwin by (by apply window_Forall).
  assert (y ∈ Np.valid_cells win) as HyV by (by apply valid_cells_elem).
  assert (Forall (fun x => isnan x = false) (F64.of_f32 <$> Np.valid_cells win)) as HnnV.
  { apply Forall_fmap, list.Forall_forall. intros z Hz. simpl.
    rewrite F64_of_f32_isnan. by apply valid_cells_elem in Hz as [? _]. }
  assert (forall z, z ∈ Np.valid_cells win -> F32.valid z = true) as HvV.
  { intros z Hz. apply valid_cells_elem in Hz as [_ Hz].
    by apply (proj1 (list.Forall_forall _ _) Hwin). }
  unfold focal_array. rewrite !generic_filter_lookup by done. fold win.
  rewrite !reducer_fun_plain, !valid_cells_fmap_of_f32.
  destruct (Np.valid_cells win) as [|v t] eqn:E; [by apply elem_of_nil in HyV|].
  rewrite fmap_cons in *. apply list.Forall_cons in HnnV as [Hv Ht].
  destruct (fold_pick_min_lower _ _ Hv Ht) as [Hlo1 Hlo2].
  destruct (fold_pick_max_upper _ _ Hv Ht) as [Hhi1 Hhi2].
  pose proof (fold_pick_min_elem (F64.of_f32 <$> t) (F64.of_f32 v)) as Hlo.
  pose proof (fold_pick_max_elem (F64.of_f32 <$> t) (F64.of_f32 v)) as Hhi.
  rewrite <- fmap_cons in Hlo, Hhi.
  apply list_elem_of_fmap in Hlo as (zlo & Elo & Hzlo).
  apply list_elem_of_fmap in Hhi as (zhi & Ehi & Hzhi).
  simpl reducer_plain. rewrite Elo, Ehi in *.
  rewrite !F32_of_f64_of_f32 by (by apply HvV).
  exists zlo, zhi. split; [done|]. split; [done|].
  assert (SFleb (F64.of_f32 zlo) (F64.of_f32 y) = true
          /\ SFleb (F64.of_f32 y) (F64.of_f32 zhi) = true) as [H1 H2].
  { apply elem_of_cons in HyV as [->|HyV]; [done|]. split.
    - apply (proj1 (list.Forall_forall _ _) Hlo2). by apply list_elem_of_fmap_2.
    - apply (proj1 (list.Forall_forall _ _) Hhi2). by apply list_elem_of_fmap_2. }
  assert (F32.valid y = true) as Hvy.
  { apply HvV. rewrite <- E. by apply valid_cells_elem. }
  unfold SFleb in *.
  rewrite F64_of_f32_compare in H1, H2 by (done || by apply HvV).
  split; [done|]. split; [done|].
  fold (SFleb zlo y) in H1. fold (SFleb y zhi) in H2. fold (SFleb zlo zhi).
  by eapply SFleb_trans.
Qed.

Lemma focal_extremes_bound_the_window_witness :
  let data := handle_nodata (band_f32 Demo.scene 1) (Some (F64.lit (-9999) 0)) in
  exists lo hi,
    focal_array Rmin 2 2 data 3 !! (1 * 2 + 1)%nat = Some lo
    /\ focal_array Rmax 2 2 data 3 !! (1 * 2 + 1)%nat = Some hi
    /\ SFleb lo (Demo.f32 2) = true /\ SFleb (Demo.f32 2) hi = true /\ SFleb lo hi = true.
Proof.
  intros data.
  refine (focal_extremes_bound_the_window 2 2 data 3 1 1 (Demo.f32 2) _ _ _ _ _ _);
    first [reflexivity | lia | by vm_compute | idtac].
  - repeat constructor.
  - vm_compute. repeat first [apply list_elem_of_here | apply list_elem_of_further].
Defined.

End FocalOrder.
